(** * migrate-pdp-node: the piece migration tool (migrate.ts)

    A shallow embedding of the migration driver: configuration from the
    environment, the progress store (loadProgress / saveProgress), the
    per-file task with its error classification, the batch loop, the final
    report, and the signal handler.  The other scripts of the repository
    follow in modules of their own: the plain migration script ([Basic]),
    the deposit script ([Deposit]), the test of a single piece
    ([TestPiece]) and the listing of a dataset ([CheckDataset]).

    Conventions.
    - JavaScript numbers that the program obtains from [parseInt], from
      [length] or by counting are integers or NaN: [JSNum].  Counters that
      are only ever incremented are kept in [Z].  Integers are exact: the
      rounding of doubles beyond 2^53 is not modelled.
    - JavaScript strings are byte strings holding UTF-8 text.
    - A [Set<string>] is the list of its members in insertion order.
    - The tasks of a batch run concurrently and settle in an order that the
      program does not fix.  [processBatch] runs them in the order of the
      batch, one of these orders; the theorems about a run give the names
      of the record, the uploads and the error records by their members,
      by their number and up to a permutation, not by their order
      (runBatches_any_order), and the sample runs at the end are runs in
      the order of the batch.  The event loop ([exec]) takes the order as
      a list of ticks.
    - What the program does to the outside world (console lines, uploads,
      file writes) is recorded in a trace of [Event]s. *)

From Stdlib Require Import String Ascii List ZArith Bool Lia Arith.
From Stdlib Require Import DecimalString DecimalN Permutation.
From Stdlib Require DecimalPos DecimalFacts.
Import ListNotations.
Local Open Scope string_scope.
Local Open Scope Z_scope.

(** ** JavaScript numbers and strings *)

Inductive JSNum : Type :=
| NaN
| Num (z : Z).

(** [!x] on a number: NaN and 0 are falsy. *)
Definition falsyNum (x : JSNum) : bool :=
  match x with
  | NaN => true
  | Num z => z =? 0
  end.

(** [a + b], [a < b] and [a % b === 0] on numbers. *)
Definition numAdd (a b : JSNum) : JSNum :=
  match a, b with
  | Num x, Num y => Num (x + y)
  | _, _ => NaN
  end.

Definition numLt (a b : JSNum) : bool :=
  match a, b with
  | Num x, Num y => x <? y
  | _, _ => false
  end.

Definition remIsZero (a : Z) (b : JSNum) : bool :=
  match b with
  | NaN => false
  | Num d => if d =? 0 then false else Z.rem a d =? 0
  end.

(** [process.env.X || dflt]: undefined and the empty string are falsy. *)
Definition orDefault (v : option string) (dflt : string) : string :=
  match v with
  | Some (String c r) => String c r
  | _ => dflt
  end.

Definition falsyStr (v : option string) : bool :=
  match v with
  | Some (String _ _) => false
  | _ => true
  end.

Fixpoint dropStr (n : nat) (s : string) : string :=
  match n, s with
  | S k, String _ r => dropStr k r
  | _, _ => s
  end.

Definition code (c : ascii) : nat := nat_of_ascii c.

(** Byte length of the StrWhiteSpaceChar at the head of [s] (0 when there is
    none): TAB, LF, VT, FF, CR, SP, and in UTF-8 U+00A0, U+1680,
    U+2000..U+200A, U+2028, U+2029, U+202F, U+205F, U+3000, U+FEFF. *)
Definition wsLen (s : string) : nat :=
  match s with
  | String c1 r1 =>
      let n1 := code c1 in
      if ((9 <=? n1) && (n1 <=? 13) || (n1 =? 32))%nat then 1%nat
      else
        match r1 with
        | String c2 r2 =>
            let n2 := code c2 in
            if ((n1 =? 194) && (n2 =? 160))%nat then 2%nat
            else
              match r2 with
              | String c3 _ =>
                  let n3 := code c3 in
                  if ((n1 =? 225) && (n2 =? 154) && (n3 =? 128))%nat then 3%nat
                  else if ((n1 =? 226) && (n2 =? 128)
                           && ((128 <=? n3) && (n3 <=? 138)
                               || (n3 =? 168) || (n3 =? 169) || (n3 =? 175)))%nat
                       then 3%nat
                  else if ((n1 =? 226) && (n2 =? 129) && (n3 =? 159))%nat then 3%nat
                  else if ((n1 =? 227) && (n2 =? 128) && (n3 =? 128))%nat then 3%nat
                  else if ((n1 =? 239) && (n2 =? 187) && (n3 =? 191))%nat then 3%nat
                  else 0%nat
              | EmptyString => 0%nat
              end
        | EmptyString => 0%nat
        end
  | EmptyString => 0%nat
  end.

Fixpoint trimStartFuel (fuel : nat) (s : string) : string :=
  match fuel with
  | O => s
  | S k =>
      match wsLen s with
      | O => s
      | n => trimStartFuel k (dropStr n s)
      end
  end.

Definition trimStart (s : string) : string := trimStartFuel (String.length s) s.

(** Value of [c] as a digit in [radix], if it is one. *)
Definition digitVal (radix : Z) (c : ascii) : option Z :=
  let n := Z.of_nat (code c) in
  let v := if (48 <=? n) && (n <=? 57) then n - 48
           else if (97 <=? n) && (n <=? 122) then n - 87
           else if (65 <=? n) && (n <=? 90) then n - 55
           else radix in
  if v <? radix then Some v else None.

(** The longest prefix of [s] made of digits of [radix], as a number;
    [acc] is [None] until the first digit has been read. *)
Fixpoint digitsPrefix (radix : Z) (acc : option Z) (s : string) : option Z :=
  match s with
  | EmptyString => acc
  | String c r =>
      match digitVal radix c with
      | None => acc
      | Some v =>
          digitsPrefix radix
            (Some (match acc with None => v | Some a => a * radix + v end)) r
      end
  end.

(** [parseInt(s)] with no radix argument (ECMA-262 19.2.5). *)
Definition parseInt (s : string) : JSNum :=
  let s1 := trimStart s in
  let '(sign, s2) :=
    match s1 with
    | String "-" r => (-1, r)
    | String "+" r => (1, r)
    | _ => (1, s1)
    end in
  let '(radix, s3) :=
    match s2 with
    | String "0" (String "x" r) => (16, r)
    | String "0" (String "X" r) => (16, r)
    | _ => (10, s2)
    end in
  match digitsPrefix radix None s3 with
  | None => NaN
  | Some v => Num (sign * v)
  end.

(** [hay.startsWith(needle)] and [hay.includes(needle)]. *)
Fixpoint startsWith (needle hay : string) {struct needle} : bool :=
  match needle with
  | EmptyString => true
  | String a n =>
      match hay with
      | String b h => Ascii.eqb a b && startsWith n h
      | EmptyString => false
      end
  end.

Fixpoint includes (needle hay : string) : bool :=
  startsWith needle hay
  || match hay with
     | EmptyString => false
     | String _ r => includes needle r
     end.

(** ** Sets of names, in insertion order *)

Definition Set_has (s : list string) (x : string) : bool :=
  existsb (String.eqb x) s.

Definition Set_add (s : list string) (x : string) : list string :=
  if Set_has s x then s else s ++ [x].

(** [new Set(items)] *)
Definition Set_of (items : list string) : list string :=
  fold_left Set_add items [].

(** ** JSON values, [JSON.stringify(v, null, 2)] and [JSON.parse]

    Modelled from ECMA-262 (24.5): the program only calls these built-ins.
    Numbers without fraction or exponent are integers; any other number
    lexeme is kept as written ([JFrac]). *)

#[local] Set Warnings "-register-all".

Inductive JSON : Type :=
| JNull
| JBool (b : bool)
| JInt (z : Z)
| JFrac (lexeme : string)
| JStr (s : string)
| JArr (items : list JSON)
| JObj (members : list (string * JSON)).

Definition dq : ascii := "034"%char.
Definition bslash : ascii := "092"%char.
Definition nl : string := String "010"%char EmptyString.
Definition str1 (c : ascii) : string := String c EmptyString.

Definition hexDigit (n : nat) : ascii :=
  ascii_of_nat (if (n <? 10)%nat then 48 + n else 87 + n).

(** QuoteJSONString, one code unit. *)
Definition quoteChar (c : ascii) : string :=
  let n := code c in
  if (n =? 34)%nat then String bslash (str1 dq)
  else if (n =? 92)%nat then String bslash (str1 bslash)
  else if (n =? 8)%nat then String bslash "b"
  else if (n =? 9)%nat then String bslash "t"
  else if (n =? 10)%nat then String bslash "n"
  else if (n =? 12)%nat then String bslash "f"
  else if (n =? 13)%nat then String bslash "r"
  else if (n <? 32)%nat then
    String bslash (String "u" (String "0" (String "0"
      (String (hexDigit (n / 16)) (str1 (hexDigit (n mod 16)))))))
  else str1 c.

Fixpoint quoteBody (s : string) : string :=
  match s with
  | EmptyString => EmptyString
  | String c r => quoteChar c ++ quoteBody r
  end.

Definition quote (s : string) : string :=
  String dq (quoteBody s ++ str1 dq).

Definition natToString (n : N) : string :=
  NilEmpty.string_of_uint (N.to_uint n).

Definition intToString (z : Z) : string :=
  if z <? 0 then String "-" (natToString (Z.to_N (- z)))
  else natToString (Z.to_N z).

(** Items of a non-empty array or object, one per line at indentation [ind]. *)
Fixpoint joinLines (ind : string) (items : list string) : string :=
  match items with
  | [] => EmptyString
  | [x] => ind ++ x
  | x :: rest => ind ++ x ++ "," ++ nl ++ joinLines ind rest
  end.

Fixpoint stringifyAt (ind : string) (v : JSON) : string :=
  match v with
  | JNull => "null"
  | JBool true => "true"
  | JBool false => "false"
  | JInt z => intToString z
  | JFrac l => l
  | JStr s => quote s
  | JArr [] => "[]"
  | JArr items =>
      "[" ++ nl
      ++ joinLines (ind ++ "  ") (map (stringifyAt (ind ++ "  ")) items)
      ++ nl ++ ind ++ "]"
  | JObj [] => "{}"
  | JObj members =>
      "{" ++ nl
      ++ joinLines (ind ++ "  ")
           (map (fun m => quote (fst m) ++ ": " ++ stringifyAt (ind ++ "  ") (snd m))
                members)
      ++ nl ++ ind ++ "}"
  end.

Definition JSON_stringify (v : JSON) : string := stringifyAt EmptyString v.

(** *** The parser *)

Definition isWs (c : ascii) : bool :=
  let n := code c in ((n =? 32) || (n =? 9) || (n =? 10) || (n =? 13))%nat.

Fixpoint skipWs (s : string) : string :=
  match s with
  | String c r => if isWs c then skipWs r else s
  | EmptyString => s
  end.

Definition isDigit (c : ascii) : bool :=
  let n := code c in ((48 <=? n) && (n <=? 57))%nat.

(** The digits at the head of [s], and what follows them. *)
Fixpoint spanDigits (s : string) : string * string :=
  match s with
  | String c r =>
      if isDigit c then let '(d, t) := spanDigits r in (String c d, t)
      else (EmptyString, s)
  | EmptyString => (EmptyString, EmptyString)
  end.

Definition digitsToN (d : string) : N :=
  match NilEmpty.uint_of_string d with
  | Some u => N.of_uint u
  | None => 0%N
  end.

(** Code point to UTF-8, for the code points of one [\uXXXX] escape (a
    surrogate that has no partner is encoded on its own). *)
Definition utf8 (cp : nat) : string :=
  if (cp <? 128)%nat then str1 (ascii_of_nat cp)
  else if (cp <? 2048)%nat then
    String (ascii_of_nat (192 + cp / 64)) (str1 (ascii_of_nat (128 + cp mod 64)))
  else
    String (ascii_of_nat (224 + cp / 4096))
      (String (ascii_of_nat (128 + (cp / 64) mod 64))
         (str1 (ascii_of_nat (128 + cp mod 64)))).

Definition hexVal (c : ascii) : option nat :=
  match digitVal 16 c with
  | Some v => Some (Z.to_nat v)
  | None => None
  end.

(** A high surrogate and the low surrogate behind it are one code point
    above U+FFFF, of four bytes in UTF-8: [hi] and [lo] are the ten low
    bits of the two halves. *)
Definition utf8Pair (hi lo : nat) : string :=
  let u := (1 + hi / 64)%nat in
  String (ascii_of_nat (240 + u / 4))
    (String (ascii_of_nat (128 + (u mod 4) * 16 + (hi mod 64) / 4))
       (String (ascii_of_nat (128 + (hi mod 4) * 16 + lo / 64))
          (str1 (ascii_of_nat (128 + lo mod 64))))).

(** The rest of a string literal, after its opening quote.  The escapes of
    a high and of a low surrogate in a row stand for one code point. *)
Fixpoint parseStringBody (s : string) : option (string * string) :=
  match s with
  | EmptyString => None
  | String c r =>
      let n := code c in
      if (n =? 34)%nat then Some (EmptyString, r)
      else if (n =? 92)%nat then
        match r with
        | String e r2 =>
            let lit (x : string) :=
              match parseStringBody r2 with
              | Some (t, u) => Some (x ++ t, u)
              | None => None
              end in
            let m := code e in
            if (m =? 34)%nat then lit (str1 dq)
            else if (m =? 92)%nat then lit (str1 bslash)
            else if (m =? 47)%nat then lit "/"
            else if (m =? 98)%nat then lit (str1 "008"%char)
            else if (m =? 102)%nat then lit (str1 "012"%char)
            else if (m =? 110)%nat then lit (str1 "010"%char)
            else if (m =? 114)%nat then lit (str1 "013"%char)
            else if (m =? 116)%nat then lit (str1 "009"%char)
            else if (m =? 117)%nat then
              match r2 with
              | String h1 (String h2 (String h3 (String h4 r6))) =>
                  match hexVal h1, hexVal h2, hexVal h3, hexVal h4 with
                  | Some a, Some b, Some c4, Some d =>
                      let single :=
                        match parseStringBody r6 with
                        | Some (t, u) =>
                            Some (utf8 (((a * 16 + b) * 16 + c4) * 16 + d) ++ t, u)
                        | None => None
                        end in
                      if (a =? 13)%nat && (8 <=? b)%nat && (b <=? 11)%nat then
                        (* U+D800..U+DBFF: with a low surrogate behind it *)
                        match r6 with
                        | String e1 (String e2 (String k1 (String k2
                            (String k3 (String k4 r12))))) =>
                            if (code e1 =? 92)%nat && (code e2 =? 117)%nat then
                              match hexVal k1, hexVal k2, hexVal k3, hexVal k4 with
                              | Some a', Some b', Some c', Some d' =>
                                  if (a' =? 13)%nat && (12 <=? b')%nat then
                                    match parseStringBody r12 with
                                    | Some (t, u) =>
                                        Some (utf8Pair
                                                (((b - 8) * 16 + c4) * 16 + d)
                                                (((b' - 12) * 16 + c') * 16 + d')
                                              ++ t, u)
                                    | None => None
                                    end
                                  else single
                              | _, _, _, _ => single
                              end
                            else single
                        | _ => single
                        end
                      else single
                  | _, _, _, _ => None
                  end
              | _ => None
              end
            else None
        | EmptyString => None
        end
      else if (n <? 32)%nat then None
      else
        match parseStringBody r with
        | Some (t, u) => Some (String c t, u)
        | None => None
        end
  end.

Definition headIs (c : ascii) (s : string) : bool :=
  match s with
  | String x _ => Ascii.eqb x c
  | EmptyString => false
  end.

Definition tailStr (s : string) : string :=
  match s with
  | String _ r => r
  | EmptyString => EmptyString
  end.

Definition isEmptyStr (s : string) : bool :=
  match s with
  | EmptyString => true
  | String _ _ => false
  end.

(** A number lexeme: an optional minus sign, an integer part without
    leading zeros, an optional fraction and an optional exponent. *)
Definition parseNumber (s : string) : option (JSON * string) :=
  let neg := headIs "-" s in
  let s1 := if neg then tailStr s else s in
  let '(ip, s2) := if headIs "0" s1 then ("0", tailStr s1) else spanDigits s1 in
  let '(fd, s3) := if headIs "." s2 then spanDigits (tailStr s2)
                   else (EmptyString, s2) in
  let hasExp := headIs "e" s3 || headIs "E" s3 in
  let r := tailStr s3 in
  let sg := if headIs "+" r then "+" else if headIs "-" r then "-"
            else EmptyString in
  let '(ed, s4) := if hasExp
                   then spanDigits (if isEmptyStr sg then r else tailStr r)
                   else (EmptyString, s3) in
  if isEmptyStr ip then None
  else if headIs "." s2 && isEmptyStr fd then None
  else if hasExp && isEmptyStr ed then None
  else if headIs "." s2 || hasExp then
    Some (JFrac ((if neg then "-" else EmptyString) ++ ip
                 ++ (if headIs "." s2 then String "." fd else EmptyString)
                 ++ (if hasExp then String (if headIs "e" s3 then "e" else "E")
                                      (sg ++ ed)
                     else EmptyString)),
          s4)
  else
    let v := Z.of_N (digitsToN ip) in
    Some (JInt (if neg then - v else v), s4).

Fixpoint parseValue (fuel : nat) (s : string) {struct fuel}
  : option (JSON * string) :=
  match fuel with
  | O => None
  | S k =>
      let t := skipWs s in
      let r := tailStr t in
      if headIs "{" t then
        if headIs "}" (skipWs r) then Some (JObj [], tailStr (skipWs r))
        else
          match parseMembers k r with
          | Some (ms, r') => Some (JObj ms, r')
          | None => None
          end
      else if headIs "[" t then
        if headIs "]" (skipWs r) then Some (JArr [], tailStr (skipWs r))
        else
          match parseElements k r with
          | Some (vs, r') => Some (JArr vs, r')
          | None => None
          end
      else if headIs dq t then
        match parseStringBody r with
        | Some (x, r') => Some (JStr x, r')
        | None => None
        end
      else if startsWith "true" t then Some (JBool true, dropStr 4 t)
      else if startsWith "false" t then Some (JBool false, dropStr 5 t)
      else if startsWith "null" t then Some (JNull, dropStr 4 t)
      else parseNumber t
  end

with parseElements (fuel : nat) (s : string) {struct fuel}
  : option (list JSON * string) :=
  match fuel with
  | O => None
  | S k =>
      match parseValue k s with
      | Some (v, r) =>
          let t := skipWs r in
          if headIs "," t then
            match parseElements k (tailStr t) with
            | Some (vs, r') => Some (v :: vs, r')
            | None => None
            end
          else if headIs "]" t then Some ([v], tailStr t)
          else None
      | None => None
      end
  end

with parseMembers (fuel : nat) (s : string) {struct fuel}
  : option (list (string * JSON) * string) :=
  match fuel with
  | O => None
  | S k =>
      let t := skipWs s in
      if headIs dq t then
        match parseStringBody (tailStr t) with
        | Some (key, r1) =>
            if headIs ":" (skipWs r1) then
              match parseValue k (tailStr (skipWs r1)) with
              | Some (v, r3) =>
                  let u := skipWs r3 in
                  if headIs "," u then
                    match parseMembers k (tailStr u) with
                    | Some (ms, r5) => Some ((key, v) :: ms, r5)
                    | None => None
                    end
                  else if headIs "}" u then Some ([(key, v)], tailStr u)
                  else None
              | None => None
              end
            else None
        | None => None
        end
      else None
  end.

(** [JSON.parse(text)]: [None] stands for the SyntaxError it throws.  Two
    levels of the recursion consume at least one character, so the fuel is
    never what makes it fail. *)
Definition JSON_parse (text : string) : option JSON :=
  match parseValue (2 * String.length text + 2) text with
  | Some (v, r) =>
      match skipWs r with
      | EmptyString => Some v
      | _ => None
      end
  | None => None
  end.

(** *** Round trip: what the statements need *)

(** Strings of white space. *)
Fixpoint isBlank (s : string) : bool :=
  match s with
  | EmptyString => true
  | String c r => isWs c && isBlank r
  end.

(** Strings of digits. *)
Fixpoint allDigits (s : string) : bool :=
  match s with
  | EmptyString => true
  | String c r => isDigit c && allDigits r
  end.

(** What may follow an integer literal: not a digit, a point or an exponent
    mark. *)
Definition endsNumber (rest : string) : bool :=
  match rest with
  | EmptyString => true
  | String c _ =>
      negb (isDigit c) && negb (Ascii.eqb c ".")
      && negb (Ascii.eqb c "e") && negb (Ascii.eqb c "E")
  end.

(** Values whose numbers are all integers. *)
Fixpoint plain (v : JSON) : bool :=
  match v with
  | JFrac _ => false
  | JArr items => forallb plain items
  | JObj members => forallb (fun m => plain (snd m)) members
  | _ => true
  end.

(** Fuel that parsing the text of [v] takes. *)
Fixpoint cost (v : JSON) : nat :=
  match v with
  | JArr items =>
      S ((fix costs (l : list JSON) : nat :=
            match l with
            | [] => O
            | x :: r => S (cost x + costs r)
            end) items)
  | JObj members =>
      S ((fix costs (l : list (string * JSON)) : nat :=
            match l with
            | [] => O
            | m :: r => S (cost (snd m) + costs r)
            end) members)
  | _ => 1%nat
  end.

Definition costs (l : list JSON) : nat :=
  fold_right (fun x acc => S (cost x + acc)) O l.

Definition costsM (l : list (string * JSON)) : nat :=
  fold_right (fun m acc => S (cost (snd m) + acc)) O l.

(** Induction on a value with its items. *)
Section JSON_induction.
Variable P : JSON -> Prop.
Hypothesis P_null : P JNull.
Hypothesis P_bool : forall b, P (JBool b).
Hypothesis P_int : forall z, P (JInt z).
Hypothesis P_frac : forall l, P (JFrac l).
Hypothesis P_str : forall s, P (JStr s).
Hypothesis P_arr : forall items, Forall P items -> P (JArr items).
Hypothesis P_obj : forall ms, Forall (fun m => P (snd m)) ms -> P (JObj ms).

Fixpoint JSON_induction (v : JSON) : P v :=
  match v with
  | JNull => P_null
  | JBool b => P_bool b
  | JInt z => P_int z
  | JFrac l => P_frac l
  | JStr s => P_str s
  | JArr items =>
      P_arr items
        ((fix go (l : list JSON) : Forall P l :=
            match l with
            | [] => Forall_nil P
            | x :: r => Forall_cons x (JSON_induction x) (go r)
            end) items)
  | JObj ms =>
      P_obj ms
        ((fix go (l : list (string * JSON)) : Forall (fun m => P (snd m)) l :=
            match l with
            | [] => Forall_nil _
            | m :: r => Forall_cons m (JSON_induction (snd m)) (go r)
            end) ms)
  end.
End JSON_induction.

(** The first character of the text of a value: not white space, and none
    of the closing and separating marks. *)
Definition startsValue (s : string) : bool :=
  match s with
  | EmptyString => false
  | String c _ =>
      negb (isWs c) && negb (Ascii.eqb c "]") && negb (Ascii.eqb c "}")
      && negb (Ascii.eqb c ",") && negb (Ascii.eqb c ":")
  end.

(** Parsing the text of [v], whatever follows it, gives [v] back. *)
Definition RoundTrips (v : JSON) : Prop :=
  plain v = true ->
  forall ind rest fuel,
    isBlank ind = true -> endsNumber rest = true -> (cost v <= fuel)%nat ->
    parseValue fuel (stringifyAt ind v ++ rest) = Some (v, rest).

(** The line of a member in the text of an object. *)
Definition memberLine (ind : string) (m : string * JSON) : string :=
  quote (fst m) ++ ": " ++ stringifyAt ind (snd m).

(** ** The world outside the program *)

(** What one per-file task meets: [readFile] of the piece rejects, the
    upload rejects, or the upload resolves with a piece CID.  The string is
    the message of the thrown value
    ([error instanceof Error ? error.message : String(error)]). *)
Inductive TaskOutcome : Type :=
| ReadFails (msg : string)
| UploadFails (msg : string)
| UploadOk (pieceCid : string).

(** The files of the working directory, by path; every write is taken to
    succeed. *)
Definition Disk : Type := string -> option string.

Definition writeFile (path data : string) (d : Disk) : Disk :=
  fun q => if String.eqb q path then Some data else d q.

Record World : Type := {
  env : string -> option string;        (* process.env *)
  calibrationRpc : string;              (* RPC_URLS.calibration.http *)
  localLotus : bool;                    (* the probe of the local node answered *)
  disk : Disk;                          (* files of the working directory *)
  synapseCreate : bool;                 (* Synapse.create resolves *)
  createContext : bool;                 (* synapse.storage.createContext resolves *)
  pLimitOk : bool;                      (* pLimit(CONFIG.concurrency) returns *)
  readdir : option (list string);       (* readdir(CONFIG.sourcePath), None: rejects *)
  attempt : string -> TaskOutcome;      (* readFile + context.upload of a piece *)
  loadTime : string;                    (* new Date().toISOString() in loadProgress *)
  errorTime : string -> string;         (* ... in the error record of a file *)
  batchTime : nat -> string             (* ... after the batch of that index *)
}.

(** ** Configuration *)

(** detectRpcEndpoint *)
Definition detectRpcEndpoint (w : World) : string * bool :=
  match env w "LOCAL_LOTUS_IP" with
  | Some (String c r) =>
      if localLotus w then ("http://" ++ String c r ++ ":1234/rpc/v1", true)
      else (calibrationRpc w, false)
  | _ => (calibrationRpc w, false)
  end.

Record Config : Type := {
  privateKey : option string;
  rpcUrl : string;
  providerId : JSNum;
  sourcePath : string;
  concurrency : JSNum;
  logInterval : JSNum;
  progressFile : string;
  batchSize : JSNum
}.

Definition CONFIG (w : World) : Config :=
  let rpcConfig := detectRpcEndpoint w in
  let defaultConcurrency := if snd rpcConfig then "20" else "10" in
  {| privateKey := env w "PRIVATE_KEY";
     rpcUrl := orDefault (env w "RPC_URL") (fst rpcConfig);
     providerId := parseInt (orDefault (env w "PROVIDER_ID") "0");
     sourcePath := orDefault (env w "SOURCE_PATH") "/filecoin-storage/piece";
     concurrency := parseInt (orDefault (env w "CONCURRENCY") defaultConcurrency);
     logInterval := parseInt (orDefault (env w "LOG_INTERVAL") "50");
     progressFile := "migration-progress.json";
     batchSize := parseInt (orDefault (env w "BATCH_SIZE") "100") |}.

Definition errorLogPath : string := "migration-errors.json".

(** ** Progress and statistics *)

Record MigrationProgress : Type := {
  lastUpdated : string;
  totalFiles : Z;
  migratedCount : Z;
  migratedFiles : list string
}.

(** The record of a run that starts afresh, stamped [t]. *)
Definition zeroProgress (t : string) : MigrationProgress :=
  {| lastUpdated := t; totalFiles := 0; migratedCount := 0; migratedFiles := [] |}.

Record ErrorRecord : Type := {
  file : string;
  error : string;
  timestamp : string
}.

Record Stats : Type := {
  total : Z;
  completed : Z;
  failed : Z;
  skipped : Z;
  errors : list ErrorRecord
}.

Definition stats0 : Stats :=
  {| total := 0; completed := 0; failed := 0; skipped := 0; errors := [] |}.

(** ** The trace *)

Inductive Verdict : Type :=
| AllMigrated          (* All files successfully migrated! *)
| CompletedWithErrors  (* Migration completed with errors. Re-run to retry ... *)
| BatchFinished.       (* Migration batch finished! *)

(** Console lines that carry data of the run; the banner, the echo of the
    configuration and the duration and throughput lines are left out. *)
Inductive Line : Type :=
| LFoundProgress (n : Z)
| LFresh
| LScan (total already remaining : Z)
| LAllAlreadyMigrated
| LBatch (index : nat) (size : Z)
| LUploaded (file pieceCid : string)
| LAlreadyMigrated (file reason : string)
| LSkippedTooLarge (file : string)
| LFailed (file msg : string)
| LProgress (completed total : Z)
| LBatchSaved (index : nat)
| LReport (total skipped completed failed migrated : Z)
| LErrorLogSaved (path : string)
| LVerdict (v : Verdict)
| LFatal (msg : string).

Inductive Event : Type :=
| Log (l : Line)
| Readdir (path : string)
| Upload (file : string)
| SaveProgress (p : MigrationProgress)
| WriteFile (path data : string).

(** ** The progress store *)

Inductive Exn : Type :=
| ConfigError (msg : string)   (* thrown by main's validation *)
| JsonSyntaxError              (* thrown by JSON.parse *)
| JsTypeError                  (* thrown on null or on a value that is not iterable *)
| SdkError                     (* Synapse.create or createContext rejected *)
| LimitError                   (* pLimit threw *)
| SourceError.                 (* readdir rejected *)

(** [error.message]; a fixed text stands for the messages of the errors
    that the platform and the libraries throw. *)
Definition exnMessage (e : Exn) : string :=
  match e with
  | ConfigError msg => msg
  | JsonSyntaxError => "SyntaxError"
  | JsTypeError => "TypeError"
  | SdkError => "SDK error"
  | LimitError => "TypeError"
  | SourceError => "readdir error"
  end.

Inductive LoadResult : Type :=
| Loaded (p : MigrationProgress)
| LoadThrows (e : Exn)
| LoadUntyped (v : JSON).      (* parses, but is no MigrationProgress *)

(** The value of a property: the last member with that key. *)
Definition getField (k : string) (ms : list (string * JSON)) : option JSON :=
  fold_left (fun acc m => if String.eqb (fst m) k then Some (snd m) else acc) ms None.

Fixpoint asStrings (items : list JSON) : option (list string) :=
  match items with
  | [] => Some []
  | JStr x :: rest =>
      match asStrings rest with
      | Some xs => Some (x :: xs)
      | None => None
      end
  | _ :: _ => None
  end.

(** [{ ...progress, migratedFiles: new Set(progress.migratedFiles) }] for a
    parsed value of the declared interface.  Reading a property of [null]
    throws, and so does [new Set] of a number, a boolean or an object;
    [new Set] of [undefined] or [null] is the empty set.  Any other value
    that is not a MigrationProgress is left as [LoadUntyped]. *)
Definition decodeProgress (v : JSON) : LoadResult :=
  match v with
  | JNull => LoadThrows JsTypeError
  | JObj ms =>
      match getField "migratedFiles" ms with
      | Some (JInt _) | Some (JFrac _) | Some (JBool _) | Some (JObj _) =>
          LoadThrows JsTypeError
      | mf =>
          let names :=
            match mf with
            | Some (JArr items) => asStrings items
            | None | Some JNull => Some []
            | _ => None
            end in
          match getField "lastUpdated" ms, getField "totalFiles" ms,
                getField "migratedCount" ms, names with
          | Some (JStr lu), Some (JInt tf), Some (JInt mc), Some ns =>
              Loaded {| lastUpdated := lu; totalFiles := tf;
                        migratedCount := mc; migratedFiles := Set_of ns |}
          | _, _, _, _ => LoadUntyped v
          end
      end
  | _ => LoadUntyped v
  end.

(** [loadProgress]; reading a file that exists is taken to succeed. *)
Definition loadProgress (cfg : Config) (d : Disk) (nowIso : string) : LoadResult :=
  match d (progressFile cfg) with
  | Some data =>
      match JSON_parse data with
      | Some v => decodeProgress v
      | None => LoadThrows JsonSyntaxError
      end
  | None =>
      Loaded (zeroProgress nowIso)
  end.

(** [{ ...progress, migratedFiles: Array.from(progress.migratedFiles) }],
    with the properties in the order of the interface; further properties
    that a loaded object may carry are not kept. *)
Definition encodeProgress (p : MigrationProgress) : JSON :=
  JObj [("lastUpdated", JStr (lastUpdated p));
        ("totalFiles", JInt (totalFiles p));
        ("migratedCount", JInt (migratedCount p));
        ("migratedFiles", JArr (map JStr (migratedFiles p)))].

Definition serialize (p : MigrationProgress) : string :=
  JSON_stringify (encodeProgress p).

Definition encodeErrors (es : list ErrorRecord) : JSON :=
  JArr (map (fun e => JObj [("file", JStr (file e)); ("error", JStr (error e));
                            ("timestamp", JStr (timestamp e))]) es).

(** ** The run *)

Record RunState : Type := {
  progress : MigrationProgress;
  stats : Stats;
  trace : list Event;
  files : Disk
}.

Definition emit (e : Event) (st : RunState) : RunState :=
  {| progress := progress st; stats := stats st;
     trace := trace st ++ [e]; files := files st |}.

Definition saveProgress (cfg : Config) (st : RunState) : RunState :=
  let data := serialize (progress st) in
  {| progress := progress st; stats := stats st;
     trace := trace st ++ [SaveProgress (progress st);
                           WriteFile (progressFile cfg) data];
     files := writeFile (progressFile cfg) data (files st) |}.

(** The object a task returns. *)
Record TaskResult : Type := {
  success : bool;
  resFile : string;
  duplicate : bool;
  resError : option string;
  tooLarge : bool
}.

Definition isDuplicateMsg (m : string) : bool :=
  includes "duplicate subPieceCid" m || includes "Must add at least one piece" m.

Definition isTooLargeMsg (m : string) : bool :=
  includes "exceeds maximum allowed size" m.

(** [progress.migratedFiles.add(file); progress.migratedCount++] *)
Definition markMigrated (f : string) (p : MigrationProgress) : MigrationProgress :=
  {| lastUpdated := lastUpdated p; totalFiles := totalFiles p;
     migratedCount := migratedCount p + 1;
     migratedFiles := Set_add (migratedFiles p) f |}.

(** [progress.migratedFiles.add(file)] alone *)
Definition markHandled (f : string) (p : MigrationProgress) : MigrationProgress :=
  {| lastUpdated := lastUpdated p; totalFiles := totalFiles p;
     migratedCount := migratedCount p;
     migratedFiles := Set_add (migratedFiles p) f |}.

Definition countCompleted (s : Stats) : Stats :=
  {| total := total s; completed := completed s + 1; failed := failed s;
     skipped := skipped s; errors := errors s |}.

Definition countFailed (r : ErrorRecord) (s : Stats) : Stats :=
  {| total := total s; completed := completed s; failed := failed s + 1;
     skipped := skipped s; errors := errors s ++ [r] |}.

(** The catch block of a task, on the message of what was thrown. *)
Definition onError (w : World) (f msg : string) (st : RunState)
  : RunState * TaskResult :=
  if isDuplicateMsg msg then
    let reason := if includes "duplicate subPieceCid" msg
                  then "duplicate subPieceCid"
                  else "empty batch (all duplicates)" in
    ({| progress := markMigrated f (progress st);
        stats := countCompleted (stats st);
        trace := trace st ++ [Log (LAlreadyMigrated f reason)];
        files := files st |},
     {| success := true; resFile := f; duplicate := true;
        resError := None; tooLarge := false |})
  else if isTooLargeMsg msg then
    ({| progress := markHandled f (progress st);
        stats := countFailed {| file := f; error := "FILE_TOO_LARGE: " ++ msg;
                                timestamp := errorTime w f |} (stats st);
        trace := trace st ++ [Log (LSkippedTooLarge f)];
        files := files st |},
     {| success := false; resFile := f; duplicate := false;
        resError := Some msg; tooLarge := true |})
  else
    ({| progress := progress st;
        stats := countFailed {| file := f; error := msg;
                                timestamp := errorTime w f |} (stats st);
        trace := trace st ++ [Log (LFailed f msg)];
        files := files st |},
     {| success := false; resFile := f; duplicate := false;
        resError := Some msg; tooLarge := false |}).

(** One task of a batch, from its start to the object it returns. *)
Definition processFile (cfg : Config) (w : World) (f : string) (st : RunState)
  : RunState * TaskResult :=
  match attempt w f with
  | ReadFails msg => onError w f msg st
  | UploadFails msg => onError w f msg (emit (Upload f) st)
  | UploadOk cid =>
      let s1 := countCompleted (stats st) in
      let tr := (trace st ++ [Upload f; Log (LUploaded f cid)])%list in
      ({| progress := markMigrated f (progress st);
          stats := s1;
          trace := if remIsZero (completed s1) (logInterval cfg)
                   then (tr ++ [Log (LProgress (completed s1) (total s1))])%list
                   else tr;
          files := files st |},
       {| success := true; resFile := f; duplicate := false;
          resError := None; tooLarge := false |})
  end.

(** The tasks of a batch, folded in the order of the batch.  Within a batch
    the tasks settle in any order; the counters do not depend on it, and
    the names end up the same in another order (processBatch_any_order).
    The order of this fold is one of them, not a fact of the program. *)
Definition processBatch (cfg : Config) (w : World) (batch : list string)
  (st : RunState) : RunState :=
  fold_left (fun s f => fst (processFile cfg w f s)) batch st.

(** [Array.prototype.slice(start, end)] *)
Definition toInteger (x : JSNum) : Z :=
  match x with
  | NaN => 0
  | Num z => z
  end.

Definition relIndex (len k : Z) : Z :=
  if k <? 0 then Z.max (len + k) 0 else Z.min k len.

Definition slice {A : Type} (l : list A) (s e : JSNum) : list A :=
  let len := Z.of_nat (length l) in
  let from := relIndex len (toInteger s) in
  let upto := relIndex len (toInteger e) in
  firstn (Z.to_nat (upto - from)) (skipn (Z.to_nat from) l).

(** [for (let i = 0; i < remainingFiles.length; i += CONFIG.batchSize)
       batches.push(remainingFiles.slice(i, i + CONFIG.batchSize))];
    [None] when the fuel runs out. *)
Fixpoint mkBatches (fuel : nat) (bs : JSNum) (remaining : list string) (i : JSNum)
  : option (list (list string)) :=
  match fuel with
  | O => None
  | S k =>
      if numLt i (Num (Z.of_nat (length remaining))) then
        match mkBatches k bs remaining (numAdd i bs) with
        | Some rest => Some (slice remaining i (numAdd i bs) :: rest)
        | None => None
        end
      else Some []
  end.

(** [progress.lastUpdated = new Date().toISOString(); await saveProgress(progress)]
    and the line that follows, after the batch of that index. *)
Definition stamp (t : string) (st : RunState) : RunState :=
  {| progress := {| lastUpdated := t;
                    totalFiles := totalFiles (progress st);
                    migratedCount := migratedCount (progress st);
                    migratedFiles := migratedFiles (progress st) |};
     stats := stats st; trace := trace st; files := files st |}.

Definition checkpoint (cfg : Config) (w : World) (index : nat) (st : RunState)
  : RunState :=
  emit (Log (LBatchSaved index)) (saveProgress cfg (stamp (batchTime w index) st)).

Definition startBatch (index : nat) (batch : list string) (st : RunState)
  : RunState :=
  emit (Log (LBatch index (Z.of_nat (length batch)))) st.

(** The loop over the batches: run the tasks, stamp, save. *)
Fixpoint runBatches (cfg : Config) (w : World) (index : nat)
  (batches : list (list string)) (st : RunState) : RunState :=
  match batches with
  | [] => st
  | batch :: rest =>
      runBatches cfg w (S index) rest
        (checkpoint cfg w index (processBatch cfg w batch (startBatch index batch st)))
  end.

Inductive Status : Type :=
| Exited (code : Z)
| OutsideInterface.   (* the progress file holds no MigrationProgress *)

Record Final : Type := {
  status : Status;
  thrown : option Exn;
  finalTrace : list Event;
  finalDisk : Disk;
  finalStats : Stats;
  finalProgress : option MigrationProgress
}.

(** [main().catch(...)]: the message is printed and the process exits 1. *)
Definition fatal (e : Exn) (tr : list Event) (d : Disk) (s : Stats)
  (p : option MigrationProgress) : Final :=
  {| status := Exited 1; thrown := Some e;
     finalTrace := tr ++ [Log (LFatal (exnMessage e))];
     finalDisk := d; finalStats := s; finalProgress := p |}.

Definition withTotal (n : Z) (s : Stats) : Stats :=
  {| total := n; completed := completed s; failed := failed s;
     skipped := skipped s; errors := errors s |}.

(** The final report, the error log, the final save and the verdict. *)
Definition report (cfg : Config) (st : RunState) : RunState :=
  let s := stats st in
  let st1 := emit (Log (LReport (total s) (skipped s) (completed s) (failed s)
                          (migratedCount (progress st)))) st in
  let st2 :=
    if failed s >? 0 then
      let data := JSON_stringify (encodeErrors (errors s)) in
      {| progress := progress st1; stats := stats st1;
         trace := trace st1 ++ [WriteFile errorLogPath data;
                                Log (LErrorLogSaved errorLogPath)];
         files := writeFile errorLogPath data (files st1) |}
    else st1 in
  let st3 := saveProgress cfg st2 in
  let v := if (migratedCount (progress st) =? total s) && (failed s =? 0)
           then AllMigrated
           else if failed s >? 0 then CompletedWithErrors
           else BatchFinished in
  emit (Log (LVerdict v)) st3.

Definition finish (st : RunState) : Final :=
  {| status := Exited 0; thrown := None; finalTrace := trace st;
     finalDisk := files st; finalStats := stats st;
     finalProgress := Some (progress st) |}.

(** [files.filter((f) => f.startsWith('s-t00-'))] and
    [pieceFiles.filter((f) => !progress.migratedFiles.has(f))] *)
Definition pieceFilesOf (entries : list string) : list string :=
  filter (startsWith "s-t00-") entries.

Definition remainingOf (p : MigrationProgress) (pieceFiles : list string)
  : list string :=
  filter (fun f => negb (Set_has (migratedFiles p) f)) pieceFiles.

(** The statistics and the console line after [loadProgress]. *)
Definition resumeStats (p0 : MigrationProgress) : Stats :=
  if migratedCount p0 >? 0
  then {| total := 0; completed := 0; failed := 0;
          skipped := migratedCount p0; errors := [] |}
  else stats0.

Definition resumeLine (p0 : MigrationProgress) : Line :=
  if migratedCount p0 >? 0 then LFoundProgress (migratedCount p0) else LFresh.

Definition withTotalFiles (n : Z) (p : MigrationProgress) : MigrationProgress :=
  {| lastUpdated := lastUpdated p; totalFiles := n;
     migratedCount := migratedCount p; migratedFiles := migratedFiles p |}.

(** The state of the run when the batches start. *)
Definition startState (w : World) (p0 : MigrationProgress)
  (entries : list string) : RunState :=
  let pieceFiles := pieceFilesOf entries in
  let s2 := withTotal (Z.of_nat (length pieceFiles)) (resumeStats p0) in
  {| progress := withTotalFiles (total s2) p0;
     stats := s2;
     trace := [Log (resumeLine p0); Readdir (sourcePath (CONFIG w));
               Log (LScan (total s2) (migratedCount p0)
                      (Z.of_nat (length (remainingOf p0 pieceFiles))))];
     files := disk w |}.

(** The part of [main] that follows the listing of the source directory. *)
Definition migrate (fuel : nat) (w : World) (p0 : MigrationProgress)
  (entries : list string) : option Final :=
  let cfg := CONFIG w in
  let st0 := startState w p0 entries in
  let remainingFiles := remainingOf p0 (pieceFilesOf entries) in
  if (length remainingFiles =? 0)%nat then
    Some (finish {| progress := p0; stats := stats st0;
                    trace := (trace st0 ++ [Log LAllAlreadyMigrated])%list;
                    files := disk w |})
  else if negb (pLimitOk w) then
    Some (fatal LimitError (trace st0) (disk w) (stats st0) (Some (progress st0)))
  else
    match mkBatches fuel (batchSize cfg) remainingFiles (Num 0) with
    | None => None
    | Some batches => Some (finish (report cfg (runBatches cfg w 0 batches st0)))
    end.

(** [main], with the process exit that follows it; [None] when the loop
    that cuts the batches does not end within [fuel] rounds. *)
Definition main (fuel : nat) (w : World) : option Final :=
  let cfg := CONFIG w in
  if falsyStr (privateKey cfg) then
    Some (fatal (ConfigError "PRIVATE_KEY environment variable is required")
                [] (disk w) stats0 None)
  else if falsyNum (providerId cfg) then
    Some (fatal (ConfigError "PROVIDER_ID environment variable is required")
                [] (disk w) stats0 None)
  else
    match loadProgress cfg (disk w) (loadTime w) with
    | LoadThrows e => Some (fatal e [] (disk w) stats0 None)
    | LoadUntyped _ =>
        Some {| status := OutsideInterface; thrown := None; finalTrace := [];
                finalDisk := disk w; finalStats := stats0; finalProgress := None |}
    | Loaded p0 =>
        let s1 := resumeStats p0 in
        let tr1 := [Log (resumeLine p0)] in
        if negb (synapseCreate w) then Some (fatal SdkError tr1 (disk w) s1 (Some p0))
        else if negb (createContext w) then Some (fatal SdkError tr1 (disk w) s1 (Some p0))
        else
          match readdir w with
          | None =>
              Some (fatal SourceError (tr1 ++ [Readdir (sourcePath cfg)])%list
                          (disk w) s1 (Some p0))
          | Some entries => migrate fuel w p0 entries
          end
    end.

(** *** Sample worlds *)

Definition envOf (kvs : list (string * string)) : string -> option string :=
  fun k => fold_left (fun acc kv => if String.eqb (fst kv) k then Some (snd kv) else acc)
             kvs None.

Definition noFiles : Disk := fun _ => None.

Definition sampleWorld (kvs : list (string * string)) (d : Disk)
  (entries : list string) (a : string -> TaskOutcome) : World :=
  {| env := envOf kvs; calibrationRpc := "https://calibration.example/rpc/v1";
     localLotus := false; disk := d; synapseCreate := true; createContext := true;
     pLimitOk := true; readdir := Some entries; attempt := a;
     loadTime := "T0"; errorTime := fun f => "E:" ++ f;
     batchTime := fun i => "B" ++ natToString (N.of_nat i) |}.

Definition okEnv : list (string * string) :=
  [("PRIVATE_KEY", "0xabc"); ("PROVIDER_ID", "7"); ("BATCH_SIZE", "2")].

Definition tooLargeMsg : string :=
  "Piece size 314572800 exceeds maximum allowed size of 209715200".

Definition mixedAttempts (f : string) : TaskOutcome :=
  if String.eqb f "s-t00-2" then UploadFails tooLargeMsg
  else if String.eqb f "s-t00-3" then UploadFails "socket hang up"
  else if String.eqb f "s-t00-4" then UploadFails "duplicate subPieceCid in request"
  else UploadOk "baga6ea4seaq".

(** A fresh start on five directory entries, four of them pieces: one
    upload succeeds, one is too large, one times out, one is a duplicate. *)
Definition wMixed : World :=
  sampleWorld okEnv noFiles
    ["s-t00-1"; "notes.txt"; "s-t00-2"; "s-t00-3"; "s-t00-4"] mixedAttempts.

(** A fresh start on one piece, which is too large. *)
Definition wOversized : World :=
  sampleWorld okEnv noFiles ["s-t00-9"] (fun _ => UploadFails tooLargeMsg).

(** Every upload fails. *)
Definition wAllFail : World :=
  sampleWorld okEnv noFiles ["s-t00-1"; "s-t00-2"; "s-t00-3"]
    (fun _ => UploadFails "socket hang up").

(** Synapse.create rejects. *)
Definition wSdkDown : World :=
  {| env := envOf okEnv; calibrationRpc := "https://calibration.example/rpc/v1";
     localLotus := false; disk := noFiles; synapseCreate := false;
     createContext := true; pLimitOk := true; readdir := Some ["s-t00-1"];
     attempt := fun _ => UploadOk "baga6ea4seaq";
     loadTime := "T0"; errorTime := fun f => "E:" ++ f;
     batchTime := fun i => "B" ++ natToString (N.of_nat i) |}.

Definition wProviderAbc : World :=
  sampleWorld [("PRIVATE_KEY", "0xabc"); ("PROVIDER_ID", "abc")] noFiles
    ["s-t00-1"] (fun _ => UploadOk "baga6ea4seaq").

Definition wProviderZero : World :=
  sampleWorld [("PRIVATE_KEY", "0xabc"); ("PROVIDER_ID", "0")] noFiles
    ["s-t00-1"] (fun _ => UploadOk "baga6ea4seaq").

(** The progress file is cut short. *)
Definition wCorrupt : World :=
  sampleWorld okEnv (writeFile "migration-progress.json" "{ " noFiles)
    ["s-t00-1"] (fun _ => UploadOk "baga6ea4seaq").

Definition pDone : MigrationProgress :=
  {| lastUpdated := "2025-01-01T00:00:00.000Z"; totalFiles := 1;
     migratedCount := 1; migratedFiles := ["s-t00-1"] |}.

(** The only piece is in the progress file of an earlier run. *)
Definition wDone : World :=
  sampleWorld okEnv (writeFile "migration-progress.json" (serialize pDone) noFiles)
    ["s-t00-1"] (fun _ => UploadOk "baga6ea4seaq").

Definition wroteErrorLog (tr : list Event) : bool :=
  existsb (fun e => match e with
                    | WriteFile path _ => String.eqb path errorLogPath
                    | _ => false
                    end) tr.

Definition isTransientLine (e : Event) : bool :=
  match e with
  | Log (LFailed _ _) => true
  | _ => false
  end.


(** ** Interruption

    [saveProgress] is one [writeFile] on the progress file itself.  Modelled
    from the Node.js contract of [fs.promises.writeFile]: the file is opened
    for writing, which empties it, and the data is then written from the
    start.  A process that stops in between leaves the old content (the file
    was not opened yet) or the bytes written so far. *)

Inductive WritePoint : Type :=
| NotOpened
| Written (n : nat).

Fixpoint takeStr (n : nat) (s : string) : string :=
  match n, s with
  | S k, String c r => String c (takeStr k r)
  | _, _ => EmptyString
  end.

Definition interruptedWrite (pt : WritePoint) (path data : string) (d : Disk)
  : Disk :=
  match pt with
  | NotOpened => d
  | Written n => writeFile path (takeStr n data) d
  end.

(** The disk when the process stops at [pt] during [saveProgress(p)]. *)
Definition saveProgressInterrupted (cfg : Config) (pt : WritePoint)
  (p : MigrationProgress) (d : Disk) : Disk :=
  interruptedWrite pt (progressFile cfg) (serialize p) d.

(** The process while the batches run, as the event loop sees it: the tasks
    of the current batch that have not settled, the batches not started, the
    flag of the signal handler and the write the handler awaits. *)
Record Proc : Type := {
  run : RunState;
  inflight : list string;
  queued : list (list string);
  batchIndex : nat;
  mainReturned : bool;
  isShuttingDown : bool;
  handlerWrite : option string;
  exitCode : option Z
}.

(** What the event loop runs next: a signal is delivered ([pt]: how far a
    pending write of the handler has got by then), the write of the handler
    completes, a task settles, or [Promise.allSettled] of the current batch
    resolves.  A task is run as a whole when it settles: its events are
    recorded then, and a task in flight has left none.  The write of a
    checkpoint of the loop is taken as one step. *)
Inductive Tick : Type :=
| Signal (pt : WritePoint)
| HandlerWritten
| TaskSettles (f : string)
| BatchSettles.


Definition withFiles (d : Disk) (st : RunState) : RunState :=
  {| progress := progress st; stats := stats st; trace := trace st; files := d |}.

(** [handleShutdown], up to its [await]. *)
Definition handleShutdown (cfg : Config) (pt : WritePoint) (p : Proc) : Proc :=
  if isShuttingDown p then
    (* process.exit(1) *)
    let d := match handlerWrite p with
             | Some data => interruptedWrite pt (progressFile cfg) data (files (run p))
             | None => files (run p)
             end in
    {| run := withFiles d (run p); inflight := inflight p; queued := queued p;
       batchIndex := batchIndex p; mainReturned := mainReturned p;
       isShuttingDown := true; handlerWrite := None; exitCode := Some 1 |}
  else
    let data := serialize (progress (run p)) in
    {| run := {| progress := progress (run p); stats := stats (run p);
                 trace := trace (run p) ++ [SaveProgress (progress (run p));
                                            WriteFile (progressFile cfg) data];
                 files := files (run p) |};
       inflight := inflight p; queued := queued p;
       batchIndex := batchIndex p; mainReturned := mainReturned p;
       isShuttingDown := true; handlerWrite := Some data; exitCode := None |}.

(** [handleShutdown], after its [await]: process.exit(0). *)
Definition handleShutdownResume (cfg : Config) (p : Proc) : Proc :=
  match handlerWrite p with
  | Some data =>
      {| run := withFiles (writeFile (progressFile cfg) data (files (run p))) (run p);
         inflight := inflight p; queued := queued p;
         batchIndex := batchIndex p; mainReturned := mainReturned p;
         isShuttingDown := isShuttingDown p; handlerWrite := None;
         exitCode := Some 0 |}
  | None => p
  end.

Definition removeName (f : string) (l : list string) : list string :=
  filter (fun g => negb (String.eqb g f)) l.

(** The body of the batch loop after its [await Promise.allSettled(tasks)],
    up to the start of the next batch or to the return of main.  When main
    has returned the process ends with code 0 once nothing is pending. *)
Definition afterBatch (cfg : Config) (w : World) (p : Proc) : Proc :=
  let st := checkpoint cfg w (batchIndex p) (run p) in
  match queued p with
  | batch :: rest =>
      {| run := startBatch (S (batchIndex p)) batch st; inflight := batch;
         queued := rest; batchIndex := S (batchIndex p);
         mainReturned := false; isShuttingDown := isShuttingDown p;
         handlerWrite := handlerWrite p; exitCode := None |}
  | [] =>
      {| run := report cfg st; inflight := []; queued := [];
         batchIndex := batchIndex p; mainReturned := true;
         isShuttingDown := isShuttingDown p; handlerWrite := handlerWrite p;
         exitCode := match handlerWrite p with
                     | None => Some 0
                     | Some _ => None
                     end |}
  end.

Definition dispatch (cfg : Config) (w : World) (t : Tick) (p : Proc) : Proc :=
  match exitCode p with
  | Some _ => p
  | None =>
      match t with
      | Signal pt => handleShutdown cfg pt p
      | HandlerWritten => handleShutdownResume cfg p
      | TaskSettles f =>
          if existsb (String.eqb f) (inflight p) then
            {| run := fst (processFile cfg w f (run p));
               inflight := removeName f (inflight p); queued := queued p;
               batchIndex := batchIndex p; mainReturned := mainReturned p;
               isShuttingDown := isShuttingDown p;
               handlerWrite := handlerWrite p; exitCode := None |}
          else p
      | BatchSettles =>
          if mainReturned p then p
          else match inflight p with
               | [] => afterBatch cfg w p
               | _ :: _ => p
               end
      end
  end.

Definition exec (cfg : Config) (w : World) (ticks : list Tick) (p : Proc) : Proc :=
  fold_left (fun q t => dispatch cfg w t q) ticks p.




(** The schedule without signals in which the tasks of each batch settle
    in the order of the batch. *)
Definition inOrder (batches : list (list string)) : list Tick :=
  concat (map (fun b => (map TaskSettles b ++ [BatchSettles])%list) batches).

(** The process in the batch of index [i], just started from [st]. *)
Definition inBatch (i : nat) (batch : list string) (rest : list (list string))
  (st : RunState) : Proc :=
  {| run := startBatch i batch st; inflight := batch; queued := rest;
     batchIndex := i; mainReturned := false; isShuttingDown := false;
     handlerWrite := None; exitCode := None |}.

(** *** Sample states *)

Definition pNew : MigrationProgress :=
  {| lastUpdated := "2025-01-02T00:00:00.000Z"; totalFiles := 2;
     migratedCount := 2; migratedFiles := ["s-t00-1"; "s-t00-2"] |}.

Definition diskDone : Disk :=
  writeFile "migration-progress.json" (serialize pDone) noFiles.

(** Three pieces, batches of two, every upload succeeds. *)
Definition wThree : World :=
  sampleWorld okEnv noFiles ["s-t00-1"; "s-t00-2"; "s-t00-3"]
    (fun _ => UploadOk "baga6ea4seaq").




(** A run state about to save [pNew] over the file of [diskDone]. *)
Definition stSaving : RunState :=
  {| progress := pNew; stats := stats0; trace := []; files := diskDone |}.

(** ** The classification of the specification

    The four buckets, with the rules in the order the specification gives
    them; the signals of rules 2 and 3 are the message tests of the code. *)

Inductive Classification : Type :=
| Success
| Duplicate
| PermanentSkip
| TransientFailure.

Definition thrownMessage (o : TaskOutcome) : option string :=
  match o with
  | ReadFails m => Some m
  | UploadFails m => Some m
  | UploadOk _ => None
  end.

Definition classify (err : option string) : Classification :=
  match err with
  | None => Success
  | Some m =>
      if isDuplicateMsg m then Duplicate
      else if isTooLargeMsg m then PermanentSkip
      else TransientFailure
  end.

(** The bucket that the object returned by a task shows. *)
Definition bucketOf (r : TaskResult) : Classification :=
  if success r then (if duplicate r then Duplicate else Success)
  else (if tooLarge r then PermanentSkip else TransientFailure).

Definition outcomeClass (w : World) (f : string) : Classification :=
  classify (thrownMessage (attempt w f)).

(** The remaining set in the words of the specification: the candidates
    less the names, a set difference that keeps the order of the
    candidates. *)
Fixpoint listMinus (candidates names : list string) : list string :=
  match candidates with
  | [] => []
  | c :: rest =>
      if in_dec string_dec c names then listMinus rest names
      else c :: listMinus rest names
  end.

(** ** Reading a trace *)


Fixpoint uploadsOf (tr : list Event) : list string :=
  match tr with
  | [] => []
  | Upload f :: rest => f :: uploadsOf rest
  | _ :: rest => uploadsOf rest
  end.

Fixpoint savesOf (tr : list Event) : list MigrationProgress :=
  match tr with
  | [] => []
  | SaveProgress p :: rest => p :: savesOf rest
  | _ :: rest => savesOf rest
  end.

Fixpoint writesOf (tr : list Event) : list (string * string) :=
  match tr with
  | [] => []
  | WriteFile path data :: rest => (path, data) :: writesOf rest
  | _ :: rest => writesOf rest
  end.

Definition isFailureLine (e : Event) : bool :=
  match e with
  | Log (LFailed _ _) => true
  | Log (LSkippedTooLarge _) => true
  | _ => false
  end.

Definition isReportLine (e : Event) : bool :=
  match e with
  | Log (LReport _ _ _ _ _) => true
  | _ => false
  end.


Definition isReadFails (o : TaskOutcome) : bool :=
  match o with
  | ReadFails _ => true
  | _ => false
  end.


(** ** Conditions on a world *)

Definition withAttempt (a : string -> TaskOutcome) (w : World) : World :=
  {| env := env w; calibrationRpc := calibrationRpc w; localLotus := localLotus w;
     disk := disk w; synapseCreate := synapseCreate w;
     createContext := createContext w; pLimitOk := pLimitOk w;
     readdir := readdir w; attempt := a; loadTime := loadTime w;
     errorTime := errorTime w; batchTime := batchTime w |}.

Definition setEnv (k : string) (v : option string) (w : World) : World :=
  {| env := fun q => if String.eqb q k then v else env w q;
     calibrationRpc := calibrationRpc w; localLotus := localLotus w;
     disk := disk w; synapseCreate := synapseCreate w;
     createContext := createContext w; pLimitOk := pLimitOk w;
     readdir := readdir w; attempt := attempt w; loadTime := loadTime w;
     errorTime := errorTime w; batchTime := batchTime w |}.

(** The run gets as far as the listing of the source directory: the
    configuration is there, the progress loads as [p0], the SDK is set up
    and [readdir] gives [entries]. *)
Definition ReachesEnumeration (w : World) (p0 : MigrationProgress)
  (entries : list string) : Prop :=
  falsyStr (privateKey (CONFIG w)) = false
  /\ falsyNum (providerId (CONFIG w)) = false
  /\ loadProgress (CONFIG w) (disk w) (loadTime w) = Loaded p0
  /\ synapseCreate w = true
  /\ createContext w = true
  /\ readdir w = Some entries.

(** No step of main throws. *)
Definition SetupOk (w : World) : Prop :=
  exists p0 entries,
    ReachesEnumeration w p0 entries
    /\ (remainingOf p0 (pieceFilesOf entries) = [] \/ pLimitOk w = true).

(** The loop that cuts the batches ends: the batch size is positive, or it
    is NaN (one empty batch). *)
Definition LoopEnds (w : World) : Prop :=
  match batchSize (CONFIG w) with
  | NaN => True
  | Num b => 0 < b
  end.

(** What in the world makes main throw [e]. *)
Definition Cause (w : World) (e : Exn) : Prop :=
  match e with
  | ConfigError _ =>
      falsyStr (privateKey (CONFIG w)) = true
      \/ falsyNum (providerId (CONFIG w)) = true
  | JsonSyntaxError =>
      exists data, disk w (progressFile (CONFIG w)) = Some data
                   /\ JSON_parse data = None
  | JsTypeError =>
      exists data v, disk w (progressFile (CONFIG w)) = Some data
                     /\ JSON_parse data = Some v
                     /\ decodeProgress v = LoadThrows JsTypeError
  | SdkError => synapseCreate w = false \/ createContext w = false
  | LimitError => pLimitOk w = false
  | SourceError => readdir w = None
  end.


(** ** Invariants of a run *)

Local Open Scope list_scope.

(** The events of one task: an upload unless the piece could not be read,
    no save and no write, and at most one failure line, which tells the
    bucket of the file. *)
Record TaskDelta (w : World) (f : string) (st st' : RunState)
  (delta : list Event) : Prop := {
  td_trace : trace st' = trace st ++ delta;
  td_files : files st' = files st;
  td_total : total (stats st') = total (stats st);
  td_skipped : skipped (stats st') = skipped (stats st);
  td_uploads : uploadsOf delta = if isReadFails (attempt w f) then [] else [f];
  td_saves : savesOf delta = [];
  td_writes : writesOf delta = [];
  td_failed : failed (stats st')
              = failed (stats st) + Z.of_nat (length (filter isFailureLine delta));
  td_errors : length (errors (stats st'))
              = (length (errors (stats st))
                 + length (filter isFailureLine delta))%nat;
  td_lines : forall e, In e delta -> isFailureLine e = true ->
             (exists m, e = Log (LFailed f m) /\ outcomeClass w f = TransientFailure)
             \/ (e = Log (LSkippedTooLarge f) /\ outcomeClass w f = PermanentSkip);
  td_seen : match outcomeClass w f with
            | TransientFailure | PermanentSkip =>
                existsb isFailureLine delta = true
            | _ => existsb isFailureLine delta = false
            end
}.

(** A run that ends before the first batch has done nothing. *)
Definition QuietFinal (w : World) (fin : Final) : Prop :=
  failed (finalStats fin) = 0
  /\ completed (finalStats fin) = 0
  /\ uploadsOf (finalTrace fin) = []
  /\ savesOf (finalTrace fin) = []
  /\ writesOf (finalTrace fin) = []
  /\ existsb isFailureLine (finalTrace fin) = false
  /\ existsb isReportLine (finalTrace fin) = false
  /\ finalDisk fin = disk w.

Definition FailInv (w : World) (st : RunState) : Prop :=
  failed (stats st) = Z.of_nat (length (filter isFailureLine (trace st)))
  /\ (forall path data, In (WriteFile path data) (trace st) -> path <> errorLogPath)
  /\ (forall e, In e (trace st) -> isFailureLine e = true ->
      exists f,
        (exists m, e = Log (LFailed f m) /\ outcomeClass w f = TransientFailure)
        \/ (e = Log (LSkippedTooLarge f) /\ outcomeClass w f = PermanentSkip)).

Definition reportTail (cfg : Config) (st : RunState) : list Event :=
  [Log (LReport (total (stats st)) (skipped (stats st)) (completed (stats st))
          (failed (stats st)) (migratedCount (progress st)))]
  ++ (if failed (stats st) >? 0
      then [WriteFile errorLogPath (JSON_stringify (encodeErrors (errors (stats st))));
            Log (LErrorLogSaved errorLogPath)]
      else [])
  ++ [SaveProgress (progress st);
      WriteFile (progressFile cfg) (serialize (progress st));
      Log (LVerdict (if (migratedCount (progress st) =? total (stats st))
                        && (failed (stats st) =? 0)
                     then AllMigrated
                     else if failed (stats st) >? 0 then CompletedWithErrors
                     else BatchFinished))].

Definition attempted (w : World) (l : list string) : list string :=
  filter (fun f => negb (isReadFails (attempt w f))) l.

Definition isHandled (w : World) (f : string) : bool :=
  match outcomeClass w f with
  | TransientFailure => false
  | _ => true
  end.

Definition isMigrated (w : World) (f : string) : bool :=
  match outcomeClass w f with
  | Success | Duplicate => true
  | _ => false
  end.

(** The record [p] when exactly the files of [done] have been through
    their task, from the loaded record [p0]. *)
Definition ProgressAt (w : World) (p0 : MigrationProgress) (done : list string)
  (p : MigrationProgress) : Prop :=
  migratedFiles p = migratedFiles p0 ++ filter (isHandled w) done
  /\ migratedCount p
     = migratedCount p0 + Z.of_nat (length (filter (isMigrated w) done)).

(** The same without the order of the names, which is the order in which
    the tasks have settled: the record [p] holds the loaded names and the
    handled files of [done], and its count has grown by the migrated
    ones. *)
Definition RecordAt (w : World) (p0 : MigrationProgress) (done : list string)
  (p : MigrationProgress) : Prop :=
  Permutation (migratedFiles p) (migratedFiles p0 ++ filter (isHandled w) done)
  /\ migratedCount p
     = migratedCount p0 + Z.of_nat (length (filter (isMigrated w) done)).

(** Every record saved so far is the record at some point of the list. *)
Definition SavesAt (w : World) (p0 : MigrationProgress) (all : list string)
  (tr : list Event) : Prop :=
  forall p, In (SaveProgress p) tr ->
            exists done rest, all = done ++ rest /\ ProgressAt w p0 done p.


(** ** One run after another, and what a run adds up to *)

(** The world of a later run: the same environment, directory and
    outcomes, over the disk [d] that the run before has left, started at
    [t]. *)
Definition nextRun (d : Disk) (t : string) (w : World) : World :=
  {| env := env w; calibrationRpc := calibrationRpc w; localLotus := localLotus w;
     disk := d; synapseCreate := synapseCreate w;
     createContext := createContext w; pLimitOk := pLimitOk w;
     readdir := readdir w; attempt := attempt w; loadTime := t;
     errorTime := errorTime w; batchTime := batchTime w |}.

(** An error record as the catch block of the task of its file pushes it. *)
Definition FailureRecord (w : World) (r : ErrorRecord) : Prop :=
  exists msg,
    thrownMessage (attempt w (file r)) = Some msg
    /\ isDuplicateMsg msg = false
    /\ error r = (if isTooLargeMsg msg then "FILE_TOO_LARGE: " ++ msg else msg)%string
    /\ timestamp r = errorTime w (file r).

(** What the tasks of the files [l] add to the state [st], giving [st']:
    the counters, the count of the record and the error records move by
    the files of [l], and nothing else does. *)
Definition Accounted (w : World) (l : list string) (st st' : RunState) : Prop :=
  total (stats st') = total (stats st)
  /\ skipped (stats st') = skipped (stats st)
  /\ completed (stats st')
     = completed (stats st) + Z.of_nat (length (filter (isMigrated w) l))
  /\ failed (stats st')
     = failed (stats st)
       + Z.of_nat (length (filter (fun f => negb (isMigrated w f)) l))
  /\ migratedCount (progress st')
     = migratedCount (progress st) + Z.of_nat (length (filter (isMigrated w) l))
  /\ totalFiles (progress st') = totalFiles (progress st)
  /\ exists es,
       errors (stats st') = errors (stats st) ++ es
       /\ map file es = filter (fun f => negb (isMigrated w f)) l
       /\ Forall (FailureRecord w) es.

(** The failure line of every file of [l] that ended as a permanent skip
    or as a transient failure is in the trace. *)
Definition FailureLines (w : World) (l : list string) (tr : list Event) : Prop :=
  forall f, In f l ->
    (outcomeClass w f = PermanentSkip -> In (Log (LSkippedTooLarge f)) tr)
    /\ (outcomeClass w f = TransientFailure ->
        exists m, In (Log (LFailed f m)) tr).

(** ** Reading the settings *)

(** Text at which [parseInt] stops reading a decimal integer: the end, or a
    character that is no digit and not the x of a hexadecimal prefix. *)
Definition endsInteger (rest : string) : bool :=
  match rest with
  | EmptyString => true
  | String c _ =>
      negb (isDigit c) && negb (Ascii.eqb c "x") && negb (Ascii.eqb c "X")
  end.

(** The line on the RPC connection that main prints under the
    configuration. *)
Inductive RpcStatus : Type :=
| UsingLocalNode (ip : string)
| LocalNotReachable (ip : string)
| UsingPublicEndpoint.

Definition rpcStatus (w : World) : RpcStatus :=
  match env w "LOCAL_LOTUS_IP" with
  | Some (String c r) =>
      if includes (String c r) (rpcUrl (CONFIG w))
      then UsingLocalNode (String c r)
      else LocalNotReachable (String c r)
  | _ => UsingPublicEndpoint
  end.

(** ** The progress lines *)

(** The progress lines of a trace: the completed count and the total that
    each shows. *)
Fixpoint progressLinesOf (tr : list Event) : list (Z * Z) :=
  match tr with
  | [] => []
  | Log (LProgress c t) :: rest => (c, t) :: progressLinesOf rest
  | _ :: rest => progressLinesOf rest
  end.

(** The progress lines up to [st]: one for each completed count from 1 on
    that the interval divides. *)
Definition ProgressLines (cfg : Config) (st : RunState) : Prop :=
  0 <= completed (stats st)
  /\ progressLinesOf (trace st)
     = map (fun k => (Z.of_nat k, total (stats st)))
         (filter (fun k => remIsZero (Z.of_nat k) (logInterval cfg))
            (seq 1 (Z.to_nat (completed (stats st))))).

(** Every progress line up to [st] shows a count that the interval divides. *)
Definition ProgressLinesDivide (cfg : Config) (st : RunState) : Prop :=
  0 <= completed (stats st)
  /\ forall c t, In (Log (LProgress c t)) (trace st) ->
       remIsZero c (logInterval cfg) = true
       /\ 1 <= c <= completed (stats st)
       /\ t = total (stats st).

(** ** The plain migration script

    The repository holds a second migration script, without the probe of
    the local node, the signal handler and the error classes.  It has the
    progress store, the batch loop and the report of the script above; its
    task treats whatever is thrown as a failure, and it sets up the SDK
    before it loads the progress. *)
Module Basic.

Definition CONFIG (w : World) : Config :=
  {| privateKey := env w "PRIVATE_KEY";
     rpcUrl := orDefault (env w "RPC_URL") (calibrationRpc w);
     providerId := parseInt (orDefault (env w "PROVIDER_ID") "0");
     sourcePath := orDefault (env w "SOURCE_PATH") "/filecoin-storage/piece";
     concurrency := parseInt (orDefault (env w "CONCURRENCY") "20");
     logInterval := parseInt (orDefault (env w "LOG_INTERVAL") "50");
     progressFile := "migration-progress.json";
     batchSize := parseInt (orDefault (env w "BATCH_SIZE") "100") |}.

(** The catch block of a task. *)
Definition onError (w : World) (f msg : string) (st : RunState) : RunState :=
  {| progress := progress st;
     stats := countFailed {| file := f; error := msg;
                             timestamp := errorTime w f |} (stats st);
     trace := (trace st ++ [Log (LFailed f msg)])%list;
     files := files st |}.

(** One task of a batch; the object it returns is not looked at. *)
Definition processFile (cfg : Config) (w : World) (f : string) (st : RunState)
  : RunState :=
  match attempt w f with
  | ReadFails msg => onError w f msg st
  | UploadFails msg => onError w f msg (emit (Upload f) st)
  | UploadOk _ =>
      let s1 := countCompleted (stats st) in
      let tr := (trace st ++ [Upload f])%list in
      {| progress := markMigrated f (progress st);
         stats := s1;
         trace := if remIsZero (completed s1) (logInterval cfg)
                  then (tr ++ [Log (LProgress (completed s1) (total s1))])%list
                  else tr;
         files := files st |}
  end.

Definition processBatch (cfg : Config) (w : World) (batch : list string)
  (st : RunState) : RunState :=
  fold_left (fun s f => processFile cfg w f s) batch st.

Fixpoint runBatches (cfg : Config) (w : World) (index : nat)
  (batches : list (list string)) (st : RunState) : RunState :=
  match batches with
  | [] => st
  | batch :: rest =>
      runBatches cfg w (S index) rest
        (checkpoint cfg w index (processBatch cfg w batch (startBatch index batch st)))
  end%list.

Definition startState (w : World) (p0 : MigrationProgress)
  (entries : list string) : RunState :=
  let pieceFiles := pieceFilesOf entries in
  let s2 := withTotal (Z.of_nat (length pieceFiles)) (resumeStats p0) in
  {| progress := withTotalFiles (total s2) p0;
     stats := s2;
     trace := [Log (resumeLine p0); Readdir (sourcePath (CONFIG w));
               Log (LScan (total s2) (migratedCount p0)
                      (Z.of_nat (length (remainingOf p0 pieceFiles))))]%list;
     files := disk w |}.

Definition migrate (fuel : nat) (w : World) (p0 : MigrationProgress)
  (entries : list string) : option Final :=
  let cfg := CONFIG w in
  let st0 := startState w p0 entries in
  let remainingFiles := remainingOf p0 (pieceFilesOf entries) in
  if (length remainingFiles =? 0)%nat then
    Some (finish {| progress := p0; stats := stats st0;
                    trace := (trace st0 ++ [Log LAllAlreadyMigrated])%list;
                    files := disk w |})
  else if negb (pLimitOk w) then
    Some (fatal LimitError (trace st0) (disk w) (stats st0) (Some (progress st0)))
  else
    match mkBatches fuel (batchSize cfg) remainingFiles (Num 0) with
    | None => None
    | Some batches => Some (finish (report cfg (runBatches cfg w 0 batches st0)))
    end.

(** [main] of the plain script, with the process exit that follows. *)
Definition main (fuel : nat) (w : World) : option Final :=
  let cfg := CONFIG w in
  if falsyStr (privateKey cfg) then
    Some (fatal (ConfigError "PRIVATE_KEY environment variable is required")
                [] (disk w) stats0 None)
  else if falsyNum (providerId cfg) then
    Some (fatal (ConfigError "PROVIDER_ID environment variable is required")
                [] (disk w) stats0 None)
  else if negb (synapseCreate w) then Some (fatal SdkError [] (disk w) stats0 None)
  else if negb (createContext w) then Some (fatal SdkError [] (disk w) stats0 None)
  else
    match loadProgress cfg (disk w) (loadTime w) with
    | LoadThrows e => Some (fatal e [] (disk w) stats0 None)
    | LoadUntyped _ =>
        Some {| status := OutsideInterface; thrown := None; finalTrace := [];
                finalDisk := disk w; finalStats := stats0; finalProgress := None |}
    | Loaded p0 =>
        match readdir w with
        | None =>
            Some (fatal SourceError
                    [Log (resumeLine p0); Readdir (sourcePath cfg)]%list
                    (disk w) (resumeStats p0) (Some p0))
        | Some entries => migrate fuel w p0 entries
        end
    end.

(** The upload of [f] resolves. *)
Definition uploaded (w : World) (f : string) : bool :=
  match attempt w f with
  | UploadOk _ => true
  | _ => false
  end.

(** The record when exactly the files of [done] have been through their
    task, from the loaded record [p0]. *)
Definition ProgressAt (w : World) (p0 : MigrationProgress) (done : list string)
  (p : MigrationProgress) : Prop :=
  migratedFiles p = (migratedFiles p0 ++ filter (uploaded w) done)%list
  /\ migratedCount p
     = migratedCount p0 + Z.of_nat (length (filter (uploaded w) done)).

End Basic.


(** ** The deposit script (deposit.ts)

    The script takes an amount on the command line and deposits it to the
    payments contract.  The calls of the SDK and of viem are taken from
    the world; a call that rejects or throws is [None]. *)
Module Deposit.

Record World : Type := {
  amountArg : option string;        (* process.argv[2] *)
  env : string -> option string;    (* process.env *)
  synapseCreate : bool;             (* Synapse.create resolves *)
  getAddress : option string;       (* synapse.getClient().getAddress() *)
  parseUnits : string -> option Z;  (* parseUnits(amount, 18) *)
  walletBalance : option Z;         (* payments.walletBalance('USDFC') *)
  balance : nat -> option Z;        (* payments.balance('USDFC'), by call *)
  deposit : Z -> option string;     (* payments.deposit(amountWei, 'USDFC'): the hash *)
  confirmed : bool                  (* txResponse.wait() resolves *)
}.

Inductive Event : Type :=
| Usage                                  (* the two usage lines *)
| Banner
| Wallet (address amount : string)
| WalletBalance (units : Z)
| Insufficient (amount : string) (have : Z)
| CurrentDeposit (units : Z)
| Depositing
| SendDeposit (amountWei : Z)            (* the call of payments.deposit *)
| Sent (hash : string)
| Complete (newDeposit : Z)
| ErrorLine.                             (* printed by main().catch *)

(** [main().catch(...)]: the error is printed and the process exits 1. *)
Definition rejected (tr : list Event) : list Event * Z :=
  ((tr ++ [ErrorLine])%list, 1).

(** The events of a run and the exit code of the process. *)
Definition main (w : World) : list Event * Z :=
  match amountArg w with
  | Some (String c r) =>
      let amount := String c r in
      let tr0 := [Banner]%list in
      if falsyStr (env w "PRIVATE_KEY") then rejected tr0
      else if negb (synapseCreate w) then rejected tr0
      else
        match getAddress w with
        | None => rejected tr0
        | Some address =>
            match parseUnits w amount with
            | None => rejected tr0
            | Some amountWei =>
                let tr1 := (tr0 ++ [Wallet address amount])%list in
                match walletBalance w with
                | None => rejected tr1
                | Some have =>
                    let tr2 := (tr1 ++ [WalletBalance have])%list in
                    if have <? amountWei
                    then ((tr2 ++ [Insufficient amount have])%list, 1)
                    else
                      match balance w 0 with
                      | None => rejected tr2
                      | Some current =>
                          let tr3 := (tr2 ++ [CurrentDeposit current; Depositing;
                                              SendDeposit amountWei])%list in
                          match deposit w amountWei with
                          | None => rejected tr3
                          | Some hash =>
                              let tr4 := (tr3 ++ [Sent hash])%list in
                              if negb (confirmed w) then rejected tr4
                              else
                                match balance w 1 with
                                | None => rejected tr4
                                | Some newDeposit =>
                                    ((tr4 ++ [Complete newDeposit])%list, 0)
                                end
                          end
                      end
                end
            end
        end
  | _ => ([Usage]%list, 1)
  end.

Fixpoint depositsOf (tr : list Event) : list Z :=
  match tr with
  | [] => []
  | SendDeposit a :: rest => a :: depositsOf rest
  | _ :: rest => depositsOf rest
  end%list.

End Deposit.

(** ** The test of a single piece (test-single-piece.ts)

    The script uploads one fixed piece and compares the CID that comes
    back with the expected one, both in their legacy form. *)
Module TestPiece.

Inductive UploadResult : Type :=
| Resolves (pieceCid : string)
| Rejects (isError : bool) (msg : string).  (* error instanceof Error, its message *)

Record World : Type := {
  env : string -> option string;
  readTestFile : bool;                        (* readFile(CONFIG.testFile) resolves *)
  synapseCreate : bool;
  createContext : bool;
  upload : UploadResult;                      (* context.upload(fileData, ...) *)
  asLegacyPieceCID : string -> option string  (* its toString(), None: null *)
}.

Definition expectedCid : string :=
  "baga6ea4seaqpss756prtkiynrewq4fqfaornk3zux2hldv4xduchtxz63s2osbq".

Inductive Event : Type :=
| Cids (original response : string)
| CouldNotParse
| Legacy (original response : string)
| Match (same : bool)
| Verdict (success : bool)        (* the block SUCCESS or the block FAILURE *)
| UploadFailed (msg : string)
| Tip                             (* run the deposit script *)
| Fatal.                          (* printed by main().catch *)

Definition main (w : World) : list Event * Z :=
  if falsyStr (env w "PRIVATE_KEY") then ([Fatal], 1)%list
  else if falsyNum (parseInt (orDefault (env w "PROVIDER_ID") "0"))
  then ([Fatal], 1)%list
  else if negb (readTestFile w) then ([Fatal], 1)%list
  else if negb (synapseCreate w) then ([Fatal], 1)%list
  else if negb (createContext w) then ([Fatal], 1)%list
  else
    match upload w with
    | Resolves pieceCid =>
        let tr := [Cids expectedCid pieceCid]%list in
        match asLegacyPieceCID w expectedCid, asLegacyPieceCID w pieceCid with
        | Some originalLegacy, Some responseLegacy =>
            let samePiece := String.eqb originalLegacy responseLegacy in
            ((tr ++ [Legacy originalLegacy responseLegacy; Match samePiece;
                     Verdict samePiece])%list, 0)
        | _, _ => ((tr ++ [CouldNotParse])%list, 0)
        end
    | Rejects isError msg =>
        (([UploadFailed msg]
          ++ (if isError && includes "InsufficientFunds" msg then [Tip] else []))%list,
         1)
    end.

End TestPiece.

(** ** The listing of a dataset (check-dataset-cids.ts)

    The script reads the piece ids of a dataset from the chain and lists
    the first ten.  Its [main().catch(console.error)] prints what main
    throws and lets the process end by itself. *)
Module CheckDataset.

Record World : Type := {
  env : string -> option string;
  synapseCreate : bool;
  readContract : option (list string)   (* result.pieceIds; None: the try block throws *)
}.

Inductive Event : Type :=
| Pieces (count : Z)
| Piece (number : Z) (pieceId : string)
| More (count : Z)
| ErrorLine.

(** [ids.forEach((pieceId, i) => log(i + 1, pieceId))] from index [i] on. *)
Fixpoint listed (i : Z) (ids : list string) : list Event :=
  match ids with
  | [] => []
  | id :: rest => Piece (i + 1) id :: listed (i + 1) rest
  end%list.

Definition main (w : World) : list Event * Z :=
  if falsyStr (env w "PRIVATE_KEY") then ([ErrorLine], 0)%list
  else if negb (synapseCreate w) then ([ErrorLine], 0)%list
  else
    match readContract w with
    | Some pieceIds =>
        let n := Z.of_nat (length pieceIds) in
        (([Pieces n]
          ++ listed 0 (slice pieceIds (Num 0) (Num 10))
          ++ (if n >? 10 then [More (n - 10)] else []))%list, 0)
    | None => ([ErrorLine], 0)%list
    end.

Fixpoint piecesOf (tr : list Event) : list string :=
  match tr with
  | [] => []
  | Piece _ id :: rest => id :: piecesOf rest
  | _ :: rest => piecesOf rest
  end%list.

End CheckDataset.

(** The steps before the upload all succeed. *)
Definition testPieceReady (w : TestPiece.World) : Prop :=
  falsyStr (TestPiece.env w "PRIVATE_KEY") = false
  /\ falsyNum (parseInt (orDefault (TestPiece.env w "PROVIDER_ID") "0")) = false
  /\ TestPiece.readTestFile w = true
  /\ TestPiece.synapseCreate w = true
  /\ TestPiece.createContext w = true.


(** *** Further sample worlds *)

(** One piece, and a batch size of 0. *)
Definition wBatchZero : World :=
  sampleWorld [("PRIVATE_KEY", "0xabc"); ("PROVIDER_ID", "7"); ("BATCH_SIZE", "0")]
    noFiles ["s-t00-1"] (fun _ => UploadOk "baga6ea4seaq").

(** One piece, and a batch size that is not a number. *)
Definition wBatchWord : World :=
  sampleWorld [("PRIVATE_KEY", "0xabc"); ("PROVIDER_ID", "7"); ("BATCH_SIZE", "many")]
    noFiles ["s-t00-1"] (fun _ => UploadOk "baga6ea4seaq").

(** Text after the digits of PROVIDER_ID. *)
Definition wProviderSuffix : World :=
  sampleWorld [("PRIVATE_KEY", "0xabc"); ("PROVIDER_ID", "7 nodes")]
    noFiles ["s-t00-1"] (fun _ => UploadOk "baga6ea4seaq").

(** A local node that answers the probe. *)
Definition wLocal : World :=
  {| env := envOf (("LOCAL_LOTUS_IP", "10.0.0.5") :: okEnv);
     calibrationRpc := "https://calibration.example/rpc/v1";
     localLotus := true; disk := noFiles; synapseCreate := true;
     createContext := true; pLimitOk := true; readdir := Some ["s-t00-1"];
     attempt := fun _ => UploadOk "baga6ea4seaq";
     loadTime := "T0"; errorTime := fun f => ("E:" ++ f)%string;
     batchTime := fun i => ("B" ++ natToString (N.of_nat i))%string |}.

(** Three pieces that upload, a progress line every second one. *)
Definition wLogTwo : World :=
  sampleWorld (("LOG_INTERVAL", "2") :: okEnv) noFiles
    ["s-t00-1"; "s-t00-2"; "s-t00-3"] (fun _ => UploadOk "baga6ea4seaq").

(** The first piece is in the progress file of an earlier run; of the two
    that remain one is too large and one times out. *)
Definition wResume : World :=
  sampleWorld okEnv diskDone ["s-t00-1"; "s-t00-2"; "s-t00-3"] mixedAttempts.

(** Three pieces: the upload of the second one fails, with a message that
    the main script does not set apart. *)
Definition wOneFails : World :=
  sampleWorld okEnv noFiles ["s-t00-1"; "s-t00-2"; "s-t00-3"]
    (fun f => if String.eqb f "s-t00-2" then UploadFails "socket hang up"
              else UploadOk "baga6ea4seaq").

(** The same pieces where the second one cannot be read, and the others
    come back with another piece CID. *)
Definition wOneUnread : World :=
  sampleWorld okEnv noFiles ["s-t00-1"; "s-t00-2"; "s-t00-3"]
    (fun f => if String.eqb f "s-t00-2" then ReadFails "EACCES: permission denied"
              else UploadOk "baga6ea4seaqplain").

(** ** The two migration scripts side by side *)

(** The plain script gets to the listing of the source directory, with
    the record [p0] loaded and the entries [entries] listed: the settings
    are there, the SDK and the context are set up, and the progress
    loads. *)
Definition BasicReaches (v : World) (p0 : MigrationProgress)
  (entries : list string) : Prop :=
  falsyStr (privateKey (Basic.CONFIG v)) = false
  /\ falsyNum (providerId (Basic.CONFIG v)) = false
  /\ synapseCreate v = true
  /\ createContext v = true
  /\ loadProgress (Basic.CONFIG v) (disk v) (loadTime v) = Loaded p0
  /\ readdir v = Some entries.

(** What the tasks of the plain script add to the state, for the files of
    [l]. *)
Definition BasicAccounted (v : World) (l : list string) (st st' : RunState)
  : Prop :=
  total (stats st') = total (stats st)
  /\ skipped (stats st') = skipped (stats st)
  /\ completed (stats st')
     = completed (stats st) + Z.of_nat (length (filter (Basic.uploaded v) l))
  /\ failed (stats st')
     = failed (stats st)
       + Z.of_nat (length (filter (fun f => negb (Basic.uploaded v f)) l))
  /\ totalFiles (progress st') = totalFiles (progress st)
  /\ exists es,
       errors (stats st') = errors (stats st) ++ es
       /\ map file es = filter (fun f => negb (Basic.uploaded v f)) l.

(** The plain script in the world [v] and the main script in the world [w]
    see the same uploads succeed, and the main script meets no error that
    it sets apart. *)
Definition SameUploads (w v : World) (l : list string) : Prop :=
  forall f, In f l ->
    (outcomeClass w f = Success \/ outcomeClass w f = TransientFailure)
    /\ Basic.uploaded v f = isMigrated w f.

(** Two runs that end alike, whatever the order in which their tasks have
    settled: the same exit, the same counters, error records for the same
    files, and records with the same count and the same names. *)
Definition SameCounts (fin fin' : Final) : Prop :=
  status fin = status fin'
  /\ total (finalStats fin) = total (finalStats fin')
  /\ skipped (finalStats fin) = skipped (finalStats fin')
  /\ completed (finalStats fin) = completed (finalStats fin')
  /\ failed (finalStats fin) = failed (finalStats fin')
  /\ Permutation (map file (errors (finalStats fin)))
       (map file (errors (finalStats fin')))
  /\ match finalProgress fin, finalProgress fin' with
     | Some p, Some p' =>
         totalFiles p = totalFiles p'
         /\ migratedCount p = migratedCount p'
         /\ Permutation (migratedFiles p) (migratedFiles p')
     | None, None => True
     | _, _ => False
     end.

(** * Properties *)

(** ** Sets of names *)

Lemma Set_has_true_iff (s : list string) (x : string) :
  Set_has s x = true <-> In x s.
Proof.
  unfold Set_has. rewrite existsb_exists. split.
  - intros [y [Hin Heq]]. apply String.eqb_eq in Heq. now subst.
  - intros Hin. exists x. split; [assumption | apply String.eqb_refl].
Qed.

Lemma Set_has_false_iff (s : list string) (x : string) :
  Set_has s x = false <-> ~ In x s.
Proof.
  rewrite <- Set_has_true_iff. destruct (Set_has s x); split; congruence.
Qed.

Lemma In_Set_add (s : list string) (x y : string) :
  In y (Set_add s x) <-> In y s \/ y = x.
Proof.
  unfold Set_add. destruct (Set_has s x) eqn:E.
  - apply Set_has_true_iff in E. split; [tauto | intros [H | ->]; assumption].
  - rewrite in_app_iff. simpl. intuition.
Qed.

Lemma Set_add_member (s : list string) (x : string) : In x (Set_add s x).
Proof. apply In_Set_add. now right. Qed.

Lemma Set_add_new (s : list string) (x : string) :
  ~ In x s -> Set_add s x = s ++ [x].
Proof.
  intros H. unfold Set_add. apply Set_has_false_iff in H. now rewrite H.
Qed.


Lemma Set_of_from (l acc : list string) :
  NoDup (acc ++ l) -> fold_left Set_add l acc = acc ++ l.
Proof.
  revert acc. induction l as [| x l IH]; intros acc H; simpl.
  - now rewrite app_nil_r.
  - assert (Hx : ~ In x acc).
    { apply NoDup_remove_2 in H. intros Hin. apply H.
      apply in_or_app. now left. }
    rewrite (Set_add_new _ _ Hx).
    replace (acc ++ x :: l) with ((acc ++ [x]) ++ l) in *
      by (now rewrite <- app_assoc).
    now apply IH.
Qed.

Lemma Set_of_NoDup (l : list string) : NoDup l -> Set_of l = l.
Proof. intros H. unfold Set_of. now rewrite Set_of_from. Qed.

(** ** JSON: parsing what was printed *)

Local Open Scope string_scope.
Local Open Scope Z_scope.

(** ** Strings *)
Lemma append_assoc (a b c : string) : (a ++ b) ++ c = a ++ (b ++ c).
Proof. induction a as [| x a IH]; simpl; [reflexivity | now rewrite IH]. Qed.

Lemma append_empty_r (a : string) : a ++ EmptyString = a.
Proof. induction a as [| x a IH]; simpl; [reflexivity | now rewrite IH]. Qed.

Lemma length_append (a b : string) :
  String.length (a ++ b) = (String.length a + String.length b)%nat.
Proof. induction a as [| x a IH]; simpl; [reflexivity | now rewrite IH]. Qed.

Lemma isBlank_app (a b : string) : isBlank (a ++ b) = isBlank a && isBlank b.
Proof.
  induction a as [| x a IH]; simpl; [reflexivity |].
  now rewrite IH, andb_assoc.
Qed.

Lemma skipWs_blank (a r : string) : isBlank a = true -> skipWs (a ++ r) = skipWs r.
Proof.
  induction a as [| x a IH]; simpl; [reflexivity |].
  intros H. apply andb_true_iff in H. destruct H as [Hx Ha].
  rewrite Hx. now apply IH.
Qed.


(** ** String literals *)
Lemma parseStringBody_quoteBody (s rest : string) :
  parseStringBody (quoteBody s ++ String dq rest) = Some (s, rest).
Proof.
  induction s as [| c s IH]; [reflexivity |].
  cbn [quoteBody]. rewrite append_assoc.
  destruct c as [[] [] [] [] [] [] [] []]; simpl; rewrite IH; reflexivity.
Qed.

(** ** Number literals *)

Lemma string_of_uint_digits (u : Decimal.uint) :
  allDigits (NilEmpty.string_of_uint u) = true.
Proof. induction u; simpl; auto. Qed.

Lemma spanDigits_app (d rest : string) :
  allDigits d = true -> endsNumber rest = true ->
  spanDigits (d ++ rest) = (d, rest).
Proof.
  intros Hd Hr. induction d as [| c d IH]; simpl.
  - destruct rest as [| x r]; [reflexivity |]. simpl in Hr. cbn [spanDigits].
    destruct (isDigit x); [discriminate | reflexivity].
  - simpl in Hd. apply andb_true_iff in Hd. destruct Hd as [Hc Hd].
    rewrite Hc, (IH Hd). reflexivity.
Qed.

Lemma nzhead_not_D0 (u v : Decimal.uint) : Decimal.nzhead u <> Decimal.D0 v.
Proof. induction u; simpl; try discriminate. assumption. Qed.

Lemma to_uint_head (p : positive) :
  exists c t, NilEmpty.string_of_uint (Pos.to_uint p) = String c t
              /\ isDigit c = true /\ Ascii.eqb c "0" = false
              /\ Ascii.eqb c "-" = false.
Proof.
  assert (Hn : Decimal.unorm (Pos.to_uint p) = Pos.to_uint p).
  { change (Pos.to_uint p) with (N.to_uint (Npos p)).
    rewrite <- (DecimalN.Unsigned.of_to (Npos p)) at 2.
    now rewrite DecimalN.Unsigned.to_of. }
  pose proof (DecimalPos.Unsigned.to_uint_nonnil p) as Hnil.
  pose proof (DecimalPos.Unsigned.to_uint_nonzero p) as Hnz.
  destruct (Pos.to_uint p) as [| u | u | u | u | u | u | u | u | u | u] eqn:E;
    try (simpl; eexists; eexists; split; [reflexivity |];
         repeat split; reflexivity).
  - contradiction.
  - exfalso. unfold Decimal.unorm in Hn. simpl in Hn.
    destruct (Decimal.nzhead u) eqn:Z;
      try (injection Hn as Hn; subst u; now apply Hnz);
      try discriminate.
    now apply (nzhead_not_D0 u u0).
Qed.

Lemma digitsToN_natToString (n : N) : digitsToN (natToString n) = n.
Proof.
  unfold digitsToN, natToString. rewrite NilEmpty.usu.
  apply DecimalN.Unsigned.of_to.
Qed.

Lemma parseNumber_nat (n : N) (rest : string) :
  endsNumber rest = true ->
  parseNumber (natToString n ++ rest) = Some (JInt (Z.of_N n), rest)
  /\ headIs "-" (natToString n ++ rest) = false.
Proof.
  intros Hr.
  assert (Hrest : headIs "." rest = false /\ headIs "e" rest = false
                  /\ headIs "E" rest = false).
  { destruct rest as [| x r]; [auto |]. simpl in Hr. simpl.
    destruct (Ascii.eqb x "."), (Ascii.eqb x "e"), (Ascii.eqb x "E");
      rewrite ?andb_false_r in Hr; try discriminate; auto. }
  destruct Hrest as (H1 & H2 & H3).
  destruct n as [| p].
  - split; [| reflexivity].
    unfold parseNumber. cbn -[digitsToN]. rewrite H1, H2, H3. reflexivity.
  - pose proof (digitsToN_natToString (Npos p)) as Hv.
    pose proof (string_of_uint_digits (Pos.to_uint p)) as Hd.
    unfold natToString in *. cbn [N.to_uint] in *.
    destruct (to_uint_head p) as (c & t & E & Hc & H0 & Hm).
    rewrite E in *. split.
    + unfold parseNumber. cbn [append headIs tailStr]. rewrite Hm.
      replace (headIs "0" (String c (t ++ rest))) with false
        by (symmetry; exact H0).
      change (String c (t ++ rest)) with (String c t ++ rest).
      rewrite (spanDigits_app _ _ Hd Hr). rewrite H1, H2, H3.
      cbn [isEmptyStr orb andb]. now rewrite Hv.
    + simpl. exact Hm.
Qed.

Lemma parseNumber_int (z : Z) (rest : string) :
  endsNumber rest = true ->
  parseNumber (intToString z ++ rest) = Some (JInt z, rest).
Proof.
  intros Hr. unfold intToString. destruct (Z.ltb_spec z 0) as [Hneg | Hpos].
  - destruct (parseNumber_nat (Z.to_N (- z)) rest Hr) as [Hp Hm].
    cbn [append]. unfold parseNumber in *. cbn [headIs tailStr].
    change (Ascii.eqb "-" "-") with true. cbv iota.
    revert Hp. rewrite Hm.
    generalize (natToString (Z.to_N (- z)) ++ rest). intros s0.
    destruct (if headIs "0" s0 then ("0", tailStr s0) else spanDigits s0) as [ip s2].
    destruct (if headIs "." s2 then spanDigits (tailStr s2) else (EmptyString, s2))
      as [fd s3].
    destruct (if headIs "e" s3 || headIs "E" s3
              then spanDigits
                     (if isEmptyStr
                           (if headIs "+" (tailStr s3) then "+"
                            else if headIs "-" (tailStr s3) then "-" else EmptyString)
                      then tailStr s3 else tailStr (tailStr s3))
              else (EmptyString, s3)) as [ed s4].
    destruct (isEmptyStr ip); [discriminate |].
    destruct (headIs "." s2 && isEmptyStr fd); [discriminate |].
    destruct ((headIs "e" s3 || headIs "E" s3) && isEmptyStr ed); [discriminate |].
    destruct (headIs "." s2 || (headIs "e" s3 || headIs "E" s3)); [discriminate |].
    intros H. injection H as Hv ->. f_equal. f_equal. f_equal. lia.
  - destruct (parseNumber_nat (Z.to_N z) rest Hr) as [Hp _].
    rewrite Hp. f_equal. f_equal. f_equal. lia.
Qed.

Lemma cost_JArr (items : list JSON) : cost (JArr items) = S (costs items).
Proof.
  reflexivity.
Qed.

Lemma cost_JObj (ms : list (string * JSON)) : cost (JObj ms) = S (costsM ms).
Proof.
  reflexivity.
Qed.

(** ** Values *)

Lemma startsValue_app (s rest : string) :
  startsValue s = true -> startsValue (s ++ rest) = true.
Proof. destruct s; [discriminate | exact (fun H => H)]. Qed.

Lemma startsValue_skipWs (s : string) :
  startsValue s = true -> skipWs s = s.
Proof.
  destruct s as [| c r]; [discriminate |]. simpl.
  destruct (isWs c); [discriminate | reflexivity].
Qed.

Lemma startsValue_heads (s : string) :
  startsValue s = true ->
  headIs "]" s = false /\ headIs "}" s = false /\ headIs "," s = false
  /\ headIs ":" s = false.
Proof.
  destruct s as [| c r]; [discriminate |]. simpl.
  destruct (isWs c), (Ascii.eqb c "]"), (Ascii.eqb c "}"), (Ascii.eqb c ","),
    (Ascii.eqb c ":"); simpl; try discriminate; auto.
Qed.

Lemma natToString_starts (n : N) : exists c t,
  natToString n = String c t /\ isDigit c = true.
Proof.
  destruct n as [| p].
  - exists "0"%char, EmptyString. split; reflexivity.
  - destruct (to_uint_head p) as (c & t & E & Hc & _). exists c, t. auto.
Qed.

Lemma digit_startsValue (c : ascii) (t : string) :
  isDigit c = true -> startsValue (String c t) = true.
Proof.
  destruct c as [[] [] [] [] [] [] [] []]; simpl; intros H;
    try discriminate; reflexivity.
Qed.

Lemma stringifyAt_starts (ind : string) (v : JSON) :
  plain v = true -> startsValue (stringifyAt ind v) = true.
Proof.
  destruct v as [| [] | z | l | s | [| x items] | [| m ms]]; simpl;
    try reflexivity; try discriminate; intros _.
  unfold intToString. destruct (z <? 0); [reflexivity |].
  destruct (natToString_starts (Z.to_N z)) as (c & t & -> & Hc).
  now apply digit_startsValue.
Qed.

Lemma parseValue_blank (fuel : nat) (b s : string) :
  isBlank b = true -> parseValue fuel (b ++ s) = parseValue fuel s.
Proof.
  intros H. destruct fuel as [| k]; [reflexivity |].
  cbn [parseValue]. now rewrite (skipWs_blank b s H).
Qed.


Lemma parseValue_number (k : nat) (c : ascii) (t : string) :
  isDigit c = true \/ c = "-"%char ->
  parseValue (S k) (String c t) = parseNumber (String c t).
Proof.
  intros H. cbn [parseValue].
  assert (Hs : skipWs (String c t) = String c t
               /\ headIs "{" (String c t) = false
               /\ headIs "[" (String c t) = false
               /\ headIs dq (String c t) = false
               /\ startsWith "true" (String c t) = false
               /\ startsWith "false" (String c t) = false
               /\ startsWith "null" (String c t) = false).
  { destruct H as [H | ->]; [| repeat split].
    destruct c as [[] [] [] [] [] [] [] []]; try discriminate H;
      repeat split. }
  destruct Hs as (-> & -> & -> & -> & -> & -> & ->). reflexivity.
Qed.

Lemma intToString_head (z : Z) : exists c t,
  intToString z = String c t /\ (isDigit c = true \/ c = "-"%char).
Proof.
  unfold intToString. destruct (z <? 0).
  - eexists. eexists. split; [reflexivity | now right].
  - destruct (natToString_starts (Z.to_N z)) as (c & t & -> & Hc).
    exists c, t. auto.
Qed.

Lemma quote_app (k rest : string) :
  quote k ++ rest = String dq (quoteBody k ++ String dq rest).
Proof. unfold quote. simpl. now rewrite append_assoc. Qed.

Lemma joinLines_one (ind x rest : string) :
  joinLines ind [x] ++ rest = ind ++ x ++ rest.
Proof. simpl. now rewrite append_assoc. Qed.

Lemma joinLines_more (ind x y rest : string) (l : list string) :
  joinLines ind (x :: y :: l) ++ rest
  = ind ++ x ++ String "," (nl ++ joinLines ind (y :: l) ++ rest).
Proof.
  cbn [joinLines]. rewrite !append_assoc. simpl. reflexivity.
Qed.

Lemma joinLines_head (ind x rest : string) (l : list string) :
  exists tail, joinLines ind (x :: l) ++ rest = ind ++ x ++ tail.
Proof.
  destruct l as [| y l].
  - rewrite joinLines_one. eauto.
  - rewrite joinLines_more. eauto.
Qed.

Lemma skipWs_close (ind : string) (c : ascii) (rest : string) :
  isBlank ind = true -> isWs c = false ->
  skipWs (nl ++ ind ++ String c rest) = String c rest.
Proof.
  intros Hb Hc. change (nl ++ ind ++ String c rest)
    with (String "010" (ind ++ String c rest)).
  cbn [skipWs]. change (isWs "010") with true. cbv iota.
  rewrite (skipWs_blank ind _ Hb). simpl. now rewrite Hc.
Qed.

Lemma parseElements_lines (items : list JSON) :
  items <> [] ->
  Forall RoundTrips items ->
  forallb plain items = true ->
  forall ind' ind rest fuel,
    isBlank ind' = true -> isBlank ind = true ->
    (costs items <= fuel)%nat ->
    parseElements fuel
      (nl ++ joinLines ind' (map (stringifyAt ind') items)
          ++ nl ++ ind ++ String "]" rest)
    = Some (items, rest).
Proof.
  induction items as [| x items IH]; [congruence |].
  intros _ Hrt Hpl ind' ind rest fuel Hb' Hb Hfuel.
  inversion Hrt as [| ? ? Hx Hrest]; subst.
  simpl in Hpl. apply andb_true_iff in Hpl. destruct Hpl as [Hpx Hpr].
  simpl in Hfuel. destruct fuel as [| k]; [lia |].
  cbn [parseElements].
  destruct items as [| y items].
  - cbn [map]. rewrite joinLines_one.
    change (nl ++ ind' ++ ?s) with (String "010" ind' ++ s).
    rewrite parseValue_blank by (simpl; exact Hb').
    rewrite (Hx Hpx ind' _ k Hb') by (reflexivity || lia).
    rewrite (skipWs_close ind "]" rest Hb eq_refl). reflexivity.
  - cbn [map]. rewrite joinLines_more.
    change (nl ++ ind' ++ ?s) with (String "010" ind' ++ s).
    rewrite parseValue_blank by (simpl; exact Hb').
    rewrite (Hx Hpx ind' _ k Hb') by (reflexivity || lia).
    cbn [skipWs]. change (isWs ",") with false. cbv iota.
    cbn [headIs tailStr]. change (Ascii.eqb "," ",") with true. cbv iota.
    assert (Hk : (costs (y :: items) <= k)%nat) by (simpl in *; lia).
    pose proof (IH ltac:(discriminate) Hrest Hpr ind' ind rest k Hb' Hb Hk) as IH'.
    cbn [map] in IH'. rewrite IH'. reflexivity.
Qed.

Lemma parseMembers_lines (ms : list (string * JSON)) :
  ms <> [] ->
  Forall (fun m => RoundTrips (snd m)) ms ->
  forallb (fun m => plain (snd m)) ms = true ->
  forall ind' ind rest fuel,
    isBlank ind' = true -> isBlank ind = true ->
    (costsM ms <= fuel)%nat ->
    parseMembers fuel
      (nl ++ joinLines ind' (map (memberLine ind') ms)
          ++ nl ++ ind ++ String "}" rest)
    = Some (ms, rest).
Proof.
  induction ms as [| [key v] ms IH]; [congruence |].
  intros _ Hrt Hpl ind' ind rest fuel Hb' Hb Hfuel.
  inversion Hrt as [| ? ? Hx Hrest]; subst. cbn [snd] in Hx.
  simpl in Hpl. apply andb_true_iff in Hpl. destruct Hpl as [Hpx Hpr].
  simpl in Hfuel. destruct fuel as [| k]; [lia |].
  assert (Hstep : forall tail,
            endsNumber tail = true ->
            parseMembers (S k)
              (String "010" ind' ++ memberLine ind' (key, v) ++ tail)
            = (let u := skipWs tail in
               if headIs "," u then
                 match parseMembers k (tailStr u) with
                 | Some (ms', r5) => Some ((key, v) :: ms', r5)
                 | None => None
                 end
               else if headIs "}" u then Some ([(key, v)], tailStr u)
               else None)).
  { intros tail Ht. cbn [parseMembers].
    rewrite skipWs_blank by (simpl; exact Hb').
    unfold memberLine. cbn [fst snd]. rewrite !append_assoc, quote_app.
    cbn [skipWs]. change (isWs dq) with false. cbv iota.
    cbn [headIs tailStr]. change (Ascii.eqb dq dq) with true. cbv iota.
    rewrite parseStringBody_quoteBody.
    cbn [append skipWs]. change (isWs ":") with false. cbv iota.
    cbn [headIs tailStr]. change (Ascii.eqb ":" ":") with true. cbv iota.
    change (String " " (stringifyAt ind' v ++ tail))
      with (String " " EmptyString ++ stringifyAt ind' v ++ tail).
    rewrite parseValue_blank by reflexivity.
    rewrite (Hx Hpx ind' tail k Hb' Ht) by lia. reflexivity. }
  destruct ms as [| m' ms].
  - cbn [map]. rewrite joinLines_one.
    change (nl ++ ind' ++ ?s) with (String "010" ind' ++ s).
    rewrite Hstep by reflexivity. cbv zeta.
    rewrite (skipWs_close ind "}" rest Hb eq_refl). reflexivity.
  - cbn [map]. rewrite joinLines_more.
    change (nl ++ ind' ++ ?s) with (String "010" ind' ++ s).
    rewrite Hstep by reflexivity. cbv zeta.
    cbn [skipWs]. change (isWs ",") with false. cbv iota.
    cbn [headIs tailStr]. change (Ascii.eqb "," ",") with true. cbv iota.
    assert (Hk : (costsM (m' :: ms) <= k)%nat) by (simpl in *; lia).
    pose proof (IH ltac:(discriminate) Hrest Hpr ind' ind rest k Hb' Hb Hk) as IH'.
    cbn [map] in IH'. rewrite IH'. reflexivity.
Qed.

Lemma stringifyAt_arr (ind : string) (x : JSON) (items : list JSON) (rest : string) :
  stringifyAt ind (JArr (x :: items)) ++ rest
  = String "[" (nl ++ joinLines (ind ++ "  ")
                        (map (stringifyAt (ind ++ "  ")) (x :: items))
                   ++ nl ++ ind ++ String "]" rest).
Proof.
  cbn [stringifyAt]. rewrite !append_assoc. reflexivity.
Qed.

Lemma stringifyAt_obj (ind : string) (m : string * JSON)
  (ms : list (string * JSON)) (rest : string) :
  stringifyAt ind (JObj (m :: ms)) ++ rest
  = String "{" (nl ++ joinLines (ind ++ "  ")
                        (map (memberLine (ind ++ "  ")) (m :: ms))
                   ++ nl ++ ind ++ String "}" rest).
Proof.
  cbn [stringifyAt]. rewrite !append_assoc. reflexivity.
Qed.

Lemma isBlank_deeper (ind : string) :
  isBlank ind = true -> isBlank (ind ++ "  ") = true.
Proof. intros H. now rewrite isBlank_app, H. Qed.

Lemma skipWs_first_line (ind x tail : string) :
  isBlank ind = true -> startsValue x = true ->
  skipWs (nl ++ ind ++ x ++ tail) = x ++ tail.
Proof.
  intros Hb Hx.
  change (nl ++ ind ++ x ++ tail) with (String "010" ind ++ x ++ tail).
  rewrite skipWs_blank by (simpl; exact Hb).
  apply startsValue_skipWs. now apply startsValue_app.
Qed.

(** Parsing the text of a value with integer numbers gives the value back,
    at any indentation and whatever follows. *)
Theorem parseValue_stringifyAt (v : JSON) : RoundTrips v.
Proof.
  induction v using JSON_induction; intros Hpl ind rest fuel Hb Hr Hfuel;
    (destruct fuel as [| k]; [simpl in Hfuel; lia |]).
  - reflexivity.
  - destruct b; reflexivity.
  - cbn [stringifyAt].
    destruct (intToString_head z) as (c & t & E & Hc).
    rewrite <- (parseNumber_int z rest Hr). rewrite E. cbn [append].
    now apply parseValue_number.
  - discriminate.
  - cbn [stringifyAt]. rewrite quote_app. cbn [parseValue skipWs].
    change (isWs dq) with false. cbv iota. cbn [headIs tailStr].
    change (Ascii.eqb dq "{") with false. change (Ascii.eqb dq "[") with false.
    change (Ascii.eqb dq dq) with true. cbv iota.
    now rewrite parseStringBody_quoteBody.
  - destruct items as [| x items]; [reflexivity |].
    rewrite cost_JArr in Hfuel.
    rewrite stringifyAt_arr. cbn [parseValue skipWs].
    change (isWs "[") with false. cbv iota. cbn [headIs tailStr].
    change (Ascii.eqb "[" "{") with false. change (Ascii.eqb "[" "[") with true.
    cbv iota.
    assert (Hx : plain x = true).
    { simpl in Hpl. apply andb_true_iff in Hpl. tauto. }
    cbn [map].
    destruct (joinLines_head (ind ++ "  ") (stringifyAt (ind ++ "  ") x)
                (nl ++ ind ++ String "]" rest)
                (map (stringifyAt (ind ++ "  ")) items)) as [tail Ht].
    rewrite Ht at 1.
    rewrite (skipWs_first_line _ _ _ (isBlank_deeper ind Hb)
               (stringifyAt_starts _ x Hx)).
    destruct (startsValue_heads _ (startsValue_app _ tail
                (stringifyAt_starts (ind ++ "  ") x Hx))) as (-> & _).
    change (stringifyAt (ind ++ "  ") x :: map (stringifyAt (ind ++ "  ")) items)
      with (map (stringifyAt (ind ++ "  ")) (x :: items)).
    rewrite (parseElements_lines (x :: items) ltac:(discriminate) H Hpl
               (ind ++ "  ") ind rest k (isBlank_deeper ind Hb) Hb)
      by lia.
    reflexivity.
  - destruct ms as [| m ms]; [reflexivity |].
    rewrite cost_JObj in Hfuel.
    rewrite stringifyAt_obj. cbn [parseValue skipWs].
    change (isWs "{") with false. cbv iota. cbn [headIs tailStr].
    change (Ascii.eqb "{" "{") with true. cbv iota.
    cbn [map].
    destruct (joinLines_head (ind ++ "  ") (memberLine (ind ++ "  ") m)
                (nl ++ ind ++ String "}" rest)
                (map (memberLine (ind ++ "  ")) ms)) as [tail Ht].
    rewrite Ht at 1.
    assert (Hm : startsValue (memberLine (ind ++ "  ") m) = true) by reflexivity.
    rewrite (skipWs_first_line _ _ _ (isBlank_deeper ind Hb) Hm).
    destruct (startsValue_heads _ (startsValue_app _ tail Hm)) as (_ & -> & _).
    change (memberLine (ind ++ "  ") m :: map (memberLine (ind ++ "  ")) ms)
      with (map (memberLine (ind ++ "  ")) (m :: ms)).
    rewrite (parseMembers_lines (m :: ms) ltac:(discriminate) H Hpl
               (ind ++ "  ") ind rest k (isBlank_deeper ind Hb) Hb)
      by lia.
    reflexivity.
Qed.

(** The text of a value is at least as long as the fuel it takes. *)
Lemma joinLines_length (ind : string) (xs : list string) :
  (list_sum (map (fun x => 2 + String.length x) xs)
   <= String.length (joinLines ind xs) + 2)%nat.
Proof.
  induction xs as [| x xs IH]; [simpl; lia |].
  destruct xs as [| y xs].
  - cbn [joinLines map list_sum fold_right]. rewrite length_append. lia.
  - cbn [joinLines]. cbn [map list_sum fold_right] in *.
    rewrite !length_append. cbn [String.length nl]. 
    cbn [joinLines] in IH. lia.
Qed.

Lemma cost_le_length (v : JSON) :
  plain v = true ->
  forall ind, (cost v <= String.length (stringifyAt ind v))%nat.
Proof.
  induction v using JSON_induction; intros Hpl ind.
  - simpl. lia.
  - destruct b; simpl; lia.
  - cbn [cost stringifyAt]. destruct (intToString_head z) as (c & t & -> & _).
    simpl. lia.
  - discriminate.
  - simpl. lia.
  - destruct items as [| x items]; [simpl; lia |].
    rewrite cost_JArr.
    rewrite <- (append_empty_r (stringifyAt ind (JArr (x :: items)))).
    rewrite stringifyAt_arr. cbn [String.length]. rewrite !length_append.
    pose proof (joinLines_length (ind ++ "  ")
                  (map (stringifyAt (ind ++ "  ")) (x :: items))) as Hj.
    assert (Hc : (costs (x :: items)
                  <= list_sum (map (fun s => 2 + String.length s)
                                 (map (stringifyAt (ind ++ "  ")) (x :: items))))%nat).
    { clear Hj. revert H Hpl. generalize (x :: items). intros l Hl Hp.
      induction l as [| y l IHl]; [simpl; lia |].
      inversion Hl as [| ? ? Hy' Hl']; subst. simpl in Hp.
      apply andb_true_iff in Hp. destruct Hp as [Hy Hp].
      cbn [costs fold_right map list_sum].
      fold (costs l). specialize (IHl Hl' Hp).
      specialize (Hy' Hy (ind ++ "  ")). unfold list_sum in *. lia. }
    cbn [String.length nl]. lia.
  - destruct ms as [| m ms]; [simpl; lia |].
    rewrite cost_JObj.
    rewrite <- (append_empty_r (stringifyAt ind (JObj (m :: ms)))).
    rewrite stringifyAt_obj. cbn [String.length]. rewrite !length_append.
    pose proof (joinLines_length (ind ++ "  ")
                  (map (memberLine (ind ++ "  ")) (m :: ms))) as Hj.
    assert (Hc : (costsM (m :: ms)
                  <= list_sum (map (fun s => 2 + String.length s)
                                 (map (memberLine (ind ++ "  ")) (m :: ms))))%nat).
    { clear Hj. revert H Hpl. generalize (m :: ms). intros l Hl Hp.
      induction l as [| y l IHl]; [simpl; lia |].
      inversion Hl as [| ? ? Hy' Hl']; subst. simpl in Hp.
      apply andb_true_iff in Hp. destruct Hp as [Hy Hp].
      cbn [costsM fold_right map list_sum].
      fold (costsM l). specialize (IHl Hl' Hp).
      specialize (Hy' Hy (ind ++ "  ")). unfold memberLine, list_sum in *.
      rewrite !length_append. lia. }
    cbn [String.length nl]. lia.
Qed.

(** [JSON.parse(JSON.stringify(v, null, 2))] gives [v] back. *)
Theorem JSON_parse_stringify (v : JSON) :
  plain v = true -> JSON_parse (JSON_stringify v) = Some v.
Proof.
  intros Hpl. unfold JSON_parse, JSON_stringify.
  pose proof (cost_le_length v Hpl EmptyString) as Hc.
  pose proof (parseValue_stringifyAt v Hpl EmptyString EmptyString
                (2 * String.length (stringifyAt EmptyString v) + 2)%nat
                eq_refl eq_refl) as Hp.
  rewrite append_empty_r in Hp. rewrite Hp by lia. reflexivity.
Qed.

(** ** The progress file *)
Lemma asStrings_map (l : list string) : asStrings (map JStr l) = Some l.
Proof. induction l as [| x l IH]; simpl; [reflexivity | now rewrite IH]. Qed.

Lemma plain_strings (l : list string) : forallb plain (map JStr l) = true.
Proof. induction l as [| x l IH]; simpl; [reflexivity | exact IH]. Qed.

Lemma plain_encodeProgress (p : MigrationProgress) :
  plain (encodeProgress p) = true.
Proof. simpl. now rewrite plain_strings. Qed.

Lemma decode_encode (p : MigrationProgress) :
  NoDup (migratedFiles p) -> decodeProgress (encodeProgress p) = Loaded p.
Proof.
  intros Hnd. unfold decodeProgress, encodeProgress. cbn [getField fold_left fst snd String.eqb Ascii.eqb Bool.eqb].
  simpl. rewrite asStrings_map, (Set_of_NoDup _ Hnd). now destruct p.
Qed.

(** A completed save is read back as the record that was saved. *)
Theorem load_after_save (cfg : Config) (d : Disk) (p : MigrationProgress)
  (t : string) :
  NoDup (migratedFiles p) ->
  loadProgress cfg (writeFile (progressFile cfg) (serialize p) d) t = Loaded p.
Proof.
  intros Hnd. unfold loadProgress, writeFile. rewrite String.eqb_refl.
  unfold serialize. rewrite (JSON_parse_stringify _ (plain_encodeProgress p)).
  now apply decode_encode.
Qed.

Local Open Scope list_scope.

(** ** The per-file task *)

Lemma classify_cases (o : option string) :
  (classify o = Success <-> o = None)
  /\ (classify o = Duplicate <->
      exists m, o = Some m /\ isDuplicateMsg m = true)
  /\ (classify o = PermanentSkip <->
      exists m, o = Some m /\ isDuplicateMsg m = false /\ isTooLargeMsg m = true)
  /\ (classify o = TransientFailure <->
      exists m, o = Some m /\ isDuplicateMsg m = false /\ isTooLargeMsg m = false).
Proof.
  destruct o as [m |]; simpl.
  - destruct (isDuplicateMsg m) eqn:D, (isTooLargeMsg m) eqn:L;
      repeat split; intros H; try discriminate; try (exists m; auto);
      match goal with
      | E : exists _, _ |- _ =>
          destruct E as [m' [Hm E]]; injection Hm as <-; intuition congruence
      | _ => idtac
      end.
  - repeat split; intros H; try discriminate; try reflexivity;
      destruct H as [m' [Hm _]]; discriminate.
Qed.

(** C2.  Every outcome of a task falls in exactly one bucket, by the rules
    taken in order: no error is a Success, a duplicate signal a Duplicate
    (both: completed + 1, name added and counted), a size signal a
    PermanentSkip (failed + 1, error record with the FILE_TOO_LARGE prefix
    appended, name added), anything else a TransientFailure (failed + 1,
    error record appended, the set of names untouched).  The object the
    task returns shows the same bucket. *)
Theorem classification_buckets (cfg : Config) (w : World) (f : string)
  (st : RunState) :
  let o := thrownMessage (attempt w f) in
  let st' := fst (processFile cfg w f st) in
  let r := snd (processFile cfg w f st) in
  bucketOf r = classify o
  /\ (classify o = Success <-> o = None)
  /\ (classify o = Duplicate <->
      exists m, o = Some m /\ isDuplicateMsg m = true)
  /\ (classify o = PermanentSkip <->
      exists m, o = Some m /\ isDuplicateMsg m = false /\ isTooLargeMsg m = true)
  /\ (classify o = TransientFailure <->
      exists m, o = Some m /\ isDuplicateMsg m = false /\ isTooLargeMsg m = false)
  /\ match classify o with
     | Success | Duplicate =>
         completed (stats st') = completed (stats st) + 1
         /\ failed (stats st') = failed (stats st)
         /\ errors (stats st') = errors (stats st)
         /\ migratedFiles (progress st') = Set_add (migratedFiles (progress st)) f
         /\ migratedCount (progress st') = migratedCount (progress st) + 1
         /\ In f (migratedFiles (progress st'))
     | PermanentSkip =>
         completed (stats st') = completed (stats st)
         /\ failed (stats st') = failed (stats st) + 1
         /\ (exists m, o = Some m
             /\ errors (stats st') =
                (errors (stats st)
                 ++ [{| file := f; error := ("FILE_TOO_LARGE: " ++ m)%string;
                        timestamp := errorTime w f |}]))
         /\ migratedFiles (progress st') = Set_add (migratedFiles (progress st)) f
         /\ migratedCount (progress st') = migratedCount (progress st)
         /\ In f (migratedFiles (progress st'))
     | TransientFailure =>
         completed (stats st') = completed (stats st)
         /\ failed (stats st') = failed (stats st) + 1
         /\ (exists m, o = Some m
             /\ errors (stats st') =
                (errors (stats st)
                 ++ [{| file := f; error := m; timestamp := errorTime w f |}]))
         /\ migratedFiles (progress st') = migratedFiles (progress st)
         /\ migratedCount (progress st') = migratedCount (progress st)
     end.
Proof.
  intros o st' r.
  split; [| split; [apply classify_cases | split; [apply classify_cases |
            split; [apply classify_cases | split; [apply classify_cases |]]]]].
  - subst o r. unfold processFile, onError, bucketOf.
    destruct (attempt w f) as [m | m | cid]; simpl;
      try destruct (isDuplicateMsg m); try destruct (isTooLargeMsg m);
      reflexivity.
  - subst o st'. unfold processFile, onError.
    destruct (attempt w f) as [m | m | cid]; simpl;
      try (destruct (isDuplicateMsg m); [| destruct (isTooLargeMsg m)]); simpl;
      repeat split; try reflexivity; try apply Set_add_member;
      try (eexists; split; reflexivity).
Qed.

(** ** Configuration *)

Lemma CONFIG_setEnv_privateKey (v : option string) (w : World) :
  privateKey (CONFIG (setEnv "PROVIDER_ID" v w)) = privateKey (CONFIG w).
Proof. reflexivity. Qed.

Lemma CONFIG_providerId (w : World) :
  providerId (CONFIG w) = parseInt (orDefault (env w "PROVIDER_ID") "0").
Proof. reflexivity. Qed.

Lemma providerId_unset (w : World) :
  providerId (CONFIG (setEnv "PROVIDER_ID" None w)) = Num 0.
Proof. reflexivity. Qed.

Lemma providerId_falsy (w : World) (s : string) :
  env w "PROVIDER_ID" = Some s ->
  parseInt s = Num 0 \/ parseInt s = NaN ->
  falsyNum (providerId (CONFIG w)) = true.
Proof.
  intros He Hp. rewrite CONFIG_providerId, He.
  destruct s as [| c r]; [reflexivity |].
  simpl orDefault. destruct Hp as [-> | ->]; reflexivity.
Qed.

Lemma main_config_missing (fuel : nat) (w : World) :
  falsyStr (privateKey (CONFIG w)) = true
  \/ falsyNum (providerId (CONFIG w)) = true ->
  exists msg,
    main fuel w = Some (fatal (ConfigError msg) [] (disk w) stats0 None)
    /\ (msg = "PRIVATE_KEY environment variable is required"%string
        \/ msg = "PROVIDER_ID environment variable is required"%string)
    /\ (falsyStr (privateKey (CONFIG w)) = false ->
        msg = "PROVIDER_ID environment variable is required"%string).
Proof.
  intros H. unfold main. cbv zeta.
  destruct (falsyStr (privateKey (CONFIG w))) eqn:K.
  - eexists. split; [reflexivity |]. split; [now left | discriminate].
  - destruct H as [H | H]; [discriminate |]. rewrite H.
    eexists. split; [reflexivity |]. split; [now right | reflexivity].
Qed.

(** C10.  A PROVIDER_ID that parses to zero or to NaN is treated exactly as
    an absent one: the run is the run without the variable, and it throws
    the configuration error at once, before any listing of the source or
    any upload, and the process exits with code 1. *)
Theorem provider_id_zero_or_nan_is_missing (w : World) (s : string)
  (fuel : nat) :
  env w "PROVIDER_ID" = Some s ->
  parseInt s = Num 0 \/ parseInt s = NaN ->
  main fuel w = main fuel (setEnv "PROVIDER_ID" None w)
  /\ exists fin msg,
       main fuel w = Some fin
       /\ status fin = Exited 1
       /\ thrown fin = Some (ConfigError msg)
       /\ finalTrace fin = [Log (LFatal msg)]
       /\ finalDisk fin = disk w
       /\ (falsyStr (privateKey (CONFIG w)) = false ->
           msg = "PROVIDER_ID environment variable is required"%string).
Proof.
  intros He Hp.
  pose proof (providerId_falsy w s He Hp) as Hf.
  destruct (main_config_missing fuel w (or_intror Hf)) as [msg [Hm [_ Hmsg]]].
  split.
  - unfold main. cbv zeta.
    rewrite CONFIG_setEnv_privateKey, providerId_unset, Hf.
    destruct (falsyStr (privateKey (CONFIG w))); reflexivity.
  - exists (fatal (ConfigError msg) [] (disk w) stats0 None), msg.
    repeat split; try assumption.
Qed.

(** ** The steps of main before the batches *)

Lemma main_reaches (fuel : nat) (w : World) (p0 : MigrationProgress)
  (entries : list string) :
  ReachesEnumeration w p0 entries -> main fuel w = migrate fuel w p0 entries.
Proof.
  intros (Hk & Hp & Hl & Hs & Hc & Hr). unfold main. cbv zeta.
  now rewrite Hk, Hp, Hl, Hs, Hc, Hr.
Qed.

Lemma decodeProgress_throws (v : JSON) (e : Exn) :
  decodeProgress v = LoadThrows e -> e = JsTypeError.
Proof.
  unfold decodeProgress. intros H.
  repeat match type of H with
         | context [match ?x with _ => _ end] => destruct x
         end; congruence.
Qed.

Lemma loadProgress_throws (cfg : Config) (d : Disk) (t : string) (e : Exn) :
  loadProgress cfg d t = LoadThrows e ->
  exists data, d (progressFile cfg) = Some data
    /\ ((e = JsonSyntaxError /\ JSON_parse data = None)
        \/ (e = JsTypeError
            /\ exists v, JSON_parse data = Some v
                         /\ decodeProgress v = LoadThrows JsTypeError)).
Proof.
  unfold loadProgress. destruct (d (progressFile cfg)) as [data |]; [| discriminate].
  intros H. exists data. split; [reflexivity |].
  destruct (JSON_parse data) as [v |].
  - right. pose proof (decodeProgress_throws v e H) as ->. eauto.
  - left. split; congruence.
Qed.

Lemma loadProgress_unparsable (cfg : Config) (d : Disk) (t data : string) :
  d (progressFile cfg) = Some data -> JSON_parse data = None ->
  loadProgress cfg d t = LoadThrows JsonSyntaxError.
Proof. intros Hd Hp. unfold loadProgress. now rewrite Hd, Hp. Qed.

(** C7.  loadProgress returns the zero record when there is no progress
    file; when the file is there and does not parse it throws, main lets
    the error through, and the process exits with code 1 having written
    nothing: the file on disk is the one that was there. *)
Theorem load_zero_or_fatal (w : World) :
  (disk w (progressFile (CONFIG w)) = None ->
   loadProgress (CONFIG w) (disk w) (loadTime w)
   = Loaded (zeroProgress (loadTime w)))
  /\ (forall data fuel,
        disk w (progressFile (CONFIG w)) = Some data ->
        JSON_parse data = None ->
        loadProgress (CONFIG w) (disk w) (loadTime w) = LoadThrows JsonSyntaxError
        /\ exists fin e,
             main fuel w = Some fin
             /\ status fin = Exited 1
             /\ thrown fin = Some e
             /\ (falsyStr (privateKey (CONFIG w)) = false ->
                 falsyNum (providerId (CONFIG w)) = false ->
                 e = JsonSyntaxError)
             /\ finalDisk fin = disk w
             /\ savesOf (finalTrace fin) = []
             /\ writesOf (finalTrace fin) = []
             /\ uploadsOf (finalTrace fin) = []).
Proof.
  split.
  - intros H. unfold loadProgress. now rewrite H.
  - intros data fuel Hd Hp.
    pose proof (loadProgress_unparsable _ _ (loadTime w) _ Hd Hp) as Hl.
    split; [assumption |].
    unfold main. cbv zeta.
    destruct (falsyStr (privateKey (CONFIG w))); [| destruct (falsyNum (providerId (CONFIG w)))];
      [| | rewrite Hl];
      eexists; eexists; (split; [reflexivity |]); simpl;
      repeat split; try reflexivity; intros; congruence.
Qed.

(** C8 (amended).  When nothing remains, main prints the line that all files
    are already migrated and returns: no upload, no write, no final report;
    the process exits with code 0.  The statistics at that point are the
    number of candidates, nothing completed, nothing failed, and as skipped
    the count of the loaded record. *)
Theorem nothing_remaining_returns_early (w : World) (p0 : MigrationProgress)
  (entries : list string) (fuel : nat) :
  ReachesEnumeration w p0 entries ->
  remainingOf p0 (pieceFilesOf entries) = [] ->
  exists fin,
    main fuel w = Some fin
    /\ status fin = Exited 0
    /\ finalTrace fin =
       [Log (resumeLine p0); Readdir (sourcePath (CONFIG w));
        Log (LScan (Z.of_nat (length (pieceFilesOf entries))) (migratedCount p0) 0);
        Log LAllAlreadyMigrated]
    /\ uploadsOf (finalTrace fin) = []
    /\ writesOf (finalTrace fin) = []
    /\ existsb isReportLine (finalTrace fin) = false
    /\ finalDisk fin = disk w
    /\ finalProgress fin = Some p0
    /\ total (finalStats fin) = Z.of_nat (length (pieceFilesOf entries))
    /\ completed (finalStats fin) = 0
    /\ failed (finalStats fin) = 0
    /\ (0 <= migratedCount p0 -> skipped (finalStats fin) = migratedCount p0).
Proof.
  intros Hre Hrem. rewrite (main_reaches fuel w p0 entries Hre).
  unfold migrate. cbv zeta. rewrite Hrem. simpl Nat.eqb. cbv iota.
  eexists. split; [reflexivity |].
  unfold finish, startState; simpl. rewrite Hrem. simpl.
  unfold resumeStats, resumeLine.
  destruct (migratedCount p0 >? 0) eqn:E; simpl;
    repeat split; try reflexivity.
  intros Hge. rewrite Z.gtb_ltb in E. apply Z.ltb_ge in E. lia.
Qed.

(** ** Cutting the batches *)

Lemma In_firstn {A : Type} (n : nat) (l : list A) (x : A) :
  In x (firstn n l) -> In x l.
Proof.
  intros H. rewrite <- (firstn_skipn n l). apply in_or_app. now left.
Qed.

Lemma In_skipn {A : Type} (n : nat) (l : list A) (x : A) :
  In x (skipn n l) -> In x l.
Proof.
  intros H. rewrite <- (firstn_skipn n l). apply in_or_app. now right.
Qed.

Lemma slice_incl {A : Type} (l : list A) (s e : JSNum) : incl (slice l s e) l.
Proof.
  unfold slice. intros x Hx.
  apply In_firstn in Hx. revert Hx. apply In_skipn.
Qed.

Lemma slice_forward (l : list string) (i b : Z) :
  0 <= i -> 0 < b ->
  slice l (Num i) (Num (i + b)) ++ skipn (Z.to_nat (i + b)) l
  = skipn (Z.to_nat i) l.
Proof.
  intros Hi Hb. unfold slice, relIndex. simpl toInteger.
  destruct (Z.ltb_spec i 0) as [? | _]; [lia |].
  destruct (Z.ltb_spec (i + b) 0) as [? | _]; [lia |].
  set (len := Z.of_nat (length l)).
  destruct (Z.le_gt_cases len i) as [Hle | Hgt].
  - (* the index is past the end *)
    rewrite !skipn_all2 by (subst len; lia).
    now rewrite firstn_nil.
  - replace (Z.to_nat (Z.min i len)) with (Z.to_nat i) by lia.
    destruct (Z.le_gt_cases len (i + b)) as [Hle' | Hgt'].
    + rewrite (skipn_all2 l (n := Z.to_nat (i + b))) by (subst len; lia).
      rewrite app_nil_r. apply firstn_all2.
      rewrite length_skipn. subst len. lia.
    + replace (Z.to_nat (Z.min (i + b) len - Z.min i len)) with (Z.to_nat b) by lia.
      replace (Z.to_nat (i + b)) with (Z.to_nat b + Z.to_nat i)%nat by lia.
      rewrite <- skipn_skipn. apply firstn_skipn.
Qed.

Lemma mkBatches_concat_pos (b : Z) (remaining : list string) :
  0 < b ->
  forall fuel i batches,
    0 <= i ->
    mkBatches fuel (Num b) remaining (Num i) = Some batches ->
    concat batches = skipn (Z.to_nat i) remaining.
Proof.
  intros Hb. induction fuel as [| k IH]; intros i batches Hi H; [discriminate |].
  simpl in H. destruct (Z.ltb_spec i (Z.of_nat (length remaining))) as [Hlt | Hge].
  - destruct (mkBatches k (Num b) remaining (Num (i + b))) as [rest |] eqn:E;
      [| discriminate].
    injection H as <-. simpl. rewrite (IH (i + b) rest) by (assumption || lia).
    now apply slice_forward.
  - injection H as <-. simpl. symmetry. apply skipn_all2. lia.
Qed.

Lemma mkBatches_total_pos (b : Z) (remaining : list string) :
  0 < b ->
  forall fuel i,
    0 <= i ->
    Z.max 0 (Z.of_nat (length remaining) - i) < Z.of_nat fuel ->
    exists batches, mkBatches fuel (Num b) remaining (Num i) = Some batches.
Proof.
  intros Hb. induction fuel as [| k IH]; intros i Hi Hf; [lia |].
  simpl. destruct (Z.ltb_spec i (Z.of_nat (length remaining))) as [Hlt | Hge].
  - destruct (IH (i + b)) as [rest Hrest]; [lia | lia |].
    rewrite Hrest. eauto.
  - eauto.
Qed.

Lemma mkBatches_nan (fuel : nat) (remaining : list string)
  (batches : list (list string)) :
  mkBatches fuel NaN remaining (Num 0) = Some batches -> concat batches = [].
Proof.
  destruct fuel as [| k]; [discriminate |]. simpl.
  destruct (0 <? Z.of_nat (length remaining)).
  - destruct k as [| k]; [discriminate |]. simpl. intros H. injection H as <-.
    unfold slice. simpl. rewrite Z.sub_diag. simpl. reflexivity.
  - intros H. now injection H as <-.
Qed.

Lemma mkBatches_total_nan (remaining : list string) :
  exists batches, mkBatches 2 NaN remaining (Num 0) = Some batches.
Proof.
  simpl. destruct (0 <? Z.of_nat (length remaining)); eauto.
Qed.

(** With a batch size of zero or less the loop never ends. *)
Lemma mkBatches_diverges (b : Z) (remaining : list string) :
  b <= 0 ->
  forall fuel i,
    i < Z.of_nat (length remaining) ->
    mkBatches fuel (Num b) remaining (Num i) = None.
Proof.
  intros Hb. induction fuel as [| k IH]; intros i Hi; [reflexivity |].
  simpl. destruct (Z.ltb_spec i (Z.of_nat (length remaining))) as [_ | ?]; [| lia].
  rewrite IH by lia. reflexivity.
Qed.

Lemma mkBatches_incl (bs : JSNum) (remaining : list string) :
  forall fuel i batches,
    mkBatches fuel bs remaining i = Some batches ->
    forall batch, In batch batches -> incl batch remaining.
Proof.
  induction fuel as [| k IH]; intros i batches H; [discriminate |].
  simpl in H.
  destruct (numLt i (Num (Z.of_nat (length remaining)))).
  - destruct (mkBatches k bs remaining (numAdd i bs)) as [rest |] eqn:E;
      [| discriminate].
    injection H as <-. intros batch [<- | Hin].
    + apply slice_incl.
    + eapply IH; eassumption.
  - injection H as <-. intros batch [].
Qed.

(** The batches, put end to end, are the remaining files, or nothing at all
    when the batch size is NaN. *)
Lemma mkBatches_concat (fuel : nat) (bs : JSNum) (remaining : list string)
  (batches : list (list string)) :
  mkBatches fuel bs remaining (Num 0) = Some batches ->
  concat batches = remaining \/ (bs = NaN /\ concat batches = []).
Proof.
  intros H. destruct bs as [| b].
  - right. split; [reflexivity |]. eapply mkBatches_nan; eassumption.
  - left. destruct (Z.lt_ge_cases 0 b) as [Hpos | Hneg].
    + now rewrite (mkBatches_concat_pos b remaining Hpos fuel 0 batches (Z.le_refl 0) H).
    + destruct remaining as [| f rest].
      * destruct fuel; [discriminate |]. simpl in H. now injection H as <-.
      * rewrite (mkBatches_diverges b (f :: rest) Hneg fuel 0) in H;
          [discriminate | simpl length; lia].
Qed.

Lemma mkBatches_total (w : World) (remaining : list string) :
  LoopEnds w ->
  exists fuel batches,
    mkBatches fuel (batchSize (CONFIG w)) remaining (Num 0) = Some batches.
Proof.
  unfold LoopEnds. destruct (batchSize (CONFIG w)) as [| b]; intros H.
  - exists 2%nat. apply mkBatches_total_nan.
  - exists (S (length remaining)).
    apply (mkBatches_total_pos b remaining H); lia.
Qed.

(** ** Exit codes *)

Lemma migrate_status (fuel : nat) (w : World) (p0 : MigrationProgress)
  (entries : list string) (fin : Final) :
  migrate fuel w p0 entries = Some fin ->
  (status fin = Exited 0 /\ thrown fin = None
   /\ (remainingOf p0 (pieceFilesOf entries) = [] \/ pLimitOk w = true))
  \/ (status fin = Exited 1 /\ thrown fin = Some LimitError /\ pLimitOk w = false).
Proof.
  unfold migrate. cbv zeta.
  destruct (remainingOf p0 (pieceFilesOf entries)) as [| f rest] eqn:R;
    cbn [length Nat.eqb].
  - intros H. injection H as <-. left. auto.
  - destruct (pLimitOk w) eqn:L; cbn [negb].
    + destruct (mkBatches fuel (batchSize (CONFIG w)) (f :: rest) (Num 0));
        intros H; [| discriminate].
      injection H as <-. left. auto.
    + intros H. injection H as <-. right. auto.
Qed.

Lemma migrate_ends (w : World) (p0 : MigrationProgress) (entries : list string) :
  LoopEnds w ->
  remainingOf p0 (pieceFilesOf entries) = [] \/ pLimitOk w = true ->
  exists fuel fin,
    migrate fuel w p0 entries = Some fin
    /\ status fin = Exited 0 /\ thrown fin = None.
Proof.
  intros Hends Hok.
  destruct (mkBatches_total w (remainingOf p0 (pieceFilesOf entries)) Hends)
    as [fuel [batches Hb]].
  exists fuel. unfold migrate. cbv zeta.
  destruct (remainingOf p0 (pieceFilesOf entries)) as [| f rest] eqn:R;
    cbn [length Nat.eqb].
  - eexists. repeat split.
  - destruct Hok as [? | ->]; [discriminate |]. cbn [negb].
    rewrite Hb. eexists. repeat split.
Qed.

(** C6 (amended).  The exit code does not depend on what the uploads do:
    when no step of main throws and the batch loop ends, the process exits
    with code 0 whatever the outcome of each task.  It exits with code 1
    only when main throws, and main throws on a missing PRIVATE_KEY or
    PROVIDER_ID, on a progress file that does not load, when the SDK, the
    storage context or the limiter cannot be set up, or when the source
    directory cannot be listed. *)
Theorem item_failures_do_not_decide_exit (w : World) :
  (SetupOk w -> LoopEnds w ->
   forall a, exists fuel fin,
     main fuel (withAttempt a w) = Some fin
     /\ status fin = Exited 0 /\ thrown fin = None)
  /\ (forall fuel fin,
        main fuel w = Some fin -> status fin = Exited 1 ->
        exists e, thrown fin = Some e /\ Cause w e)
  /\ (forall fuel fin,
        main fuel w = Some fin -> status fin = Exited 0 -> SetupOk w).
Proof.
  split; [| split].
  - intros (p0 & entries & Hre & Hok) Hends a.
    assert (Hre' : ReachesEnumeration (withAttempt a w) p0 entries) by exact Hre.
    destruct (migrate_ends (withAttempt a w) p0 entries Hends Hok)
      as (fuel & fin & Hm & Hs & Ht).
    exists fuel, fin. rewrite (main_reaches fuel _ p0 entries Hre'). auto.
  - intros fuel fin. unfold main. cbv zeta.
    destruct (falsyStr (privateKey (CONFIG w))) eqn:K.
    { intros H _. injection H as <-. eexists. split; [reflexivity |]. now left. }
    destruct (falsyNum (providerId (CONFIG w))) eqn:P.
    { intros H _. injection H as <-. eexists. split; [reflexivity |]. now right. }
    destruct (loadProgress (CONFIG w) (disk w) (loadTime w)) as [p0 | e | v] eqn:L.
    + destruct (synapseCreate w) eqn:S; simpl.
      2:{ intros H _. injection H as <-. eexists. split; [reflexivity |]. now left. }
      destruct (createContext w) eqn:C; simpl.
      2:{ intros H _. injection H as <-. eexists. split; [reflexivity |]. now right. }
      destruct (readdir w) as [entries |] eqn:R.
      2:{ intros H _. injection H as <-. eexists. split; [reflexivity |]. exact R. }
      intros H Hs. apply migrate_status in H.
      destruct H as [(H0 & _) | (_ & Ht & Hl)]; [congruence |].
      exists LimitError. split; assumption.
    + intros H _. injection H as <-. exists e. split; [reflexivity |].
      apply loadProgress_throws in L.
      destruct L as [data [Hd [[-> Hp] | [-> [v [Hp Hv]]]]]]; simpl; eauto.
    + intros H Hs. injection H as <-. discriminate.
  - intros fuel fin. unfold main. cbv zeta.
    destruct (falsyStr (privateKey (CONFIG w))) eqn:K.
    { intros H Hs. injection H as <-. discriminate. }
    destruct (falsyNum (providerId (CONFIG w))) eqn:P.
    { intros H Hs. injection H as <-. discriminate. }
    destruct (loadProgress (CONFIG w) (disk w) (loadTime w)) as [p0 | e | v] eqn:L;
      try (intros H Hs; injection H as <-; discriminate).
    destruct (synapseCreate w) eqn:S; simpl;
      try (intros H Hs; injection H as <-; discriminate).
    destruct (createContext w) eqn:C; simpl;
      try (intros H Hs; injection H as <-; discriminate).
    destruct (readdir w) as [entries |] eqn:R;
      try (intros H Hs; injection H as <-; discriminate).
    intros H Hs. apply migrate_status in H.
    destruct H as [(_ & _ & Hok) | (H1 & _)]; [| congruence].
    exists p0, entries. split; [| assumption].
    repeat split; assumption.
Qed.

(** ** What a task, a batch and the loop add to the trace *)

Lemma uploadsOf_app (a b : list Event) :
  uploadsOf (a ++ b) = uploadsOf a ++ uploadsOf b.
Proof.
  induction a as [| e a IH]; [reflexivity |].
  destruct e; simpl; now rewrite IH.
Qed.

Lemma savesOf_app (a b : list Event) :
  savesOf (a ++ b) = savesOf a ++ savesOf b.
Proof.
  induction a as [| e a IH]; [reflexivity |].
  destruct e; simpl; now rewrite IH.
Qed.


Lemma In_uploadsOf (tr : list Event) (f : string) :
  In f (uploadsOf tr) <-> In (Upload f) tr.
Proof.
  induction tr as [| e tr IH]; [reflexivity |].
  destruct e; simpl; rewrite IH; intuition (try discriminate; try congruence).
Qed.

Lemma In_savesOf (tr : list Event) (p : MigrationProgress) :
  In p (savesOf tr) <-> In (SaveProgress p) tr.
Proof.
  induction tr as [| e tr IH]; [reflexivity |].
  destruct e; simpl; rewrite IH; intuition (try discriminate; try congruence).
Qed.

Lemma In_writesOf (tr : list Event) (path data : string) :
  In (path, data) (writesOf tr) <-> In (WriteFile path data) tr.
Proof.
  induction tr as [| e tr IH]; [reflexivity |].
  destruct e; simpl; rewrite IH; intuition (try discriminate; try congruence).
Qed.

Ltac line_cases :=
  let e := fresh "e" in
  let He := fresh "He" in
  let Hf := fresh "Hf" in
  intros e He Hf; simpl in He;
  repeat (destruct He as [<- | He]; [try discriminate Hf | ]);
  try contradiction.

Ltac delta_goal A D L :=
  unfold outcomeClass; rewrite ?A; simpl; rewrite ?D, ?L; simpl;
  rewrite ?length_app; simpl;
  first [ reflexivity | lia | solve [line_cases; eauto] ].

Lemma processFile_delta (cfg : Config) (w : World) (f : string) (st : RunState) :
  exists delta, TaskDelta w f st (fst (processFile cfg w f st)) delta.
Proof.
  unfold processFile, onError.
  destruct (attempt w f) as [m | m | cid] eqn:A.
  - destruct (isDuplicateMsg m) eqn:D; [| destruct (isTooLargeMsg m) eqn:L];
      eexists; (split; [simpl; reflexivity | ..]); delta_goal A D L.
  - destruct (isDuplicateMsg m) eqn:D; [| destruct (isTooLargeMsg m) eqn:L];
      eexists; (split; [simpl; rewrite <- app_assoc; reflexivity | ..]);
      delta_goal A D L.
  - destruct (remIsZero (completed (countCompleted (stats st))) (logInterval cfg))
      eqn:D;
      eexists; (split; [simpl; try rewrite <- app_assoc; reflexivity | ..]);
      delta_goal A D D.
Qed.

Section RunInvariant.
Variables (cfg : Config) (w : World).
Variable Inv : RunState -> Prop.
Variable allowed : list string.
Hypothesis Inv_task :
  forall f st, In f allowed -> Inv st -> Inv (fst (processFile cfg w f st)).
Hypothesis Inv_start :
  forall i b st, Inv st -> Inv (startBatch i b st).
Hypothesis Inv_checkpoint :
  forall i st, Inv st -> Inv (checkpoint cfg w i st).

Lemma processBatch_invariant (batch : list string) :
  forall st, incl batch allowed -> Inv st -> Inv (processBatch cfg w batch st).
Proof.
  unfold processBatch. induction batch as [| f batch IH]; intros st Hin Hst.
  - exact Hst.
  - simpl. apply IH.
    + intros x Hx. apply Hin. now right.
    + apply Inv_task; [apply Hin; now left | assumption].
Qed.

Lemma runBatches_invariant (batches : list (list string)) :
  forall i st,
    (forall b, In b batches -> incl b allowed) ->
    Inv st -> Inv (runBatches cfg w i batches st).
Proof.
  induction batches as [| b batches IH]; intros i st Hin Hst.
  - exact Hst.
  - simpl. apply IH.
    + intros b' Hb'. apply Hin. now right.
    + apply Inv_checkpoint, processBatch_invariant.
      * apply Hin. now left.
      * now apply Inv_start.
Qed.
End RunInvariant.

Lemma resumeStats_quiet (p0 : MigrationProgress) :
  failed (resumeStats p0) = 0 /\ completed (resumeStats p0) = 0
  /\ errors (resumeStats p0) = [].
Proof. unfold resumeStats. destruct (migratedCount p0 >? 0); auto. Qed.

(** main ends before the first batch, or it runs the batches cut from the
    remaining files and reports. *)
Lemma main_shape (fuel : nat) (w : World) (fin : Final) :
  main fuel w = Some fin ->
  QuietFinal w fin
  \/ exists p0 entries batches,
       ReachesEnumeration w p0 entries
       /\ remainingOf p0 (pieceFilesOf entries) <> []
       /\ mkBatches fuel (batchSize (CONFIG w))
            (remainingOf p0 (pieceFilesOf entries)) (Num 0) = Some batches
       /\ fin = finish (report (CONFIG w)
                          (runBatches (CONFIG w) w 0 batches
                             (startState w p0 entries))).
Proof.
  assert (Q : forall fin', fin' = fin -> failed (finalStats fin') = 0 ->
              completed (finalStats fin') = 0 ->
              uploadsOf (finalTrace fin') = [] -> savesOf (finalTrace fin') = [] ->
              writesOf (finalTrace fin') = [] ->
              existsb isFailureLine (finalTrace fin') = false ->
              existsb isReportLine (finalTrace fin') = false ->
              finalDisk fin' = disk w -> QuietFinal w fin).
  { intros fin' -> ? ? ? ? ? ? ? ?. repeat split; assumption. }
  unfold main. cbv zeta.
  destruct (falsyStr (privateKey (CONFIG w))) eqn:K.
  { intros H. injection H as H. left. eapply Q; [exact H | reflexivity ..]. }
  destruct (falsyNum (providerId (CONFIG w))) eqn:P.
  { intros H. injection H as H. left. eapply Q; [exact H | reflexivity ..]. }
  destruct (loadProgress (CONFIG w) (disk w) (loadTime w)) as [p0 | e | v] eqn:L;
    try (intros H; injection H as H; left; eapply Q; [exact H | reflexivity ..]).
  pose proof (resumeStats_quiet p0) as (Hf & Hc & _).
  assert (Hl : isFailureLine (Log (resumeLine p0)) = false
               /\ isReportLine (Log (resumeLine p0)) = false)
    by (unfold resumeLine; destruct (migratedCount p0 >? 0); auto).
  destruct Hl as [Hl1 Hl2]. simpl in Hl1, Hl2.
  destruct (synapseCreate w) eqn:S; cbn [negb];
    [| intros H; injection H as H; left;
       eapply Q; [exact H | simpl; rewrite ?Hl1, ?Hl2; first [assumption | reflexivity] ..]].
  destruct (createContext w) eqn:C; cbn [negb];
    [| intros H; injection H as H; left;
       eapply Q; [exact H | simpl; rewrite ?Hl1, ?Hl2; first [assumption | reflexivity] ..]].
  destruct (readdir w) as [entries |] eqn:R;
    [| intros H; injection H as H; left;
       eapply Q; [exact H | simpl; rewrite ?Hl1, ?Hl2; first [assumption | reflexivity] ..]].
  unfold migrate. cbv zeta.
  destruct (remainingOf p0 (pieceFilesOf entries)) as [| f rest] eqn:Rem;
    cbn [length Nat.eqb].
  { intros H. injection H as H. left.
    eapply Q; [exact H | simpl; rewrite ?Hl1, ?Hl2; first [assumption | reflexivity] ..]. }
  destruct (pLimitOk w) eqn:Lim; cbn [negb];
    [| intros H; injection H as H; left;
       eapply Q; [exact H | simpl; rewrite ?Hl1, ?Hl2; first [assumption | reflexivity] ..]].
  destruct (mkBatches fuel (batchSize (CONFIG w)) (f :: rest) (Num 0))
    as [batches |] eqn:B; intros H; [| discriminate].
  injection H as <-. right. exists p0, entries, batches.
  rewrite Rem. repeat split; try assumption. discriminate.
Qed.

(** ** The failure lines and the error log *)

Lemma filter_nonempty {A : Type} (p : A -> bool) (l : list A) :
  (0 < length (filter p l))%nat <-> exists x, In x l /\ p x = true.
Proof.
  split.
  - destruct (filter p l) as [| x r] eqn:E; simpl; [lia |].
    intros _. exists x. apply filter_In. rewrite E. now left.
  - intros [x Hx]. apply filter_In in Hx.
    destruct (filter p l); [contradiction | simpl; lia].
Qed.

Lemma FailInv_task (cfg : Config) (w : World) (f : string) (st : RunState) :
  FailInv w st -> FailInv w (fst (processFile cfg w f st)).
Proof.
  intros (Hn & Hw & Hl).
  destruct (processFile_delta cfg w f st) as [delta D].
  repeat split.
  - rewrite (td_failed _ _ _ _ _ D), (td_trace _ _ _ _ _ D), Hn.
    rewrite filter_app, length_app. lia.
  - intros path data. rewrite (td_trace _ _ _ _ _ D), in_app_iff.
    intros [H | H]; [now apply (Hw path data) |].
    apply In_writesOf in H. rewrite (td_writes _ _ _ _ _ D) in H. contradiction.
  - intros e. rewrite (td_trace _ _ _ _ _ D), in_app_iff.
    intros [H | H] He; [now apply Hl |].
    exists f. now apply (td_lines _ _ _ _ _ D).
Qed.

Lemma FailInv_emit_log (w : World) (l : Line) (st : RunState) :
  isFailureLine (Log l) = false -> FailInv w st -> FailInv w (emit (Log l) st).
Proof.
  intros Hq (Hn & Hw & Hl). unfold emit. repeat split; cbn [trace stats].
  - rewrite filter_app, length_app. cbn [filter]. rewrite Hq. simpl. lia.
  - intros path data. rewrite in_app_iff. simpl.
    intros [H | [H | []]]; [now apply (Hw path data) | discriminate].
  - intros e. rewrite in_app_iff. cbn [In].
    intros [H | [<- | []]] He; [now apply Hl | congruence].
Qed.

Lemma FailInv_save (w : World) (st : RunState) :
  FailInv w st -> FailInv w (saveProgress (CONFIG w) st).
Proof.
  intros (Hn & Hw & Hl). unfold saveProgress. repeat split; simpl.
  - rewrite filter_app, length_app. simpl. lia.
  - intros path data. rewrite in_app_iff. simpl.
    intros [H | [H | [H | []]]]; [now apply (Hw path data) | discriminate |].
    injection H as <- _. discriminate.
  - intros e. rewrite in_app_iff. simpl.
    intros [H | [<- | [<- | []]]] He; [now apply Hl | discriminate ..].
Qed.

Lemma FailInv_stamp (w : World) (t : string) (st : RunState) :
  FailInv w st -> FailInv w (stamp t st).
Proof. intros H. exact H. Qed.

Lemma FailInv_run (w : World) (batches : list (list string)) (st : RunState) :
  FailInv w st -> FailInv w (runBatches (CONFIG w) w 0 batches st).
Proof.
  intros H.
  apply (runBatches_invariant (CONFIG w) w (FailInv w) (concat batches)).
  - intros f s _. apply FailInv_task.
  - intros i b s. unfold startBatch. now apply FailInv_emit_log.
  - intros i s Hs. unfold checkpoint.
    apply FailInv_emit_log; [reflexivity |].
    now apply FailInv_save, FailInv_stamp.
  - intros b Hb x Hx. apply in_concat. eauto.
  - exact H.
Qed.

Lemma FailInv_start (w : World) (p0 : MigrationProgress) (entries : list string) :
  FailInv w (startState w p0 entries).
Proof.
  pose proof (resumeStats_quiet p0) as (Hf & _ & _).
  unfold startState, resumeLine. repeat split; cbn -[pieceFilesOf remainingOf].
  - rewrite Hf. destruct (migratedCount p0 >? 0); reflexivity.
  - intros path data H.
    destruct (migratedCount p0 >? 0);
      repeat (destruct H as [H | H]; [discriminate |]); contradiction.
  - intros e H He.
    destruct (migratedCount p0 >? 0);
      repeat (destruct H as [<- | H]; [discriminate |]); contradiction.
Qed.

Lemma report_effect (cfg : Config) (st : RunState) :
  trace (report cfg st) = trace st ++ reportTail cfg st
  /\ stats (report cfg st) = stats st
  /\ progress (report cfg st) = progress st.
Proof.
  unfold report, reportTail. cbv zeta.
  destruct (failed (stats st) >? 0); simpl;
    repeat rewrite <- app_assoc; simpl; auto.
Qed.

(** ** The remaining files and the uploads *)

Lemma remainingOf_listMinus (p : MigrationProgress) (candidates : list string) :
  remainingOf p candidates = listMinus candidates (migratedFiles p).
Proof.
  unfold remainingOf. induction candidates as [| c rest IH]; [reflexivity |].
  simpl. rewrite IH.
  destruct (in_dec string_dec c (migratedFiles p)) as [Hin | Hout].
  - apply Set_has_true_iff in Hin. now rewrite Hin.
  - apply Set_has_false_iff in Hout. now rewrite Hout.
Qed.

Lemma In_remainingOf (p : MigrationProgress) (candidates : list string)
  (f : string) :
  In f (remainingOf p candidates)
  <-> In f candidates /\ ~ In f (migratedFiles p).
Proof.
  unfold remainingOf. rewrite filter_In, negb_true_iff, Set_has_false_iff.
  reflexivity.
Qed.


Lemma processBatch_uploads (cfg : Config) (w : World) (batch : list string) :
  forall st,
    uploadsOf (trace (processBatch cfg w batch st))
    = uploadsOf (trace st) ++ attempted w batch.
Proof.
  unfold processBatch, attempted.
  induction batch as [| f batch IH]; intros st; simpl.
  - now rewrite app_nil_r.
  - rewrite IH. destruct (processFile_delta cfg w f st) as [delta D].
    rewrite (td_trace _ _ _ _ _ D), uploadsOf_app, (td_uploads _ _ _ _ _ D).
    destruct (isReadFails (attempt w f)); simpl.
    + now rewrite app_nil_r.
    + now rewrite <- app_assoc.
Qed.

Lemma runBatches_uploads (cfg : Config) (w : World)
  (batches : list (list string)) :
  forall i st,
    uploadsOf (trace (runBatches cfg w i batches st))
    = uploadsOf (trace st) ++ attempted w (concat batches).
Proof.
  induction batches as [| b batches IH]; intros i st; simpl.
  - now rewrite app_nil_r.
  - rewrite IH. unfold checkpoint, saveProgress, stamp, emit. cbn [trace].
    rewrite !uploadsOf_app. cbn [uploadsOf]. rewrite !app_nil_r.
    rewrite processBatch_uploads. unfold startBatch, emit. cbn [trace].
    rewrite uploadsOf_app. cbn [uploadsOf]. rewrite app_nil_r.
    unfold attempted. now rewrite filter_app, app_assoc.
Qed.

Lemma startState_uploads (w : World) (p0 : MigrationProgress)
  (entries : list string) :
  uploadsOf (trace (startState w p0 entries)) = [].
Proof.
  unfold startState, resumeLine. cbn -[pieceFilesOf remainingOf].
  reflexivity.
Qed.

Lemma reportTail_uploads (cfg : Config) (st : RunState) :
  uploadsOf (reportTail cfg st) = [].
Proof.
  unfold reportTail. destruct (failed (stats st) >? 0); reflexivity.
Qed.

(** The three ways [migrate] ends. *)
Lemma migrate_shape (fuel : nat) (w : World) (p0 : MigrationProgress)
  (entries : list string) (fin : Final) :
  migrate fuel w p0 entries = Some fin ->
  (remainingOf p0 (pieceFilesOf entries) = []
   /\ status fin = Exited 0 /\ uploadsOf (finalTrace fin) = []
   /\ savesOf (finalTrace fin) = [])
  \/ (status fin = Exited 1 /\ uploadsOf (finalTrace fin) = []
      /\ savesOf (finalTrace fin) = [])
  \/ (exists batches,
        mkBatches fuel (batchSize (CONFIG w))
          (remainingOf p0 (pieceFilesOf entries)) (Num 0) = Some batches
        /\ fin = finish (report (CONFIG w)
                           (runBatches (CONFIG w) w 0 batches
                              (startState w p0 entries)))).
Proof.
  unfold migrate. cbv zeta.
  assert (Hl : uploadsOf [Log (resumeLine p0)] = []
               /\ savesOf [Log (resumeLine p0)] = [])
    by (split; reflexivity).
  destruct (remainingOf p0 (pieceFilesOf entries)) as [| f rest] eqn:R;
    cbn [length Nat.eqb].
  - intros H. injection H as <-. left. repeat split.
  - destruct (pLimitOk w) eqn:L; cbn [negb].
    + destruct (mkBatches fuel (batchSize (CONFIG w)) (f :: rest) (Num 0))
        as [batches |]; intros H; [| discriminate].
      injection H as <-. right. right. exists batches. split; reflexivity.
    + intros H. injection H as <-. right. left. repeat split.
Qed.

(** C4.  The remaining files are the candidates without the names of the
    loaded record, in the order of the candidates; every upload of the run
    is the upload of a remaining file, so a name of the loaded record is
    never submitted again.  With a positive batch size a run that ends with
    code 0 has submitted, once each and in an order of its own, the
    remaining files that it could read. *)
Theorem uploads_only_of_remaining (fuel : nat) (w : World)
  (p0 : MigrationProgress) (entries : list string) (fin : Final) :
  ReachesEnumeration w p0 entries ->
  main fuel w = Some fin ->
  remainingOf p0 (pieceFilesOf entries)
  = listMinus (pieceFilesOf entries) (migratedFiles p0)
  /\ (forall f, In f (remainingOf p0 (pieceFilesOf entries))
                <-> In f (pieceFilesOf entries) /\ ~ In f (migratedFiles p0))
  /\ (forall f, In (Upload f) (finalTrace fin) ->
                In f (remainingOf p0 (pieceFilesOf entries))
                /\ ~ In f (migratedFiles p0))
  /\ (forall b, batchSize (CONFIG w) = Num b -> 0 < b ->
                status fin = Exited 0 ->
                Permutation (uploadsOf (finalTrace fin))
                  (attempted w (remainingOf p0 (pieceFilesOf entries)))).
Proof.
  intros Hre Hm.
  split; [apply remainingOf_listMinus |].
  split; [intros f; apply In_remainingOf |].
  rewrite (main_reaches fuel w p0 entries Hre) in Hm.
  destruct (migrate_shape fuel w p0 entries fin Hm)
    as [(Hrem & _ & Hu & _) | [(Hs & Hu & _) | (batches & Hb & ->)]].
  - split.
    + intros f H. apply In_uploadsOf in H. rewrite Hu in H. contradiction.
    + intros b _ _ _. rewrite Hu, Hrem. apply Permutation_refl.
  - split.
    + intros f H. apply In_uploadsOf in H. rewrite Hu in H. contradiction.
    + intros b _ _ Hs'. congruence.
  - destruct (report_effect (CONFIG w)
                (runBatches (CONFIG w) w 0 batches (startState w p0 entries)))
      as (Ht & _ & _).
    assert (Hu : uploadsOf (finalTrace (finish (report (CONFIG w)
                   (runBatches (CONFIG w) w 0 batches (startState w p0 entries)))))
                 = attempted w (concat batches)).
    { unfold finish. cbn [finalTrace]. rewrite Ht, uploadsOf_app.
      rewrite reportTail_uploads, app_nil_r, runBatches_uploads.
      now rewrite startState_uploads. }
    split.
    + intros f H. apply In_uploadsOf in H. rewrite Hu in H.
      unfold attempted in H. apply filter_In in H. destruct H as [H _].
      apply in_concat in H. destruct H as [batch [Hbatch Hf]].
      pose proof (mkBatches_incl _ _ _ _ _ Hb batch Hbatch f Hf) as Hin.
      split; [exact Hin |]. now apply In_remainingOf in Hin.
    + intros b Hsize Hpos _. rewrite Hu. rewrite Hsize in Hb.
      rewrite (mkBatches_concat_pos b _ Hpos fuel 0 batches (Z.le_refl 0) Hb).
      apply Permutation_refl.
Qed.

(** ** The progress record at each save *)

Lemma NoDup_Set_add (s : list string) (x : string) :
  NoDup s -> NoDup (Set_add s x).
Proof.
  intros H. unfold Set_add. destruct (Set_has s x) eqn:E; [assumption |].
  apply Set_has_false_iff in E.
  apply NoDup_app; [assumption | repeat constructor; intros [] | ].
  intros y Hy [<- | []]. contradiction.
Qed.

Lemma NoDup_fold_Set_add (l acc : list string) :
  NoDup acc -> NoDup (fold_left Set_add l acc).
Proof.
  revert acc. induction l as [| x l IH]; intros acc H; [assumption |].
  simpl. apply IH. now apply NoDup_Set_add.
Qed.

Lemma NoDup_Set_of (l : list string) : NoDup (Set_of l).
Proof. apply NoDup_fold_Set_add. constructor. Qed.

Lemma decodeProgress_NoDup (v : JSON) (p : MigrationProgress) :
  decodeProgress v = Loaded p -> NoDup (migratedFiles p).
Proof.
  unfold decodeProgress. intros H.
  repeat match type of H with
         | context [match ?x with _ => _ end] => destruct x; try discriminate H
         end.
  all: injection H as <-; apply NoDup_Set_of.
Qed.

Lemma loadProgress_NoDup (cfg : Config) (d : Disk) (t : string)
  (p : MigrationProgress) :
  loadProgress cfg d t = Loaded p -> NoDup (migratedFiles p).
Proof.
  unfold loadProgress. destruct (d (progressFile cfg)) as [data |].
  - destruct (JSON_parse data) as [v |]; [apply decodeProgress_NoDup | discriminate].
  - intros H. injection H as <-. constructor.
Qed.



Lemma ProgressAt_RecordAt (w : World) (p0 p : MigrationProgress)
  (done : list string) :
  ProgressAt w p0 done p -> RecordAt w p0 done p.
Proof. intros [Hf Hc]. split; [rewrite Hf; apply Permutation_refl | exact Hc]. Qed.


Lemma processFile_progress (cfg : Config) (w : World) (p0 : MigrationProgress)
  (f : string) (done : list string) (st : RunState) :
  ~ In f (migratedFiles p0) -> ~ In f done ->
  ProgressAt w p0 done (progress st) ->
  ProgressAt w p0 (done ++ [f]) (progress (fst (processFile cfg w f st))).
Proof.
  intros H0 Hd [Hf Hc].
  assert (Hnew : ~ In f (migratedFiles (progress st))).
  { rewrite Hf, in_app_iff, filter_In. tauto. }
  unfold ProgressAt. rewrite !filter_app, !length_app. cbn [filter].
  remember (filter (isHandled w) done) as hs eqn:Ehs.
  remember (length (filter (isMigrated w) done)) as ms eqn:Ems.
  unfold isHandled, isMigrated, outcomeClass, processFile, onError.
  destruct (attempt w f) as [m | m | cid]; cbn [thrownMessage classify];
    try (destruct (isDuplicateMsg m); [| destruct (isTooLargeMsg m)]);
    cbn [fst progress markMigrated markHandled migratedFiles migratedCount
         emit length];
    rewrite ?(Set_add_new _ _ Hnew), ?Hf, ?Hc, ?app_nil_r, <- ?app_assoc;
    split; try reflexivity; simpl; lia.
Qed.

Lemma processBatch_progress (cfg : Config) (w : World) (p0 : MigrationProgress)
  (batch : list string) :
  forall done st,
    NoDup (done ++ batch) ->
    (forall f, In f batch -> ~ In f (migratedFiles p0)) ->
    ProgressAt w p0 done (progress st) ->
    ProgressAt w p0 (done ++ batch) (progress (processBatch cfg w batch st)).
Proof.
  unfold processBatch.
  induction batch as [| f batch IH]; intros done st Hnd H0 Hp.
  - now rewrite app_nil_r.
  - simpl.
    replace (done ++ f :: batch) with ((done ++ [f]) ++ batch) in *
      by (now rewrite <- app_assoc).
    apply IH.
    + assumption.
    + intros g Hg. apply H0. now right.
    + apply processFile_progress; [apply H0; now left | | assumption].
      apply NoDup_app_remove_r in Hnd. apply NoDup_remove_2 in Hnd.
      now rewrite app_nil_r in Hnd.
Qed.

Lemma runBatches_progress (cfg : Config) (w : World) (p0 : MigrationProgress)
  (all : list string) (batches : list (list string)) :
  forall i done st,
    all = done ++ concat batches ->
    NoDup all ->
    (forall f, In f all -> ~ In f (migratedFiles p0)) ->
    ProgressAt w p0 done (progress st) ->
    SavesAt w p0 all (trace st) ->
    ProgressAt w p0 all (progress (runBatches cfg w i batches st))
    /\ SavesAt w p0 all (trace (runBatches cfg w i batches st)).
Proof.
  induction batches as [| b batches IH]; intros i done st Hall Hnd H0 Hp Hs.
  - simpl in *. rewrite app_nil_r in Hall. subst done. auto.
  - cbn [runBatches]. simpl in Hall. rewrite app_assoc in Hall.
    set (st2 := processBatch cfg w b (startBatch i b st)).
    assert (Hp2 : ProgressAt w p0 (done ++ b) (progress st2)).
    { apply processBatch_progress; try assumption.
      - rewrite Hall in Hnd. now apply NoDup_app_remove_r in Hnd.
      - intros f Hf. apply H0. rewrite Hall.
        apply in_or_app. left. apply in_or_app. now right. }
    assert (Hs2 : SavesAt w p0 all (trace st2)).
    { intros p Hin. apply Hs. apply In_savesOf in Hin. apply In_savesOf.
      revert Hin. subst st2. clear.
      assert (G : forall batch s,
                 savesOf (trace (processBatch cfg w batch s)) = savesOf (trace s)).
      { unfold processBatch. induction batch as [| f batch IHb]; intros s; simpl.
        - reflexivity.
        - rewrite IHb. destruct (processFile_delta cfg w f s) as [delta D].
          rewrite (td_trace _ _ _ _ _ D), savesOf_app, (td_saves _ _ _ _ _ D).
          apply app_nil_r. }
      rewrite G. unfold startBatch, emit. cbn [trace].
      rewrite savesOf_app. cbn [savesOf]. now rewrite app_nil_r. }
    apply (IH (S i) (done ++ b)); try assumption.
    intros p. unfold checkpoint, saveProgress, stamp, emit. cbn [trace progress].
    rewrite !in_app_iff. cbn [In].
    intros [[H | [H | [H | []]]] | [H | []]]; try discriminate.
    + now apply Hs2.
    + injection H as <-. exists (done ++ b), (concat batches).
      split; [assumption |]. exact Hp2.
Qed.

(** *** The order in which the tasks of a batch settle

    The counters do not depend on it, and the set of names only in the
    order of its members. *)

Lemma processFile_counters (cfg : Config) (w : World) (f : string)
  (st : RunState) :
  completed (stats (fst (processFile cfg w f st)))
  = completed (stats st) + (if isMigrated w f then 1 else 0)
  /\ failed (stats (fst (processFile cfg w f st)))
     = failed (stats st) + (if isMigrated w f then 0 else 1).
Proof.
  unfold isMigrated, outcomeClass, processFile, onError.
  destruct (attempt w f) as [m | m | cid]; cbn [thrownMessage classify];
    try (destruct (isDuplicateMsg m); [| destruct (isTooLargeMsg m)]);
    simpl; lia.
Qed.

Lemma processBatch_counters (cfg : Config) (w : World) (batch : list string) :
  forall st,
    completed (stats (processBatch cfg w batch st))
    = completed (stats st) + Z.of_nat (length (filter (isMigrated w) batch))
    /\ failed (stats (processBatch cfg w batch st))
       = failed (stats st)
         + Z.of_nat (length (filter (fun f => negb (isMigrated w f)) batch)).
Proof.
  unfold processBatch. induction batch as [| f batch IH]; intros st.
  - simpl. lia.
  - cbn [fold_left filter].
    destruct (IH (fst (processFile cfg w f st))) as [Hc Hf].
    destruct (processFile_counters cfg w f st) as [Hc1 Hf1].
    rewrite Hc, Hf, Hc1, Hf1.
    destruct (isMigrated w f); cbn [negb length]; lia.
Qed.

Lemma Permutation_filter {A : Type} (q : A -> bool) (l l' : list A) :
  Permutation l l' -> Permutation (filter q l) (filter q l').
Proof.
  induction 1 as [| x l l' _ IH | x y l | l l' l'' _ IH1 _ IH2]; simpl.
  - constructor.
  - destruct (q x); [now constructor | assumption].
  - destruct (q x), (q y); try apply Permutation_refl. apply perm_swap.
  - eapply perm_trans; eassumption.
Qed.

(** X22.  The order in which the tasks of a batch settle does not show in
    the counters or in the count of the record, and the names of the
    record are the same up to their order, for a batch of distinct files
    that are not yet in the record. *)
Theorem processBatch_any_order (cfg : Config) (w : World)
  (batch batch' : list string) (st : RunState) :
  Permutation batch batch' ->
  NoDup batch ->
  (forall f, In f batch -> ~ In f (migratedFiles (progress st))) ->
  completed (stats (processBatch cfg w batch st))
  = completed (stats (processBatch cfg w batch' st))
  /\ failed (stats (processBatch cfg w batch st))
     = failed (stats (processBatch cfg w batch' st))
  /\ migratedCount (progress (processBatch cfg w batch st))
     = migratedCount (progress (processBatch cfg w batch' st))
  /\ Permutation (migratedFiles (progress (processBatch cfg w batch st)))
       (migratedFiles (progress (processBatch cfg w batch' st))).
Proof.
  intros Hperm Hnd Hout.
  destruct (processBatch_counters cfg w batch st) as [Hc Hf].
  destruct (processBatch_counters cfg w batch' st) as [Hc' Hf'].
  assert (H0 : ProgressAt w (progress st) [] (progress st)).
  { split; simpl; [now rewrite app_nil_r | lia]. }
  destruct (processBatch_progress cfg w (progress st) batch [] st Hnd Hout H0)
    as [Hn Hm].
  destruct (processBatch_progress cfg w (progress st) batch' [] st
              (Permutation_NoDup Hperm Hnd)
              (fun f Hin => Hout f (Permutation_in f (Permutation_sym Hperm) Hin))
              H0) as [Hn' Hm'].
  cbn [app] in *.
  rewrite Hc, Hc', Hf, Hf', Hm, Hm', Hn, Hn'.
  rewrite (Permutation_length (Permutation_filter (isMigrated w) _ _ Hperm)).
  rewrite (Permutation_length
             (Permutation_filter (fun f => negb (isMigrated w f)) _ _ Hperm)).
  repeat split.
  apply Permutation_app_head. now apply Permutation_filter.
Qed.


(** ** Saving and interrupting *)

Lemma takeStr_all (n : nat) (s : string) :
  (String.length s <= n)%nat -> takeStr n s = s.
Proof.
  revert n. induction s as [| c s IH]; intros n H.
  - now destruct n.
  - destruct n as [| n]; simpl in *; [lia |]. rewrite IH by lia. reflexivity.
Qed.

(** C3 (amended).  saveProgress rewrites the progress file in place, in one
    writeFile.  When the write completes the file holds the whole record
    and loadProgress reads that record back.  When the process stops during
    the write the file holds the first bytes of the new text and nothing of
    the old one: the old version survives only if the file was not opened
    yet, and a file cut at its very start no longer parses. *)
Theorem save_rewrites_in_place (cfg : Config) (st : RunState) (t : string) :
  NoDup (migratedFiles (progress st)) ->
  files (saveProgress cfg st)
  = writeFile (progressFile cfg) (serialize (progress st)) (files st)
  /\ loadProgress cfg (files (saveProgress cfg st)) t = Loaded (progress st)
  /\ saveProgressInterrupted cfg NotOpened (progress st) (files st) = files st
  /\ (forall n,
        saveProgressInterrupted cfg (Written n) (progress st) (files st)
          (progressFile cfg)
        = Some (takeStr n (serialize (progress st))))
  /\ (forall n,
        (String.length (serialize (progress st)) <= n)%nat ->
        saveProgressInterrupted cfg (Written n) (progress st) (files st)
          (progressFile cfg)
        = files (saveProgress cfg st) (progressFile cfg))
  /\ loadProgress cfg
       (saveProgressInterrupted cfg (Written 0) (progress st) (files st)) t
     = LoadThrows JsonSyntaxError.
Proof.
  intros Hnd. split; [reflexivity |]. split; [now apply load_after_save |].
  split; [reflexivity |].
  assert (Hw : forall n,
             saveProgressInterrupted cfg (Written n) (progress st) (files st)
               (progressFile cfg)
             = Some (takeStr n (serialize (progress st)))).
  { intros n. unfold saveProgressInterrupted, interruptedWrite, writeFile.
    now rewrite String.eqb_refl. }
  split; [exact Hw |]. split.
  - intros n Hn. rewrite Hw, (takeStr_all _ _ Hn).
    unfold saveProgress, writeFile. cbn [files]. now rewrite String.eqb_refl.
  - unfold loadProgress. now rewrite Hw.
Qed.

(** ** The signal handler *)

Lemma dispatch_exited (cfg : Config) (w : World) (t : Tick) (p : Proc) (c : Z) :
  exitCode p = Some c -> dispatch cfg w t p = p.
Proof. intros H. unfold dispatch. now rewrite H. Qed.

Lemma exec_exited (cfg : Config) (w : World) (ticks : list Tick) :
  forall p c, exitCode p = Some c -> exec cfg w ticks p = p.
Proof.
  unfold exec. induction ticks as [| t ticks IH]; intros p c H; [reflexivity |].
  simpl. rewrite (dispatch_exited cfg w t p c H). now apply (IH p c).
Qed.

Lemma exec_app (cfg : Config) (w : World) (a b : list Tick) (p : Proc) :
  exec cfg w (a ++ b) p = exec cfg w b (exec cfg w a p).
Proof. unfold exec. apply fold_left_app. Qed.

Lemma filter_all {A : Type} (q : A -> bool) (l : list A) :
  (forall x, In x l -> q x = true) -> filter q l = l.
Proof.
  induction l as [| x l IH]; intros H; [reflexivity |].
  simpl. rewrite (H x (or_introl eq_refl)). f_equal. apply IH.
  intros y Hy. apply H. now right.
Qed.




(** *** The event loop and the loop of main

    Without signals, and with the tasks of each batch settling in order,
    the event loop does what the loop of main does. *)

Lemma removeName_head (f : string) (l : list string) :
  ~ In f l -> removeName f (f :: l) = l.
Proof.
  intros H. unfold removeName. simpl. rewrite String.eqb_refl. simpl.
  apply filter_all. intros g Hg. apply negb_true_iff, String.eqb_neq.
  intros ->. contradiction.
Qed.

Lemma exec_settle_batch (cfg : Config) (w : World) (batch : list string) :
  NoDup batch ->
  forall st rest i,
    exec cfg w (map TaskSettles batch)
      {| run := st; inflight := batch; queued := rest; batchIndex := i;
         mainReturned := false; isShuttingDown := false;
         handlerWrite := None; exitCode := None |}
    = {| run := processBatch cfg w batch st; inflight := []; queued := rest;
         batchIndex := i; mainReturned := false; isShuttingDown := false;
         handlerWrite := None; exitCode := None |}.
Proof.
  unfold exec, processBatch.
  induction batch as [| f batch IH]; intros Hnd st rest i; [reflexivity |].
  inversion Hnd as [| ? ? Hf Hnd']; subst.
  cbn [map fold_left]. unfold dispatch at 2.
  cbn [exitCode inflight existsb]. rewrite String.eqb_refl. cbn [orb].
  cbn [run queued batchIndex mainReturned isShuttingDown handlerWrite].
  rewrite (removeName_head f batch Hf). now apply IH.
Qed.

Lemma exec_in_order (cfg : Config) (w : World) (rest : list (list string)) :
  forall batch i st,
    Forall (@NoDup string) (batch :: rest) ->
    exitCode (exec cfg w (inOrder (batch :: rest)) (inBatch i batch rest st))
    = Some 0
    /\ run (exec cfg w (inOrder (batch :: rest)) (inBatch i batch rest st))
       = report cfg (runBatches cfg w i (batch :: rest) st).
Proof.
  induction rest as [| next rest IH]; intros batch i st Hnd;
    inversion Hnd as [| ? ? Hb Hrest]; subst.
  - change (inOrder [batch]) with ((map TaskSettles batch ++ [BatchSettles]) ++ []).
    rewrite app_nil_r, exec_app. unfold inBatch.
    rewrite (exec_settle_batch cfg w batch Hb). split; reflexivity.
  - change (inOrder (batch :: next :: rest))
      with ((map TaskSettles batch ++ [BatchSettles]) ++ inOrder (next :: rest)).
    rewrite !exec_app.
    assert (E : exec cfg w [BatchSettles]
                  (exec cfg w (map TaskSettles batch)
                     (inBatch i batch (next :: rest) st))
                = inBatch (S i) next rest
                    (checkpoint cfg w i
                       (processBatch cfg w batch (startBatch i batch st)))).
    { unfold inBatch at 1. rewrite (exec_settle_batch cfg w batch Hb).
      reflexivity. }
    rewrite E. apply (IH next (S i) _ Hrest).
Qed.

(** The names of the record stay distinct through a task, a batch and the
    loop. *)
Lemma processFile_NoDup (cfg : Config) (w : World) (f : string) (st : RunState) :
  NoDup (migratedFiles (progress st)) ->
  NoDup (migratedFiles (progress (fst (processFile cfg w f st)))).
Proof.
  intros H. unfold processFile, onError.
  destruct (attempt w f) as [m | m | cid];
    try (destruct (isDuplicateMsg m); [| destruct (isTooLargeMsg m)]);
    cbn [fst progress markMigrated markHandled migratedFiles emit];
    try assumption; now apply NoDup_Set_add.
Qed.

Lemma runBatches_NoDup (cfg : Config) (w : World) (batches : list (list string))
  (i : nat) (st : RunState) :
  NoDup (migratedFiles (progress st)) ->
  NoDup (migratedFiles (progress (runBatches cfg w i batches st))).
Proof.
  intros H.
  apply (runBatches_invariant cfg w
           (fun s => NoDup (migratedFiles (progress s))) (concat batches)).
  - intros f s _. apply processFile_NoDup.
  - intros j b s Hs. exact Hs.
  - intros j s Hs. exact Hs.
  - intros b Hb x Hx. apply in_concat. eauto.
  - exact H.
Qed.

Lemma report_progress_file (cfg : Config) (st : RunState) :
  files (report cfg st) (progressFile cfg) = Some (serialize (progress st)).
Proof.
  unfold report. cbv zeta.
  destruct (failed (stats st) >? 0); cbn [emit saveProgress files progress];
    unfold writeFile; now rewrite String.eqb_refl.
Qed.

(** A run that exits with code 0 has reached the listing of the source
    directory and ended in [migrate]. *)
Lemma main_exit0 (fuel : nat) (w : World) (fin : Final) :
  main fuel w = Some fin -> status fin = Exited 0 ->
  exists p0 entries,
    ReachesEnumeration w p0 entries /\ migrate fuel w p0 entries = Some fin.
Proof.
  unfold main. cbv zeta.
  destruct (falsyStr (privateKey (CONFIG w))) eqn:K.
  { intros H Hs. injection H as <-. discriminate. }
  destruct (falsyNum (providerId (CONFIG w))) eqn:P.
  { intros H Hs. injection H as <-. discriminate. }
  destruct (loadProgress (CONFIG w) (disk w) (loadTime w)) as [p0 | e | v] eqn:L;
    try (intros H Hs; injection H as <-; discriminate).
  destruct (synapseCreate w) eqn:S; cbn [negb];
    try (intros H Hs; injection H as <-; discriminate).
  destruct (createContext w) eqn:C; cbn [negb];
    try (intros H Hs; injection H as <-; discriminate).
  destruct (readdir w) as [entries |] eqn:R;
    try (intros H Hs; injection H as <-; discriminate).
  intros H _. exists p0, entries. repeat split; assumption.
Qed.

(** X1.  What saveProgress writes, loadProgress reads back as the record
    that was saved; no other file is touched. *)
Theorem saved_progress_loads_back (cfg : Config) (st : RunState) (t : string) :
  NoDup (migratedFiles (progress st)) ->
  loadProgress cfg (files (saveProgress cfg st)) t = Loaded (progress st)
  /\ progress (saveProgress cfg st) = progress st
  /\ (forall path, path <> progressFile cfg ->
                   files (saveProgress cfg st) path = files st path).
Proof.
  intros Hnd. split; [| split].
  - unfold saveProgress. cbn [files]. now apply load_after_save.
  - reflexivity.
  - intros path Hp. unfold saveProgress, writeFile. cbn [files].
    apply String.eqb_neq in Hp. now rewrite Hp.
Qed.

Lemma report_loads_back (cfg : Config) (st : RunState) (t : string) :
  NoDup (migratedFiles (progress st)) ->
  loadProgress cfg (files (report cfg st)) t = Loaded (progress st).
Proof.
  intros Hnd. unfold loadProgress. rewrite report_progress_file.
  unfold serialize.
  rewrite (JSON_parse_stringify _ (plain_encodeProgress (progress st))).
  now apply decode_encode.
Qed.

(** X2.  When a run ends with code 0, the progress file it leaves loads
    back as the record the run ended with: nothing that the run holds in
    memory is missing on disk. *)
Theorem final_record_is_on_disk (fuel : nat) (w : World) (fin : Final) :
  main fuel w = Some fin ->
  status fin = Exited 0 ->
  exists p,
    finalProgress fin = Some p
    /\ NoDup (migratedFiles p)
    /\ loadProgress (CONFIG w) (finalDisk fin) (loadTime w) = Loaded p.
Proof.
  intros Hm Hs.
  destruct (main_exit0 fuel w fin Hm Hs) as (p0 & entries & Hre & Hmig).
  pose proof Hre as (_ & _ & Hload & _).
  pose proof (loadProgress_NoDup _ _ _ _ Hload) as Hnd0.
  destruct (migrate_shape fuel w p0 entries fin Hmig)
    as [(Hrem & _) | [(Hs1 & _) | (batches & Hb & ->)]].
  - (* nothing remained *)
    unfold migrate in Hmig. cbv zeta in Hmig. rewrite Hrem in Hmig.
    cbn [length Nat.eqb] in Hmig. injection Hmig as <-.
    exists p0. cbn [finish finalProgress finalDisk progress files].
    repeat split; assumption.
  - congruence.
  - set (stN := runBatches (CONFIG w) w 0 batches (startState w p0 entries)).
    destruct (report_effect (CONFIG w) stN) as (_ & _ & Hp).
    assert (HndN : NoDup (migratedFiles (progress stN)))
      by (apply runBatches_NoDup; exact Hnd0).
    exists (progress stN). cbn [finish finalProgress finalDisk].
    split; [now rewrite Hp |]. split; [assumption |].
    now apply report_loads_back.
Qed.

(** ** One run after another *)

Lemma Set_has_app (a b : list string) (x : string) :
  Set_has (a ++ b) x = Set_has a x || Set_has b x.
Proof. unfold Set_has. apply existsb_app. Qed.

Lemma Set_has_filter (h : string -> bool) (l : list string) (x : string) :
  In x l -> Set_has (filter h l) x = h x.
Proof.
  intros Hin. destruct (h x) eqn:E.
  - apply Set_has_true_iff. apply filter_In. now split.
  - apply Set_has_false_iff. rewrite filter_In. intros [_ H]. congruence.
Qed.

Lemma filter_twice {A : Type} (p q : A -> bool) (l : list A) :
  filter q (filter p l) = filter (fun x => p x && q x) l.
Proof.
  induction l as [| x l IH]; [reflexivity |].
  simpl. destruct (p x); simpl; [destruct (q x) |]; now rewrite IH.
Qed.

(** The files that remain once the handled ones of the remaining files have
    joined the names. *)
Lemma remainingOf_after (h : string -> bool) (p0 p1 : MigrationProgress)
  (pieceFiles : list string) :
  migratedFiles p1
  = migratedFiles p0 ++ filter h (remainingOf p0 pieceFiles) ->
  remainingOf p1 pieceFiles
  = filter (fun f => negb (h f)) (remainingOf p0 pieceFiles).
Proof.
  intros H. unfold remainingOf at 1 2. rewrite H, filter_twice.
  apply filter_ext_in. intros f Hf. rewrite Set_has_app.
  destruct (Set_has (migratedFiles p0) f) eqn:E; [reflexivity |].
  cbn [orb negb andb]. f_equal. apply Set_has_filter.
  unfold remainingOf. apply filter_In. split; [assumption |]. now rewrite E.
Qed.

Lemma loadProgress_at (cfg : Config) (d : Disk) (t t' : string)
  (p : MigrationProgress) :
  loadProgress cfg d t = Loaded p ->
  exists p', loadProgress cfg d t' = Loaded p'
             /\ migratedFiles p' = migratedFiles p
             /\ migratedCount p' = migratedCount p.
Proof.
  unfold loadProgress. destruct (d (progressFile cfg)) as [data |].
  - intros H. exists p. auto.
  - intros H. injection H as <-. eexists. repeat split.
Qed.

Lemma main_uploads_remaining (fuel : nat) (w : World) (p0 : MigrationProgress)
  (entries : list string) (fin : Final) (f : string) :
  ReachesEnumeration w p0 entries ->
  main fuel w = Some fin ->
  In (Upload f) (finalTrace fin) ->
  In f (remainingOf p0 (pieceFilesOf entries)).
Proof.
  intros Hre Hm Hin. rewrite (main_reaches fuel w p0 entries Hre) in Hm.
  apply In_uploadsOf in Hin.
  destruct (migrate_shape fuel w p0 entries fin Hm)
    as [(_ & _ & Hu & _) | [(_ & Hu & _) | (batches & Hb & ->)]];
    try (rewrite Hu in Hin; contradiction).
  destruct (report_effect (CONFIG w)
              (runBatches (CONFIG w) w 0 batches (startState w p0 entries)))
    as (Ht & _ & _).
  unfold finish in Hin. cbn [finalTrace] in Hin.
  rewrite Ht, uploadsOf_app, reportTail_uploads, app_nil_r,
    runBatches_uploads, startState_uploads in Hin.
  unfold attempted in Hin. apply filter_In in Hin. destruct Hin as [Hin _].
  apply in_concat in Hin. destruct Hin as [batch [Hbatch Hf]].
  exact (mkBatches_incl _ _ _ _ _ Hb batch Hbatch f Hf).
Qed.

(** The record at the end of the loop, for a positive batch size. *)
Lemma runBatches_final_progress (fuel : nat) (w : World) (p0 : MigrationProgress)
  (entries : list string) (b : Z) (batches : list (list string)) :
  NoDup entries -> 0 < b ->
  mkBatches fuel (Num b) (remainingOf p0 (pieceFilesOf entries)) (Num 0)
  = Some batches ->
  ProgressAt w p0 (remainingOf p0 (pieceFilesOf entries))
    (progress (runBatches (CONFIG w) w 0 batches (startState w p0 entries))).
Proof.
  intros Hnd Hb Hcut.
  set (remaining := remainingOf p0 (pieceFilesOf entries)) in *.
  pose proof (mkBatches_concat_pos b remaining Hb fuel 0 batches (Z.le_refl 0) Hcut)
    as Hcat.
  cbn [Z.to_nat skipn] in Hcat.
  assert (Hnr : NoDup remaining).
  { unfold remaining, remainingOf, pieceFilesOf. now repeat apply NoDup_filter. }
  assert (Hout : forall f, In f remaining -> ~ In f (migratedFiles p0)).
  { intros f Hf. now apply In_remainingOf in Hf. }
  assert (Hp0 : ProgressAt w p0 [] (progress (startState w p0 entries))).
  { split; simpl; [now rewrite app_nil_r | lia]. }
  assert (Hs0 : SavesAt w p0 remaining (trace (startState w p0 entries))).
  { intros q Hq. apply In_savesOf in Hq. contradiction Hq. }
  now destruct (runBatches_progress (CONFIG w) w p0 remaining batches 0 []
                  (startState w p0 entries) (eq_sym Hcat) Hnr Hout Hp0 Hs0).
Qed.

(** The record that a later run loads, and the files that remain for it. *)
Lemma next_run_remaining (fuel : nat) (w : World)
  (p0 : MigrationProgress) (entries : list string) (b : Z) (fin : Final)
  (t : string) :
  ReachesEnumeration w p0 entries ->
  NoDup entries ->
  batchSize (CONFIG w) = Num b -> 0 < b ->
  main fuel w = Some fin ->
  status fin = Exited 0 ->
  exists p1,
    ReachesEnumeration (nextRun (finalDisk fin) t w) p1 entries
    /\ remainingOf p1 (pieceFilesOf entries)
       = filter (fun f => negb (isHandled w f))
           (remainingOf p0 (pieceFilesOf entries)).
Proof.
  intros Hre Hnd Hsize Hb Hm Hs.
  pose proof Hre as (HK & HP & Hload & HS & HC & HR).
  assert (Hnext : forall p1,
            loadProgress (CONFIG w) (finalDisk fin) t = Loaded p1 ->
            ReachesEnumeration (nextRun (finalDisk fin) t w) p1 entries).
  { intros p1 H. repeat split; assumption. }
  rewrite (main_reaches fuel w p0 entries Hre) in Hm.
  destruct (migrate_shape fuel w p0 entries fin Hm)
    as [(Hrem & _) | [(Hs1 & _) | (batches & Hcut & ->)]].
  - (* nothing remained: the disk is as it was *)
    unfold migrate in Hm. cbv zeta in Hm. rewrite Hrem in Hm.
    cbn [length Nat.eqb] in Hm. injection Hm as <-.
    cbn [finish finalDisk files] in *.
    destruct (loadProgress_at _ _ _ t _ Hload) as (p1 & Hl1 & Hf1 & _).
    exists p1. split; [now apply Hnext |].
    unfold remainingOf in *. now rewrite Hf1, Hrem.
  - congruence.
  - set (stN := runBatches (CONFIG w) w 0 batches (startState w p0 entries)) in *.
    cbn [finish finalDisk] in *.
    assert (HndN : NoDup (migratedFiles (progress stN))).
    { apply runBatches_NoDup. exact (loadProgress_NoDup _ _ _ _ Hload). }
    exists (progress stN). split; [apply Hnext; now apply report_loads_back |].
    rewrite Hsize in Hcut.
    destruct (runBatches_final_progress fuel w p0 entries b batches Hnd Hb Hcut)
      as [Hfiles _].
    now apply remainingOf_after.
Qed.

(** X3.  A later run over the disk that a run has left takes up exactly the
    files that the run left as transient failures: what was uploaded, found
    to be a duplicate or skipped for its size is not submitted again. *)
Theorem rerun_retries_only_transient_failures (fuel : nat) (w : World)
  (p0 : MigrationProgress) (entries : list string) (b : Z) (fin : Final)
  (t : string) :
  ReachesEnumeration w p0 entries ->
  NoDup entries ->
  batchSize (CONFIG w) = Num b -> 0 < b ->
  main fuel w = Some fin ->
  status fin = Exited 0 ->
  exists p1,
    ReachesEnumeration (nextRun (finalDisk fin) t w) p1 entries
    /\ remainingOf p1 (pieceFilesOf entries)
       = filter (fun f => negb (isHandled w f))
           (remainingOf p0 (pieceFilesOf entries))
    /\ (forall fuel' fin' f,
          main fuel' (nextRun (finalDisk fin) t w) = Some fin' ->
          In (Upload f) (finalTrace fin') ->
          In f (remainingOf p0 (pieceFilesOf entries))
          /\ outcomeClass w f = TransientFailure).
Proof.
  intros Hre Hnd Hsize Hb Hm Hs.
  destruct (next_run_remaining fuel w p0 entries b fin t Hre Hnd Hsize Hb Hm Hs)
    as (p1 & Hnext & Hrem).
  exists p1. split; [assumption |]. split; [assumption |].
  intros fuel' fin' f Hm' Hu.
  pose proof (main_uploads_remaining fuel' _ p1 entries fin' f Hnext Hm' Hu)
    as Hin.
  rewrite Hrem in Hin. apply filter_In in Hin. destruct Hin as [Hin Hh].
  split; [assumption |]. unfold isHandled in Hh.
  now destruct (outcomeClass w f).
Qed.

(** X23.  The script can be run again: when a run has left no transient
    failure behind, a later run over the disk it has left finds nothing
    remaining, uploads and writes nothing, leaves the disk as it is and
    exits with code 0. *)
Theorem rerun_after_clean_run_does_nothing (fuel fuel' : nat) (w : World)
  (p0 : MigrationProgress) (entries : list string) (b : Z) (fin : Final)
  (t : string) :
  ReachesEnumeration w p0 entries ->
  NoDup entries ->
  batchSize (CONFIG w) = Num b -> 0 < b ->
  main fuel w = Some fin ->
  status fin = Exited 0 ->
  (forall f, In f (remainingOf p0 (pieceFilesOf entries)) ->
             outcomeClass w f <> TransientFailure) ->
  exists fin',
    main fuel' (nextRun (finalDisk fin) t w) = Some fin'
    /\ status fin' = Exited 0
    /\ uploadsOf (finalTrace fin') = []
    /\ writesOf (finalTrace fin') = []
    /\ In (Log LAllAlreadyMigrated) (finalTrace fin')
    /\ finalDisk fin' = finalDisk fin.
Proof.
  intros Hre Hnd Hsize Hb Hm Hs Hclean.
  destruct (next_run_remaining fuel w p0 entries b fin t Hre Hnd Hsize Hb Hm Hs)
    as (p1 & Hnext & Hrem).
  assert (Hnone : remainingOf p1 (pieceFilesOf entries) = []).
  { rewrite Hrem.
    destruct (filter (fun f => negb (isHandled w f))
                (remainingOf p0 (pieceFilesOf entries))) as [| f l] eqn:E;
      [reflexivity |].
    assert (Hf : In f (filter (fun f => negb (isHandled w f))
                         (remainingOf p0 (pieceFilesOf entries))))
      by (rewrite E; now left).
    apply filter_In in Hf. destruct Hf as [Hin Hh].
    specialize (Hclean f Hin). unfold isHandled in Hh.
    destruct (outcomeClass w f); try discriminate Hh. congruence. }
  rewrite (main_reaches fuel' _ p1 entries Hnext).
  unfold migrate. cbv zeta. rewrite Hnone. cbn [length Nat.eqb].
  eexists. split; [reflexivity |].
  cbn [finish status finalTrace finalDisk trace files nextRun disk].
  unfold startState, resumeLine. cbv zeta. cbn [trace].
  repeat split. apply in_or_app. right. now left.
Qed.

(** X24.  No file is uploaded twice in a run: over a directory of distinct
    names the uploads of a run are distinct. *)
Theorem no_file_uploaded_twice (fuel : nat) (w : World) (fin : Final) :
  (forall entries, readdir w = Some entries -> NoDup entries) ->
  main fuel w = Some fin ->
  NoDup (uploadsOf (finalTrace fin)).
Proof.
  intros Hdir Hm.
  destruct (main_shape fuel w fin Hm)
    as [(_ & _ & Hu & _) | (p0 & entries & batches & Hre & _ & Hcut & ->)].
  - rewrite Hu. constructor.
  - pose proof Hre as (_ & _ & _ & _ & _ & HR).
    assert (Hnr : NoDup (remainingOf p0 (pieceFilesOf entries))).
    { unfold remainingOf, pieceFilesOf. repeat apply NoDup_filter.
      now apply Hdir. }
    destruct (report_effect (CONFIG w)
                (runBatches (CONFIG w) w 0 batches (startState w p0 entries)))
      as (Ht & _ & _).
    cbn [finish finalTrace].
    rewrite Ht, uploadsOf_app, reportTail_uploads, app_nil_r,
      runBatches_uploads, startState_uploads.
    cbn [app]. unfold attempted. apply NoDup_filter.
    destruct (mkBatches_concat _ _ _ _ Hcut) as [-> | [_ ->]];
      [assumption | constructor].
Qed.

(** ** The batches, one by one *)

Lemma slice_chunk (l : list string) (i b : Z) :
  0 <= i < Z.of_nat (length l) -> 0 < b ->
  slice l (Num i) (Num (i + b)) = firstn (Z.to_nat b) (skipn (Z.to_nat i) l).
Proof.
  intros Hi Hb. unfold slice, relIndex. cbn [toInteger].
  destruct (Z.ltb_spec i 0) as [? | _]; [lia |].
  destruct (Z.ltb_spec (i + b) 0) as [? | _]; [lia |].
  replace (Z.to_nat (Z.min i (Z.of_nat (length l)))) with (Z.to_nat i) by lia.
  destruct (Z.le_gt_cases (i + b) (Z.of_nat (length l))) as [Hin | Hout].
  - f_equal. lia.
  - rewrite !firstn_all2; [reflexivity | rewrite length_skipn; lia ..].
Qed.

Lemma mkBatches_chunks (b : Z) (remaining : list string) :
  0 < b ->
  forall fuel i batches,
    0 <= i ->
    mkBatches fuel (Num b) remaining (Num i) = Some batches ->
    (Z.of_nat (length batches) * b
     < Z.max 0 (Z.of_nat (length remaining) - i) + b
     /\ Z.max 0 (Z.of_nat (length remaining) - i) <= Z.of_nat (length batches) * b)
    /\ forall k batch,
         nth_error batches k = Some batch ->
         batch = firstn (Z.to_nat b)
                   (skipn (Z.to_nat (i + Z.of_nat k * b)) remaining)
         /\ i + Z.of_nat k * b < Z.of_nat (length remaining).
Proof.
  intros Hb. induction fuel as [| n IH]; intros i batches Hi H; [discriminate |].
  simpl in H. destruct (Z.ltb_spec i (Z.of_nat (length remaining))) as [Hlt | Hge].
  - destruct (mkBatches n (Num b) remaining (Num (i + b))) as [rest |] eqn:E;
      [| discriminate].
    injection H as <-.
    destruct (IH (i + b) rest ltac:(lia) E) as [[Hc1 Hc2] Hk].
    split.
    + cbn [length]. rewrite Nat2Z.inj_succ, Z.mul_succ_l.
      assert (Hz : Z.of_nat (length rest) = 0
                   \/ b <= Z.of_nat (length rest) * b) by nia.
      lia.
    + intros [| k] batch Hnth; cbn [nth_error] in Hnth.
      * injection Hnth as <-. rewrite Z.add_0_r.
        split; [apply slice_chunk; lia | lia].
      * destruct (Hk k batch Hnth) as [-> Hin]. rewrite Nat2Z.inj_succ.
        split; [f_equal; f_equal; lia | lia].
  - injection H as <-. split; [cbn [length]; lia |].
    intros [| k] batch Hnth; discriminate.
Qed.

(** X4.  With a positive batch size the batches are the remaining files cut
    in order into runs of that size: batch k holds the files from position
    k * size on, at most size of them and at least one, the batches put end
    to end are the remaining files, and there are ceil(n / size) of them. *)
Theorem batches_cut_remaining_in_order (fuel : nat) (b : Z)
  (remaining : list string) (batches : list (list string)) :
  0 < b ->
  mkBatches fuel (Num b) remaining (Num 0) = Some batches ->
  concat batches = remaining
  /\ Z.of_nat (length batches) = (Z.of_nat (length remaining) + b - 1) / b
  /\ forall k batch,
       nth_error batches k = Some batch ->
       batch = firstn (Z.to_nat b) (skipn (k * Z.to_nat b) remaining)
       /\ (1 <= length batch)%nat
       /\ Z.of_nat (length batch) <= b.
Proof.
  intros Hb H.
  destruct (mkBatches_chunks b remaining Hb fuel 0 batches (Z.le_refl 0) H)
    as [[Hc1 Hc2] Hk].
  split; [| split].
  - now rewrite (mkBatches_concat_pos b remaining Hb fuel 0 batches (Z.le_refl 0) H).
  - rewrite Z.sub_0_r in Hc1, Hc2.
    apply (Z.div_unique _ _ _
             (Z.of_nat (length remaining) + b - 1 - b * Z.of_nat (length batches)));
      lia.
  - intros k batch Hnth. destruct (Hk k batch Hnth) as [-> Hin].
    replace (Z.to_nat (0 + Z.of_nat k * b)) with (k * Z.to_nat b)%nat by nia.
    split; [reflexivity |].
    rewrite length_firstn, length_skipn. split; [nia | lia].
Qed.

(** ** The counters and the error records of a run *)

Lemma Accounted_refl (w : World) (st : RunState) : Accounted w [] st st.
Proof.
  unfold Accounted. cbn [filter length]. repeat split; try lia.
  exists []. rewrite app_nil_r. repeat split. constructor.
Qed.

Lemma Accounted_trans (w : World) (l1 l2 : list string) (s1 s2 s3 : RunState) :
  Accounted w l1 s1 s2 -> Accounted w l2 s2 s3 -> Accounted w (l1 ++ l2) s1 s3.
Proof.
  intros (A1 & A2 & A3 & A4 & A5 & A6 & es1 & A7 & A8 & A9)
         (B1 & B2 & B3 & B4 & B5 & B6 & es2 & B7 & B8 & B9).
  unfold Accounted. rewrite !filter_app, !length_app.
  repeat split; try lia; try congruence.
  exists (es1 ++ es2). rewrite B7, A7, app_assoc, map_app, A8, B8.
  repeat split. now apply Forall_app.
Qed.

Lemma Accounted_same (w : World) (st st' : RunState) :
  stats st' = stats st ->
  migratedCount (progress st') = migratedCount (progress st) ->
  totalFiles (progress st') = totalFiles (progress st) ->
  Accounted w [] st st'.
Proof.
  intros Hs Hc Ht. unfold Accounted. rewrite Hs, Hc, Ht. apply Accounted_refl.
Qed.

Lemma isMigrated_attempt (w : World) (f : string) :
  isMigrated w f = match attempt w f with
                   | UploadOk _ => true
                   | ReadFails m | UploadFails m => isDuplicateMsg m
                   end.
Proof.
  unfold isMigrated, outcomeClass.
  destruct (attempt w f) as [m | m | cid]; cbn [thrownMessage classify];
    try reflexivity;
    (destruct (isDuplicateMsg m); [reflexivity |]);
    now destruct (isTooLargeMsg m).
Qed.

Lemma processFile_accounted (cfg : Config) (w : World) (f : string)
  (st : RunState) :
  Accounted w [f] st (fst (processFile cfg w f st)).
Proof.
  unfold Accounted, FailureRecord. cbn [filter].
  rewrite (isMigrated_attempt w f). unfold processFile, onError.
  destruct (attempt w f) as [m | m | cid] eqn:A;
    try (destruct (isDuplicateMsg m) eqn:D; [| destruct (isTooLargeMsg m) eqn:L]);
    cbn [fst stats progress emit countCompleted countFailed markMigrated
         markHandled total skipped completed failed errors migratedCount
         totalFiles negb length];
    (repeat split; try lia);
    try (exists []; rewrite app_nil_r; repeat split; constructor);
    (eexists; split; [reflexivity |]; split; [reflexivity |];
     repeat constructor; cbn [file error timestamp];
     exists m; rewrite A, ?L; cbn [thrownMessage]; auto).
Qed.

Lemma processBatch_accounted (cfg : Config) (w : World) (batch : list string) :
  forall st, Accounted w batch st (processBatch cfg w batch st).
Proof.
  unfold processBatch. induction batch as [| f batch IH]; intros st.
  - apply Accounted_refl.
  - cbn [fold_left]. change (f :: batch) with ([f] ++ batch).
    eapply Accounted_trans; [apply processFile_accounted | apply IH].
Qed.

Lemma runBatches_accounted (cfg : Config) (w : World)
  (batches : list (list string)) :
  forall i st, Accounted w (concat batches) st (runBatches cfg w i batches st).
Proof.
  induction batches as [| b batches IH]; intros i st.
  - apply Accounted_refl.
  - cbn [runBatches concat].
    eapply Accounted_trans; [| apply IH].
    pose proof (Accounted_trans w [] b _ _ _
                  (Accounted_same w st (startBatch i b st)
                     eq_refl eq_refl eq_refl)
                  (processBatch_accounted cfg w b (startBatch i b st))) as H1.
    pose proof (Accounted_trans w _ [] _ _ _ H1
                  (Accounted_same w _
                     (checkpoint cfg w i
                        (processBatch cfg w b (startBatch i b st)))
                     eq_refl eq_refl eq_refl)) as H2.
    cbn [app] in H2. now rewrite app_nil_r in H2.
Qed.

Lemma startState_stats (w : World) (p0 : MigrationProgress)
  (entries : list string) :
  total (stats (startState w p0 entries)) = Z.of_nat (length (pieceFilesOf entries))
  /\ completed (stats (startState w p0 entries)) = 0
  /\ failed (stats (startState w p0 entries)) = 0
  /\ errors (stats (startState w p0 entries)) = []
  /\ migratedCount (progress (startState w p0 entries)) = migratedCount p0
  /\ migratedFiles (progress (startState w p0 entries)) = migratedFiles p0
  /\ totalFiles (progress (startState w p0 entries))
     = Z.of_nat (length (pieceFilesOf entries)).
Proof.
  destruct (resumeStats_quiet p0) as (Hf & Hc & He).
  unfold startState. cbv zeta. cbn [stats progress withTotal withTotalFiles total
    completed failed errors migratedCount migratedFiles totalFiles].
  auto 10.
Qed.

Lemma plain_encodeErrors (es : list ErrorRecord) : plain (encodeErrors es) = true.
Proof.
  unfold encodeErrors. cbn [plain].
  induction es as [| e es IH]; [reflexivity |]. cbn. exact IH.
Qed.

Lemma runBatches_error_log (w : World) (batches : list (list string))
  (i : nat) (st : RunState) :
  files (runBatches (CONFIG w) w i batches st) errorLogPath
  = files st errorLogPath.
Proof.
  apply (runBatches_invariant (CONFIG w) w
           (fun s => files s errorLogPath = files st errorLogPath)
           (concat batches)).
  - intros f s _ Hs. destruct (processFile_delta (CONFIG w) w f s) as [delta D].
    now rewrite (td_files _ _ _ _ _ D).
  - intros j b s Hs. exact Hs.
  - intros j s Hs. exact Hs.
  - intros b Hb x Hx. apply in_concat. eauto.
  - reflexivity.
Qed.

Lemma report_error_log (w : World) (st : RunState) :
  files (report (CONFIG w) st) errorLogPath
  = if failed (stats st) >? 0
    then Some (JSON_stringify (encodeErrors (errors (stats st))))
    else files st errorLogPath.
Proof.
  unfold report. cbv zeta. destruct (failed (stats st) >? 0); reflexivity.
Qed.

(** A run that exits with code 0 returned early, nothing remaining, or went
    through the batches and the report. *)
Lemma main_exit0_cases (fuel : nat) (w : World) (p0 : MigrationProgress)
  (entries : list string) (fin : Final) :
  ReachesEnumeration w p0 entries ->
  main fuel w = Some fin -> status fin = Exited 0 ->
  (remainingOf p0 (pieceFilesOf entries) = []
   /\ fin = finish {| progress := p0; stats := stats (startState w p0 entries);
                      trace := trace (startState w p0 entries)
                               ++ [Log LAllAlreadyMigrated];
                      files := disk w |})
  \/ (exists batches,
        remainingOf p0 (pieceFilesOf entries) <> []
        /\ mkBatches fuel (batchSize (CONFIG w))
             (remainingOf p0 (pieceFilesOf entries)) (Num 0) = Some batches
        /\ fin = finish (report (CONFIG w)
                           (runBatches (CONFIG w) w 0 batches
                              (startState w p0 entries)))).
Proof.
  intros Hre Hm Hs. rewrite (main_reaches fuel w p0 entries Hre) in Hm.
  unfold migrate in Hm. cbv zeta in Hm.
  destruct (remainingOf p0 (pieceFilesOf entries)) as [| f rest] eqn:R;
    cbn [length Nat.eqb] in Hm.
  - injection Hm as <-. left. split; reflexivity.
  - destruct (pLimitOk w); cbn [negb] in Hm.
    + destruct (mkBatches fuel (batchSize (CONFIG w)) (f :: rest) (Num 0))
        as [batches |]; [| discriminate].
      injection Hm as <-. right. exists batches.
      repeat split. discriminate.
    + injection Hm as <-. discriminate.
Qed.

(** *** Every failure leaves its line, its record and the log *)

Lemma FailureLines_grow (w : World) (l : list string) (tr tr' : list Event) :
  incl tr tr' -> FailureLines w l tr -> FailureLines w l tr'.
Proof.
  intros Hi H f Hf. destruct (H f Hf) as [H1 H2]. split.
  - intros C. apply Hi. now apply H1.
  - intros C. destruct (H2 C) as [m Hm]. exists m. now apply Hi.
Qed.

Lemma FailureLines_app (w : World) (l1 l2 : list string) (tr : list Event) :
  FailureLines w l1 tr -> FailureLines w l2 tr -> FailureLines w (l1 ++ l2) tr.
Proof.
  intros H1 H2 f Hf. apply in_app_or in Hf. destruct Hf; [now apply H1 | now apply H2].
Qed.

Lemma processFile_trace_incl (cfg : Config) (w : World) (f : string)
  (st : RunState) :
  incl (trace st) (trace (fst (processFile cfg w f st))).
Proof.
  destruct (processFile_delta cfg w f st) as [delta D].
  rewrite (td_trace _ _ _ _ _ D). now apply incl_appl.
Qed.

Lemma processFile_lines (cfg : Config) (w : World) (f : string) (st : RunState) :
  FailureLines w [f] (trace (fst (processFile cfg w f st))).
Proof.
  intros g [<- | []]. unfold outcomeClass, processFile, onError.
  destruct (attempt w f) as [m | m | cid]; cbn [thrownMessage classify];
    try (destruct (isDuplicateMsg m); [| destruct (isTooLargeMsg m)]);
    cbn [fst trace emit]; split; intros C; try discriminate C;
    try (exists m); apply in_or_app; right; now left.
Qed.

Lemma processBatch_lines (cfg : Config) (w : World) (batch : list string) :
  forall st,
    incl (trace st) (trace (processBatch cfg w batch st))
    /\ FailureLines w batch (trace (processBatch cfg w batch st)).
Proof.
  unfold processBatch. induction batch as [| f batch IH]; intros st.
  - split; [apply incl_refl | intros f []].
  - cbn [fold_left]. destruct (IH (fst (processFile cfg w f st))) as [Hi Hl].
    split.
    + eapply incl_tran; [apply processFile_trace_incl | exact Hi].
    + change (f :: batch) with ([f] ++ batch). apply FailureLines_app; [| exact Hl].
      eapply FailureLines_grow; [exact Hi | apply processFile_lines].
Qed.

Lemma runBatches_lines (cfg : Config) (w : World) (batches : list (list string)) :
  forall i st,
    incl (trace st) (trace (runBatches cfg w i batches st))
    /\ FailureLines w (concat batches) (trace (runBatches cfg w i batches st)).
Proof.
  induction batches as [| b batches IH]; intros i st.
  - split; [apply incl_refl | intros f []].
  - cbn [runBatches concat].
    destruct (IH (S i) (checkpoint cfg w i
                          (processBatch cfg w b (startBatch i b st)))) as [Hi Hl].
    destruct (processBatch_lines cfg w b (startBatch i b st)) as [Hib Hlb].
    assert (Hc : incl (trace (processBatch cfg w b (startBatch i b st)))
                   (trace (checkpoint cfg w i
                             (processBatch cfg w b (startBatch i b st))))).
    { unfold checkpoint, saveProgress, stamp, emit. cbn [trace].
      intros e He. apply in_or_app. left. apply in_or_app. now left. }
    split.
    + eapply incl_tran; [| exact Hi]. eapply incl_tran; [| exact Hc].
      eapply incl_tran; [| exact Hib].
      unfold startBatch, emit. cbn [trace]. now apply incl_appl.
    + apply FailureLines_app; [| exact Hl].
      eapply FailureLines_grow; [| exact Hlb].
      eapply incl_tran; [exact Hc | exact Hi].
Qed.

Lemma not_migrated_classes (w : World) (f : string) :
  negb (isMigrated w f) = true
  <-> outcomeClass w f = PermanentSkip \/ outcomeClass w f = TransientFailure.
Proof.
  unfold isMigrated. destruct (outcomeClass w f); cbn [negb]; split;
    try discriminate; auto; intros [H | H]; discriminate H.
Qed.

(** A run that got through the loop had a positive batch size. *)
Lemma main_exit0_batches (fuel : nat) (w : World) (p0 : MigrationProgress)
  (entries : list string) (b : Z) (fin : Final) :
  ReachesEnumeration w p0 entries ->
  batchSize (CONFIG w) = Num b ->
  main fuel w = Some fin -> status fin = Exited 0 ->
  remainingOf p0 (pieceFilesOf entries) <> [] ->
  exists batches,
    0 < b
    /\ concat batches = remainingOf p0 (pieceFilesOf entries)
    /\ fin = finish (report (CONFIG w)
                       (runBatches (CONFIG w) w 0 batches
                          (startState w p0 entries))).
Proof.
  intros Hre Hsize Hm Hs Hrem.
  destruct (main_exit0_cases fuel w p0 entries fin Hre Hm Hs)
    as [(Hnone & _) | (batches & _ & Hcut & ->)]; [contradiction |].
  rewrite Hsize in Hcut.
  assert (Hb : 0 < b).
  { destruct (Z.le_gt_cases b 0) as [Hle | Hgt]; [| lia].
    rewrite (mkBatches_diverges b _ Hle fuel 0) in Hcut; [discriminate |].
    destruct (remainingOf p0 (pieceFilesOf entries)); [contradiction |].
    cbn [length]. lia. }
  exists batches. split; [exact Hb |]. split; [| reflexivity].
  now rewrite (mkBatches_concat_pos b _ Hb fuel 0 batches (Z.le_refl 0) Hcut).
Qed.

(** C5 (amended).  The error log is written at the end of a run exactly
    when the failed counter is positive, that is when at least one file
    ended as a permanent skip or as a transient failure; what is written is
    the list of all error records of the run.  Both ways: a failure line
    in the trace is that of a file that ended as one or the other, and in
    a run with a numeric batch size that exits with code 0 every remaining
    file that ends as one or the other leaves its line and its error
    record, so that the log is written exactly when there is such a
    file. *)
Theorem error_log_written_iff_failed (fuel : nat) (w : World) (fin : Final) :
  main fuel w = Some fin ->
  ((exists data, In (WriteFile errorLogPath data) (finalTrace fin))
   <-> 0 < failed (finalStats fin))
  /\ (0 < failed (finalStats fin)
      <-> exists f, In (Log (LSkippedTooLarge f)) (finalTrace fin)
                    \/ exists m, In (Log (LFailed f m)) (finalTrace fin))
  /\ (forall f, In (Log (LSkippedTooLarge f)) (finalTrace fin) ->
                outcomeClass w f = PermanentSkip)
  /\ (forall f m, In (Log (LFailed f m)) (finalTrace fin) ->
                  outcomeClass w f = TransientFailure)
  /\ (forall data, In (WriteFile errorLogPath data) (finalTrace fin) ->
                   data = JSON_stringify (encodeErrors (errors (finalStats fin))))
  /\ (forall p0 entries b,
        ReachesEnumeration w p0 entries ->
        batchSize (CONFIG w) = Num b ->
        status fin = Exited 0 ->
        ((exists data, In (WriteFile errorLogPath data) (finalTrace fin))
         <-> exists f, In f (remainingOf p0 (pieceFilesOf entries))
                       /\ (outcomeClass w f = PermanentSkip
                           \/ outcomeClass w f = TransientFailure))
        /\ (forall f, In f (remainingOf p0 (pieceFilesOf entries)) ->
              (outcomeClass w f = PermanentSkip
               -> In (Log (LSkippedTooLarge f)) (finalTrace fin))
              /\ (outcomeClass w f = TransientFailure
                  -> exists m, In (Log (LFailed f m)) (finalTrace fin))
              /\ (outcomeClass w f = PermanentSkip
                  \/ outcomeClass w f = TransientFailure
                  -> exists r, In r (errors (finalStats fin)) /\ file r = f))).
Proof.
  intros Hm.
  assert (Hold :
    ((exists data, In (WriteFile errorLogPath data) (finalTrace fin))
     <-> 0 < failed (finalStats fin))
    /\ (0 < failed (finalStats fin)
        <-> exists f, In (Log (LSkippedTooLarge f)) (finalTrace fin)
                      \/ exists m, In (Log (LFailed f m)) (finalTrace fin))
    /\ (forall f, In (Log (LSkippedTooLarge f)) (finalTrace fin) ->
                  outcomeClass w f = PermanentSkip)
    /\ (forall f m, In (Log (LFailed f m)) (finalTrace fin) ->
                    outcomeClass w f = TransientFailure)
    /\ (forall data, In (WriteFile errorLogPath data) (finalTrace fin) ->
                     data = JSON_stringify (encodeErrors (errors (finalStats fin))))).
  { destruct (main_shape fuel w fin Hm) as [Q | Run].
    - destruct Q as (Hf & _ & _ & _ & Hw & Hl & _).
      assert (Hno : forall e, In e (finalTrace fin) -> isFailureLine e = false).
      { intros e He. destruct (isFailureLine e) eqn:E; [| reflexivity].
        assert (X : existsb isFailureLine (finalTrace fin) = true)
          by (apply existsb_exists; eauto).
        congruence. }
      assert (Hnw : forall path data, ~ In (WriteFile path data) (finalTrace fin)).
      { intros path data H. apply In_writesOf in H. now rewrite Hw in H. }
      rewrite Hf. repeat split.
      + intros [data H]. now apply Hnw in H.
      + lia.
      + lia.
      + intros [f [H | [m H]]]; apply Hno in H; discriminate.
      + intros f H. apply Hno in H. discriminate.
      + intros f m H. apply Hno in H. discriminate.
      + intros data H. now apply Hnw in H.
    - destruct Run as (p0 & entries & batches & _ & _ & _ & ->).
      set (st := runBatches (CONFIG w) w 0 batches (startState w p0 entries)).
      assert (Inv : FailInv w st) by apply FailInv_run, FailInv_start.
      destruct Inv as (Hn & Hw & Hl).
      destruct (report_effect (CONFIG w) st) as (Ht & Hs & _).
      unfold finish; cbn [finalTrace finalStats]. rewrite Ht, Hs. unfold reportTail.
      assert (Hpos : 0 < failed (stats st)
                     <-> exists e, In e (trace st) /\ isFailureLine e = true).
      { rewrite Hn, <- filter_nonempty. lia. }
      assert (Hgt : (failed (stats st) >? 0) = true <-> 0 < failed (stats st)).
      { rewrite Z.gtb_ltb. apply Z.ltb_lt. }
      repeat split.
      + intros [data H]. rewrite !in_app_iff in H.
        destruct H as [H | [H | [H | H]]].
        * now apply Hw in H.
        * destruct H as [H | []]; discriminate.
        * destruct (failed (stats st) >? 0) eqn:G; [now apply Hgt | contradiction].
        * destruct H as [H | [H | [H | []]]]; discriminate.
      + intros Hp. apply Hgt in Hp. rewrite Hp. eexists.
        rewrite !in_app_iff. right. right. left. now left.
      + intros Hp. apply Hpos in Hp. destruct Hp as [e [He Hf]].
        destruct (Hl e He Hf) as [f [[m [-> _]] | [-> _]]]; exists f.
        * right. exists m. apply in_or_app. now left.
        * left. apply in_or_app. now left.
      + intros [f H]. apply Hpos.
        assert (Hin : forall e, isFailureLine e = true ->
                  In e (trace st ++ reportTail (CONFIG w) st) -> In e (trace st)).
        { intros e He Hin. apply in_app_or in Hin. destruct Hin as [Hin | Hin]; [assumption |].
          unfold reportTail in Hin. rewrite !in_app_iff in Hin.
          destruct (failed (stats st) >? 0); simpl in Hin;
            repeat (destruct Hin as [Hin | Hin]; try (subst e; discriminate));
            contradiction. }
        unfold reportTail in Hin.
        destruct H as [H | [m H]]; eexists; (split; [apply Hin; [| exact H] |]);
          reflexivity.
      + intros f H. rewrite !in_app_iff in H.
        destruct H as [H | [H | [H | H]]].
        * destruct (Hl _ H eq_refl) as [f' [[m [E _]] | [E C]]]; [discriminate |].
          now injection E as <-.
        * destruct H as [H | []]; discriminate.
        * destruct (failed (stats st) >? 0); simpl in H;
            repeat (destruct H as [H | H]; try discriminate); contradiction.
        * destruct H as [H | [H | [H | []]]]; discriminate.
      + intros f m H. rewrite !in_app_iff in H.
        destruct H as [H | [H | [H | H]]].
        * destruct (Hl _ H eq_refl) as [f' [[m' [E C]] | [E _]]]; [| discriminate].
          now injection E as <- _.
        * destruct H as [H | []]; discriminate.
        * destruct (failed (stats st) >? 0); simpl in H;
            repeat (destruct H as [H | H]; try discriminate); contradiction.
        * destruct H as [H | [H | [H | []]]]; discriminate.
      + intros data H. rewrite !in_app_iff in H.
        destruct H as [H | [H | [H | H]]].
        * now apply Hw in H.
        * destruct H as [H | []]; discriminate.
        * destruct (failed (stats st) >? 0); simpl in H; [| contradiction].
          destruct H as [H | [H | []]]; [| discriminate].
          now injection H as <-.
        * destruct H as [H | [H | [H | []]]]; discriminate.
  }
  destruct Hold as (Hwr & Hlines & Hskip & Hfail & Hdata).
  repeat (split; [assumption |]).
  intros p0 entries b Hre Hsize Hs.
  assert (Hcount : failed (finalStats fin)
                   = Z.of_nat (length (filter (fun f => negb (isMigrated w f))
                                         (remainingOf p0 (pieceFilesOf entries))))
                   /\ (forall f, In f (remainingOf p0 (pieceFilesOf entries)) ->
                         (outcomeClass w f = PermanentSkip
                          -> In (Log (LSkippedTooLarge f)) (finalTrace fin))
                         /\ (outcomeClass w f = TransientFailure
                             -> exists m, In (Log (LFailed f m)) (finalTrace fin))
                         /\ (negb (isMigrated w f) = true
                             -> exists r, In r (errors (finalStats fin))
                                          /\ file r = f))).
  { destruct (remainingOf p0 (pieceFilesOf entries)) as [| f0 rest] eqn:R.
    - destruct (main_exit0_cases fuel w p0 entries fin Hre Hm Hs)
        as [(_ & ->) | (batches & Hne & _)]; [| now rewrite R in Hne].
      destruct (startState_stats w p0 entries) as (_ & _ & Hf0 & _).
      cbn [finish finalStats stats filter length Z.of_nat]. split; [exact Hf0 |].
      intros f [].
    - destruct (main_exit0_batches fuel w p0 entries b fin Hre Hsize Hm Hs)
        as (batches & Hb & Hcat & ->); [rewrite R; discriminate |].
      rewrite R in Hcat.
      set (stN := runBatches (CONFIG w) w 0 batches (startState w p0 entries)).
      destruct (runBatches_accounted (CONFIG w) w batches 0
                  (startState w p0 entries))
        as (_ & _ & _ & A4 & _ & _ & es & A7 & A8 & _).
      destruct (runBatches_lines (CONFIG w) w batches 0 (startState w p0 entries))
        as [_ Hl].
      destruct (startState_stats w p0 entries) as (_ & _ & Hf0 & He0 & _).
      destruct (report_effect (CONFIG w) stN) as (Ht & Hst & _).
      fold stN in A4, A7, Hl. rewrite Hcat in A4, A8, Hl.
      rewrite Hf0 in A4. rewrite He0 in A7. cbn [app] in A7.
      cbn [finish finalStats finalTrace]. rewrite Hst, Ht.
      split; [rewrite A4; lia |].
      intros f Hf. destruct (Hl f Hf) as [L1 L2]. split; [| split].
      + intros C. apply in_or_app. left. now apply L1.
      + intros C. destruct (L2 C) as [m Hm']. exists m. apply in_or_app. now left.
      + intros C. rewrite A7.
        assert (Hin : In f (map file es)).
        { rewrite A8. apply filter_In. now split. }
        apply in_map_iff in Hin. destruct Hin as (r & Hr & Hin). eauto. }
  destruct Hcount as [Hfailed Hfiles]. split.
  - rewrite Hwr, Hfailed. split.
    + intros Hpos.
      assert (Hlen : (0 < length (filter (fun f => negb (isMigrated w f))
                                   (remainingOf p0 (pieceFilesOf entries))))%nat)
        by lia.
      apply filter_nonempty in Hlen. destruct Hlen as (f & Hf & Hq).
      exists f. split; [exact Hf | now apply not_migrated_classes].
    + intros (f & Hf & Hq).
      assert (Hlen : (0 < length (filter (fun f => negb (isMigrated w f))
                                   (remainingOf p0 (pieceFilesOf entries))))%nat).
      { apply filter_nonempty. exists f. split; [exact Hf |].
        now apply not_migrated_classes. }
      lia.
  - intros f Hf. destruct (Hfiles f Hf) as (H1 & H2 & H3).
    split; [exact H1 |]. split; [exact H2 |].
    intros C. apply H3. now apply not_migrated_classes.
Qed.

(** X5.  With a batch size of zero or less and a file remaining, the loop
    that cuts the batches never ends: the run gets to no upload, no save
    and no exit. *)
Theorem nonpositive_batch_size_never_ends (fuel : nat) (w : World)
  (p0 : MigrationProgress) (entries : list string) (b : Z) :
  ReachesEnumeration w p0 entries ->
  remainingOf p0 (pieceFilesOf entries) <> [] ->
  pLimitOk w = true ->
  batchSize (CONFIG w) = Num b -> b <= 0 ->
  main fuel w = None.
Proof.
  intros Hre Hrem Hlim Hsize Hb.
  rewrite (main_reaches fuel w p0 entries Hre).
  unfold migrate. cbv zeta.
  destruct (remainingOf p0 (pieceFilesOf entries)) as [| f rest] eqn:R;
    [contradiction |].
  cbn [length Nat.eqb]. rewrite Hlim. cbn [negb]. rewrite Hsize.
  rewrite (mkBatches_diverges b (f :: rest) Hb fuel 0); [reflexivity |].
  cbn [length]. lia.
Qed.

(** X6.  With a batch size that is not a number the loop cuts one empty
    batch: the run uploads none of the remaining files, saves the record
    with its names and count as they were loaded, reports nothing
    completed and nothing failed, and exits with code 0. *)
Theorem non_numeric_batch_size_uploads_nothing (fuel : nat) (w : World)
  (p0 : MigrationProgress) (entries : list string) :
  ReachesEnumeration w p0 entries ->
  remainingOf p0 (pieceFilesOf entries) <> [] ->
  pLimitOk w = true ->
  batchSize (CONFIG w) = NaN ->
  exists fin p,
    main (S (S fuel)) w = Some fin
    /\ status fin = Exited 0
    /\ uploadsOf (finalTrace fin) = []
    /\ In (Log (LBatch 0 0)) (finalTrace fin)
    /\ completed (finalStats fin) = 0
    /\ failed (finalStats fin) = 0
    /\ finalProgress fin = Some p
    /\ migratedFiles p = migratedFiles p0
    /\ migratedCount p = migratedCount p0
    /\ savesOf (finalTrace fin) = [p; p].
Proof.
  intros Hre Hrem Hlim Hsize.
  rewrite (main_reaches _ w p0 entries Hre).
  unfold migrate. cbv zeta.
  destruct (remainingOf p0 (pieceFilesOf entries)) as [| f rest] eqn:R;
    [contradiction |].
  cbn [length Nat.eqb]. rewrite Hlim. cbn [negb]. rewrite Hsize.
  assert (Hcut : mkBatches (S (S fuel)) NaN (f :: rest) (Num 0) = Some [[]]).
  { cbn [mkBatches numLt numAdd length].
    destruct (Z.ltb_spec 0 (Z.of_nat (S (length rest)))) as [_ | ?]; [| lia].
    unfold slice. cbn [toInteger relIndex]. reflexivity. }
  rewrite Hcut.
  destruct (startState_stats w p0 entries) as (_ & Hc & Hf & _ & Hmc & Hmf & _).
  set (st0 := startState w p0 entries) in *.
  eexists. eexists. split; [reflexivity |].
  unfold finish. cbn [status finalTrace finalStats finalProgress].
  destruct (report_effect (CONFIG w) (runBatches (CONFIG w) w 0 [[]] st0))
    as (Ht & Hst & Hp).
  rewrite Ht, Hst, Hp.
  cbn [runBatches processBatch fold_left] in *.
  unfold checkpoint, startBatch, saveProgress, stamp, emit in *.
  cbn [stats progress trace length Z.of_nat migratedFiles migratedCount] in *.
  repeat split; try assumption.
  - rewrite !uploadsOf_app, reportTail_uploads.
    cbn [uploadsOf app]. rewrite !app_nil_r.
    unfold st0, startState. reflexivity.
  - apply in_or_app. left. apply in_or_app. left. apply in_or_app. left.
    apply in_or_app. right. now left.
  - rewrite !savesOf_app. unfold reportTail. rewrite !savesOf_app.
    cbn [stats progress trace].
    destruct (failed (stats st0) >? 0); reflexivity.
Qed.

(** X7.  With a positive batch size, a run that exits with code 0 has
    counted every remaining file once: as completed when its upload
    succeeded or was a duplicate, as failed otherwise.  The count of the
    record has grown by the completed files, and there is one error record
    for each failed file. *)
Theorem run_counts_every_remaining_file (fuel : nat) (w : World)
  (p0 : MigrationProgress) (entries : list string) (b : Z) (fin : Final) :
  ReachesEnumeration w p0 entries ->
  batchSize (CONFIG w) = Num b -> 0 < b ->
  main fuel w = Some fin ->
  status fin = Exited 0 ->
  total (finalStats fin) = Z.of_nat (length (pieceFilesOf entries))
  /\ completed (finalStats fin)
     = Z.of_nat (length (filter (isMigrated w)
                           (remainingOf p0 (pieceFilesOf entries))))
  /\ failed (finalStats fin)
     = Z.of_nat (length (filter (fun f => negb (isMigrated w f))
                           (remainingOf p0 (pieceFilesOf entries))))
  /\ completed (finalStats fin) + failed (finalStats fin)
     = Z.of_nat (length (remainingOf p0 (pieceFilesOf entries)))
  /\ Z.of_nat (length (errors (finalStats fin))) = failed (finalStats fin)
  /\ exists p,
       finalProgress fin = Some p
       /\ migratedCount p = migratedCount p0 + completed (finalStats fin).
Proof.
  intros Hre Hsize Hb Hm Hs.
  destruct (startState_stats w p0 entries) as (Ht0 & Hc0 & Hf0 & He0 & Hm0 & _).
  pose proof (filter_length (isMigrated w) (remainingOf p0 (pieceFilesOf entries)))
    as Hsum.
  destruct (main_exit0_cases fuel w p0 entries fin Hre Hm Hs)
    as [(Hrem & ->) | (batches & Hrem & Hcut & ->)].
  - rewrite Hrem in *. cbn [finish finalStats finalProgress progress stats
      filter length Z.of_nat].
    rewrite Ht0, Hc0, Hf0, He0. repeat split.
    exists p0. split; [reflexivity | lia].
  - rewrite Hsize in Hcut.
    pose proof (mkBatches_concat_pos b _ Hb fuel 0 batches (Z.le_refl 0) Hcut)
      as Hcat.
    cbn [Z.to_nat skipn] in Hcat.
    destruct (runBatches_accounted (CONFIG w) w batches 0 (startState w p0 entries))
      as (A1 & _ & A3 & A4 & A5 & _ & es & A7 & A8 & _).
    destruct (report_effect (CONFIG w)
                (runBatches (CONFIG w) w 0 batches (startState w p0 entries)))
      as (_ & Hst & Hp).
    cbn [finish finalStats finalProgress]. rewrite Hst, Hp.
    rewrite Hcat in *. rewrite A1, A3, A4, A7, Ht0, Hc0, Hf0, He0.
    cbn [app]. rewrite <- (length_map file es), A8.
    repeat split; try lia.
    eexists. split; [reflexivity |]. rewrite A5, Hm0. lia.
Qed.

(** X8.  With a positive batch size, the error records of a run that exits
    with code 0 are those of the remaining files that did not complete, one
    for each file, in the order in which the tasks have settled; each holds
    the message of what its task threw, behind the mark FILE_TOO_LARGE when
    the message is one of the size limit.  When a file failed the error log on disk parses back to these
    records; when none did, the run leaves an error log of an earlier run
    as it found it. *)
Theorem error_records_follow_the_files (fuel : nat) (w : World)
  (p0 : MigrationProgress) (entries : list string) (b : Z) (fin : Final) :
  ReachesEnumeration w p0 entries ->
  batchSize (CONFIG w) = Num b -> 0 < b ->
  main fuel w = Some fin ->
  status fin = Exited 0 ->
  Permutation (map file (errors (finalStats fin)))
    (filter (fun f => negb (isMigrated w f))
       (remainingOf p0 (pieceFilesOf entries)))
  /\ (forall r, In r (errors (finalStats fin)) ->
        exists msg,
          thrownMessage (attempt w (file r)) = Some msg
          /\ error r = (if isTooLargeMsg msg
                        then "FILE_TOO_LARGE: " ++ msg else msg)%string
          /\ timestamp r = errorTime w (file r))
  /\ (0 < failed (finalStats fin) ->
      exists data,
        finalDisk fin errorLogPath = Some data
        /\ JSON_parse data = Some (encodeErrors (errors (finalStats fin))))
  /\ (failed (finalStats fin) = 0 ->
      finalDisk fin errorLogPath = disk w errorLogPath).
Proof.
  intros Hre Hsize Hb Hm Hs.
  destruct (startState_stats w p0 entries) as (_ & _ & Hf0 & He0 & _).
  destruct (main_exit0_cases fuel w p0 entries fin Hre Hm Hs)
    as [(Hrem & ->) | (batches & Hrem & Hcut & ->)].
  - rewrite Hrem. cbn [finish finalStats finalDisk stats files filter].
    rewrite He0, Hf0. split; [apply Permutation_refl |].
    repeat split; try reflexivity.
    + intros r [].
    + lia.
  - rewrite Hsize in Hcut.
    pose proof (mkBatches_concat_pos b _ Hb fuel 0 batches (Z.le_refl 0) Hcut)
      as Hcat.
    cbn [Z.to_nat skipn] in Hcat.
    set (stN := runBatches (CONFIG w) w 0 batches (startState w p0 entries)).
    destruct (runBatches_accounted (CONFIG w) w batches 0 (startState w p0 entries))
      as (_ & _ & _ & _ & _ & _ & es & A7 & A8 & A9).
    fold stN in A7. rewrite He0 in A7. cbn [app] in A7.
    destruct (report_effect (CONFIG w) stN) as (_ & Hst & _).
    cbn [finish finalStats finalDisk]. rewrite Hst, A7.
    assert (Hlog : files stN errorLogPath = disk w errorLogPath)
      by (unfold stN; now rewrite runBatches_error_log).
    rewrite report_error_log, A7, Hlog. rewrite Hcat in A8.
    split; [rewrite A8; apply Permutation_refl |]. split; [| split].
    + intros r Hr. rewrite Forall_forall in A9.
      destruct (A9 r Hr) as (msg & H1 & _ & H2 & H3). eauto.
    + intros Hpos. apply Z.gtb_lt in Hpos. rewrite Hpos.
      eexists. split; [reflexivity |].
      apply JSON_parse_stringify, plain_encodeErrors.
    + intros Hz. rewrite Hz. reflexivity.
Qed.

(** X9.  A run that starts afresh and can set up its limiter, over a
    directory whose pieces all upload or turn out to be duplicates, ends
    with every piece in the record: the names are the pieces, in the order
    in which their tasks have settled, the count and the total are their
    number, nothing has failed, and the run closes on the verdict that all
    files were migrated, with code 0. *)
Theorem fresh_run_migrates_everything (w : World) (entries : list string) (b : Z) :
  ReachesEnumeration w (zeroProgress (loadTime w)) entries ->
  NoDup entries ->
  pieceFilesOf entries <> [] ->
  pLimitOk w = true ->
  batchSize (CONFIG w) = Num b -> 0 < b ->
  (forall f, In f (pieceFilesOf entries) -> isMigrated w f = true) ->
  exists fuel fin p,
    main fuel w = Some fin
    /\ status fin = Exited 0
    /\ finalProgress fin = Some p
    /\ Permutation (migratedFiles p) (pieceFilesOf entries)
    /\ migratedCount p = Z.of_nat (length (pieceFilesOf entries))
    /\ totalFiles p = Z.of_nat (length (pieceFilesOf entries))
    /\ completed (finalStats fin) = Z.of_nat (length (pieceFilesOf entries))
    /\ failed (finalStats fin) = 0
    /\ In (Log (LVerdict AllMigrated)) (finalTrace fin).
Proof.
  intros Hre Hnd Hne Hlim Hsize Hb Hall.
  set (p0 := zeroProgress (loadTime w)) in *.
  assert (Hrem : remainingOf p0 (pieceFilesOf entries) = pieceFilesOf entries).
  { unfold remainingOf. apply filter_all. reflexivity. }
  destruct (mkBatches_total_pos b (pieceFilesOf entries) Hb
              (S (length (pieceFilesOf entries))) 0 (Z.le_refl 0) ltac:(lia))
    as [batches Hcut].
  assert (Hmain : main (S (length (pieceFilesOf entries))) w
                  = Some (finish (report (CONFIG w)
                            (runBatches (CONFIG w) w 0 batches
                               (startState w p0 entries))))).
  { rewrite (main_reaches _ w p0 entries Hre). unfold migrate. cbv zeta.
    rewrite Hrem. destruct (pieceFilesOf entries) as [| f rest] eqn:E;
      [contradiction |].
    cbn [length Nat.eqb]. rewrite Hlim. cbn [negb]. rewrite Hsize.
    cbn [length] in Hcut. now rewrite Hcut. }
  set (stN := runBatches (CONFIG w) w 0 batches (startState w p0 entries)) in *.
  pose proof Hcut as Hcut'. rewrite <- Hrem in Hcut'.
  pose proof (mkBatches_concat_pos b _ Hb _ 0 batches (Z.le_refl 0) Hcut) as Hcat.
  cbn [Z.to_nat skipn] in Hcat.
  destruct (runBatches_final_progress _ w p0 entries b batches Hnd Hb Hcut')
    as [Hfiles Hcount].
  fold stN in Hfiles, Hcount. rewrite Hrem in Hfiles, Hcount.
  destruct (runBatches_accounted (CONFIG w) w batches 0 (startState w p0 entries))
    as (A1 & _ & A3 & A4 & _ & A6 & _).
  fold stN in A1, A3, A4, A6. rewrite Hcat in A3, A4.
  destruct (startState_stats w p0 entries) as (Ht0 & Hc0 & Hf0 & _ & _ & _ & Htf).
  assert (Hmig : filter (isMigrated w) (pieceFilesOf entries) = pieceFilesOf entries)
    by (now apply filter_all).
  assert (Hhan : filter (isHandled w) (pieceFilesOf entries) = pieceFilesOf entries).
  { apply filter_all. intros f Hf. specialize (Hall f Hf).
    unfold isMigrated, isHandled in *. now destruct (outcomeClass w f). }
  assert (Hnot : filter (fun f => negb (isMigrated w f)) (pieceFilesOf entries) = []).
  { pose proof (filter_length (isMigrated w) (pieceFilesOf entries)) as Hl.
    rewrite Hmig in Hl.
    destruct (filter (fun f => negb (isMigrated w f)) (pieceFilesOf entries));
      [reflexivity | cbn [length] in Hl; lia]. }
  rewrite Hmig in Hcount, A3. rewrite Hhan in Hfiles. rewrite Hnot in A4.
  cbn [length Z.of_nat p0 zeroProgress migratedFiles migratedCount app] in *.
  destruct (report_effect (CONFIG w) stN) as (Htr & Hst & Hp).
  exists (S (length (pieceFilesOf entries))), (finish (report (CONFIG w) stN)),
    (progress stN).
  cbn [finish status finalProgress finalStats finalTrace].
  rewrite Hst, Hp, Htr.
  repeat split; try assumption; try lia.
  { rewrite Hfiles. apply Permutation_refl. }
  apply in_or_app. right. unfold reportTail.
  apply in_or_app. right. apply in_or_app. right.
  replace (migratedCount (progress stN) =? total (stats stN)) with true
    by (symmetry; apply Z.eqb_eq; lia).
  replace (failed (stats stN) =? 0) with true
    by (symmetry; apply Z.eqb_eq; lia).
  cbn [andb]. right. right. now left.
Qed.

Local Open Scope string_scope.
Local Open Scope Z_scope.

(** ** parseInt on what intToString prints *)

Lemma digitsPrefix_stop (acc : option Z) (rest : string) :
  endsInteger rest = true -> digitsPrefix 10 acc rest = acc.
Proof.
  destruct rest as [| c r]; [reflexivity |]. cbn [endsInteger digitsPrefix].
  intros H. apply andb_true_iff in H. destruct H as [H _].
  apply andb_true_iff in H. destruct H as [H _]. revert H.
  destruct c as [[] [] [] [] [] [] [] []]; cbn; intros H;
    first [reflexivity | discriminate H].
Qed.

Lemma digitsPrefix_uint (u : Decimal.uint) (rest : string) :
  endsInteger rest = true ->
  (forall a : positive,
      digitsPrefix 10 (Some (Z.pos a)) (NilEmpty.string_of_uint u ++ rest)
      = Some (Z.pos (Pos.of_uint_acc u a))).
Proof.
  intros Hr. induction u as [| u IH | u IH | u IH | u IH | u IH | u IH | u IH
                             | u IH | u IH | u IH]; intros a;
    cbn [NilEmpty.string_of_uint append Pos.of_uint_acc];
    [now apply digitsPrefix_stop | ..];
    cbn [digitsPrefix];
    match goal with
    | |- context [digitVal 10 ?c] =>
        let v := eval cbv in (digitVal 10 c) in
        change (digitVal 10 c) with v
    end; cbv iota beta;
    match goal with
    | |- digitsPrefix 10 (Some ?x) _ = Some (Z.pos (Pos.of_uint_acc u ?y)) =>
        replace x with (Z.pos y) by lia
    end; apply IH.
Qed.

Lemma wsLen_low (c : ascii) (r : string) :
  (code c <? 128)%nat = true ->
  ((9 <=? code c) && (code c <=? 13) || (code c =? 32))%nat = false ->
  wsLen (String c r) = 0%nat.
Proof.
  intros Hlow Hws. apply Nat.ltb_lt in Hlow. unfold wsLen. rewrite Hws.
  assert (E : forall k, (128 <= k)%nat -> (code c =? k)%nat = false)
    by (intros k Hk; apply Nat.eqb_neq; lia).
  destruct r as [| c2 [| c3 r3]]; try reflexivity.
  - now rewrite (E 194%nat) by lia.
  - rewrite (E 194%nat), (E 225%nat), (E 226%nat), (E 227%nat), (E 239%nat) by lia.
    reflexivity.
Qed.

Lemma trimStart_low (c : ascii) (r : string) :
  (code c <? 128)%nat = true ->
  ((9 <=? code c) && (code c <=? 13) || (code c =? 32))%nat = false ->
  trimStart (String c r) = String c r.
Proof.
  intros Hlow Hws. unfold trimStart. cbn [String.length trimStartFuel].
  now rewrite (wsLen_low c r Hlow Hws).
Qed.

Lemma parseInt_positive (p : positive) (rest : string) :
  endsInteger rest = true ->
  parseInt (natToString (Npos p) ++ rest) = Num (Z.pos p)
  /\ parseInt (String "-" (natToString (Npos p) ++ rest)) = Num (Z.neg p).
Proof.
  intros Hr. unfold natToString. cbn [N.to_uint].
  pose proof (DecimalPos.Unsigned.of_to p) as Hof.
  destruct (to_uint_head p) as (c & t & E & _ & H0 & _).
  destruct (Pos.to_uint p) as [| u | u | u | u | u | u | u | u | u | u] eqn:U;
    cbn [NilEmpty.string_of_uint] in E; try discriminate E;
    try (injection E as <- _; discriminate H0);
    clear E H0 c t;
    cbn [Pos.of_uint] in Hof; injection Hof as Hof;
    cbn [NilEmpty.string_of_uint append];
    (split;
     [ unfold parseInt; rewrite trimStart_low by reflexivity
     | unfold parseInt; rewrite trimStart_low by reflexivity ]);
    cbv zeta; cbn [digitsPrefix];
    match goal with
    | |- context [digitVal 10 ?c] =>
        let v := eval cbv in (digitVal 10 c) in
        change (digitVal 10 c) with v
    end; cbv iota beta;
    rewrite (digitsPrefix_uint u rest Hr), Hof; reflexivity.
Qed.

Lemma parseInt_zero (rest : string) :
  endsInteger rest = true -> parseInt (String "0" rest) = Num 0.
Proof.
  intros Hr. unfold parseInt. rewrite trimStart_low by reflexivity. cbv zeta.
  destruct rest as [| c r]; [reflexivity |].
  cbn [endsInteger] in Hr.
  destruct c as [[] [] [] [] [] [] [] []]; try discriminate Hr; reflexivity.
Qed.

Lemma parseInt_intToString (z : Z) (rest : string) :
  endsInteger rest = true -> parseInt (intToString z ++ rest) = Num z.
Proof.
  intros Hr. unfold intToString. destruct z as [| p | p]; cbn [Z.ltb Z.compare].
  - now apply parseInt_zero.
  - now apply parseInt_positive.
  - cbn [Z.opp Z.to_N append]. now apply parseInt_positive.
Qed.

Lemma orDefault_text (z : Z) (rest dflt : string) :
  orDefault (Some (intToString z ++ rest)) dflt = intToString z ++ rest.
Proof.
  unfold intToString. destruct (z <? 0); [reflexivity |].
  unfold natToString. destruct (Z.to_N z) as [| p]; [reflexivity |].
  destruct (to_uint_head p) as (c & t & E & _). cbn [N.to_uint].
  now rewrite E.
Qed.

(** X10.  A numeric setting of the environment whose text is a decimal
    integer, as printed, followed by the end or by anything that is not a
    digit or an x, is read as that integer: the characters after the
    digits are ignored.  (Integers up to 2^53, which JavaScript numbers
    hold exactly.) *)
Theorem numeric_settings_read_decimal (w : World) (z : Z) (rest : string) :
  - 2 ^ 53 <= z <= 2 ^ 53 ->
  endsInteger rest = true ->
  (env w "PROVIDER_ID" = Some (intToString z ++ rest) ->
   providerId (CONFIG w) = Num z)
  /\ (env w "CONCURRENCY" = Some (intToString z ++ rest) ->
      concurrency (CONFIG w) = Num z)
  /\ (env w "LOG_INTERVAL" = Some (intToString z ++ rest) ->
      logInterval (CONFIG w) = Num z)
  /\ (env w "BATCH_SIZE" = Some (intToString z ++ rest) ->
      batchSize (CONFIG w) = Num z).
Proof.
  intros _ Hr. unfold CONFIG. cbv zeta.
  cbn [providerId concurrency logInterval batchSize].
  repeat split; intros ->; rewrite orDefault_text;
    now apply parseInt_intToString.
Qed.

(** ** The RPC endpoint *)

Lemma startsWith_app (needle rest : string) :
  startsWith needle (needle ++ rest) = true.
Proof.
  induction needle as [| c n IH]; [reflexivity |].
  cbn [append startsWith]. now rewrite Ascii.eqb_refl, IH.
Qed.

Lemma includes_app (pre needle post : string) :
  includes needle (pre ++ needle ++ post) = true.
Proof.
  induction pre as [| c pre IH].
  - cbn [append]. destruct (needle ++ post) eqn:E;
      cbn [includes]; rewrite <- E, startsWith_app; reflexivity.
  - cbn [append includes]. rewrite IH. apply orb_true_r.
Qed.

(** X11.  With LOCAL_LOTUS_IP set, the endpoint and what main reports of it
    follow the probe only as long as RPC_URL is not set: a node that
    answered gives the local address, the default concurrency 20 and the
    line of the local node; a node that did not answer gives the public
    address and the default concurrency 10.  An RPC_URL that is set is the
    endpoint whatever the probe found, and the line of the local node is
    printed exactly when that address contains the text of LOCAL_LOTUS_IP. *)
Theorem rpc_endpoint_follows_probe (w : World) (c : ascii) (r : string) :
  env w "LOCAL_LOTUS_IP" = Some (String c r) ->
  (falsyStr (env w "RPC_URL") = true ->
   rpcUrl (CONFIG w)
   = (if localLotus w then "http://" ++ String c r ++ ":1234/rpc/v1"
      else calibrationRpc w)
   /\ (localLotus w = true -> rpcStatus w = UsingLocalNode (String c r)))
  /\ (falsyStr (env w "CONCURRENCY") = true ->
      concurrency (CONFIG w) = Num (if localLotus w then 20 else 10))
  /\ (forall url,
        env w "RPC_URL" = Some url -> url <> EmptyString ->
        rpcUrl (CONFIG w) = url
        /\ rpcStatus w = (if includes (String c r) url
                          then UsingLocalNode (String c r)
                          else LocalNotReachable (String c r))).
Proof.
  intros Hip. unfold rpcStatus, CONFIG, detectRpcEndpoint. rewrite Hip.
  cbv zeta. cbn [rpcUrl concurrency].
  split; [| split].
  - intros Hurl.
    assert (Hd : forall dflt, orDefault (env w "RPC_URL") dflt = dflt).
    { intros dflt. destruct (env w "RPC_URL") as [[| ? ?] |];
        try reflexivity; discriminate Hurl. }
    rewrite Hd. destruct (localLotus w); cbn [fst].
    + split; [reflexivity |]. intros _.
      now rewrite (includes_app "http://" (String c r) ":1234/rpc/v1").
    + split; [reflexivity |]. discriminate.
  - intros Hc.
    assert (Hd : forall dflt, orDefault (env w "CONCURRENCY") dflt = dflt).
    { intros dflt. destruct (env w "CONCURRENCY") as [[| ? ?] |];
        try reflexivity; discriminate Hc. }
    rewrite Hd. now destruct (localLotus w).
  - intros url Hurl Hne. rewrite Hurl.
    destruct url as [| a u]; [contradiction |]. cbn [orDefault].
    split; reflexivity.
Qed.

Local Open Scope list_scope.

(** ** The progress lines *)

Lemma progressLinesOf_app (a b : list Event) :
  progressLinesOf (a ++ b) = progressLinesOf a ++ progressLinesOf b.
Proof.
  induction a as [| e a IH]; [reflexivity |].
  destruct e as [[] | | | |]; simpl; now rewrite IH.
Qed.

Lemma In_progressLinesOf (tr : list Event) (c t : Z) :
  In (c, t) (progressLinesOf tr) <-> In (Log (LProgress c t)) tr.
Proof.
  induction tr as [| e tr IH]; [reflexivity |].
  destruct e as [[] | | | |]; simpl; rewrite IH;
    intuition (try discriminate; try congruence).
Qed.

Lemma ProgressLines_same (cfg : Config) (st st' : RunState) (delta : list Event) :
  stats st' = stats st -> trace st' = trace st ++ delta ->
  progressLinesOf delta = [] ->
  ProgressLines cfg st -> ProgressLines cfg st'.
Proof.
  intros Hs Ht Hd [H0 H]. unfold ProgressLines.
  now rewrite Hs, Ht, progressLinesOf_app, Hd, app_nil_r.
Qed.

Lemma ProgressLinesDivide_same (cfg : Config) (st st' : RunState)
  (delta : list Event) :
  stats st' = stats st -> trace st' = trace st ++ delta ->
  progressLinesOf delta = [] ->
  ProgressLinesDivide cfg st -> ProgressLinesDivide cfg st'.
Proof.
  intros Hs Ht Hd [H0 H]. unfold ProgressLinesDivide. rewrite Hs, Ht.
  split; [assumption |]. intros c t Hin. apply H.
  apply in_app_or in Hin. destruct Hin as [Hin | Hin]; [assumption |].
  apply In_progressLinesOf in Hin. rewrite Hd in Hin. contradiction.
Qed.

Lemma processFile_progress_lines (cfg : Config) (w : World) (f : string)
  (st : RunState) :
  outcomeClass w f <> Duplicate ->
  ProgressLines cfg st -> ProgressLines cfg (fst (processFile cfg w f st)).
Proof.
  intros Hnd [H0 H]. unfold ProgressLines.
  unfold outcomeClass in Hnd. unfold processFile, onError.
  destruct (attempt w f) as [m | m | cid]; cbn [thrownMessage classify] in Hnd;
    try (destruct (isDuplicateMsg m); [congruence |];
         destruct (isTooLargeMsg m);
         cbn [fst stats trace emit countFailed completed total];
         rewrite ?progressLinesOf_app; cbn [progressLinesOf];
         rewrite ?app_nil_r; split; assumption).
  cbn [fst stats countCompleted completed total].
  split; [lia |].
  replace (Z.to_nat (completed (stats st) + 1))
    with (S (Z.to_nat (completed (stats st)))) by lia.
  rewrite seq_S, filter_app, map_app. cbn [filter plus].
  replace (Z.of_nat (S (Z.to_nat (completed (stats st)))))
    with (completed (stats st) + 1) by lia.
  cbn [trace].
  destruct (remIsZero (completed (stats st) + 1) (logInterval cfg)).
  - rewrite !progressLinesOf_app. cbn [progressLinesOf map]. rewrite H.
    cbn [app]. rewrite ?app_nil_r. do 3 f_equal. lia.
  - rewrite !progressLinesOf_app. cbn [progressLinesOf map]. rewrite H.
    now rewrite ?app_nil_r.
Qed.

Lemma processFile_progress_divide (cfg : Config) (w : World) (f : string)
  (st : RunState) :
  ProgressLinesDivide cfg st ->
  ProgressLinesDivide cfg (fst (processFile cfg w f st)).
Proof.
  intros [H0 H]. unfold ProgressLinesDivide.
  assert (Hup : forall st' delta,
            trace st' = trace st ++ delta ->
            total (stats st') = total (stats st) ->
            completed (stats st) <= completed (stats st') ->
            (forall c t, In (Log (LProgress c t)) delta ->
               remIsZero c (logInterval cfg) = true
               /\ 1 <= c <= completed (stats st') /\ t = total (stats st)) ->
            0 <= completed (stats st')
            /\ forall c t, In (Log (LProgress c t)) (trace st') ->
                 remIsZero c (logInterval cfg) = true
                 /\ 1 <= c <= completed (stats st')
                 /\ t = total (stats st')).
  { intros st' delta Ht Htot Hc Hd. split; [lia |]. intros c t Hin.
    rewrite Ht in Hin. rewrite Htot. apply in_app_or in Hin.
    destruct Hin as [Hin | Hin].
    - destruct (H c t Hin) as (A & B & C). repeat split; try assumption; lia.
    - now apply Hd. }
  unfold processFile, onError.
  destruct (attempt w f) as [m | m | cid];
    try (destruct (isDuplicateMsg m); [| destruct (isTooLargeMsg m)]);
    cbn [fst].
  1-6: eapply Hup;
    [ cbn [trace emit]; rewrite <- ?app_assoc; reflexivity
    | reflexivity
    | cbn [stats emit countCompleted countFailed completed]; lia
    | intros c t Hin; cbn [app In] in Hin;
      repeat (destruct Hin as [Hin | Hin]; [discriminate Hin |]);
      contradiction ].
  destruct (remIsZero (completed (countCompleted (stats st))) (logInterval cfg))
    eqn:E.
  - eapply Hup;
      [ cbn [trace]; rewrite <- ?app_assoc; reflexivity
      | reflexivity
      | cbn [stats countCompleted completed]; lia
      | ].
    intros c t Hin. cbn [app In] in Hin.
    destruct Hin as [Hin | [Hin | [Hin | []]]]; try discriminate Hin.
    injection Hin as <- <-. cbn [stats countCompleted completed total] in *.
    repeat split; try assumption; lia.
  - eapply Hup;
      [ cbn [trace]; reflexivity
      | reflexivity
      | cbn [stats countCompleted completed]; lia
      | ].
    intros c t Hin. cbn [In] in Hin.
    destruct Hin as [Hin | [Hin | []]]; discriminate Hin.
Qed.

Lemma migrate_cases (fuel : nat) (w : World) (p0 : MigrationProgress)
  (entries : list string) (fin : Final) :
  migrate fuel w p0 entries = Some fin ->
  fin = finish {| progress := p0; stats := stats (startState w p0 entries);
                  trace := trace (startState w p0 entries)
                           ++ [Log LAllAlreadyMigrated];
                  files := disk w |}
  \/ fin = fatal LimitError (trace (startState w p0 entries)) (disk w)
             (stats (startState w p0 entries))
             (Some (progress (startState w p0 entries)))
  \/ exists batches,
       mkBatches fuel (batchSize (CONFIG w))
         (remainingOf p0 (pieceFilesOf entries)) (Num 0) = Some batches
       /\ fin = finish (report (CONFIG w)
                          (runBatches (CONFIG w) w 0 batches
                             (startState w p0 entries))).
Proof.
  unfold migrate. cbv zeta.
  destruct (length (remainingOf p0 (pieceFilesOf entries)) =? 0)%nat.
  - intros H. injection H as <-. now left.
  - destruct (pLimitOk w); cbn [negb].
    + destruct (mkBatches fuel (batchSize (CONFIG w))
                  (remainingOf p0 (pieceFilesOf entries)) (Num 0))
        as [batches |]; intros H; [| discriminate].
      injection H as <-. right. right. exists batches. split; reflexivity.
    + intros H. injection H as <-. right. now left.
Qed.

Lemma startState_progress_lines (w : World) (p0 : MigrationProgress)
  (entries : list string) :
  progressLinesOf (trace (startState w p0 entries)) = [].
Proof.
  unfold startState, resumeLine. cbv zeta. cbn [trace].
  now destruct (migratedCount p0 >? 0).
Qed.

Lemma reportTail_progress_lines (cfg : Config) (st : RunState) :
  progressLinesOf (reportTail cfg st) = [].
Proof.
  unfold reportTail. destruct (failed (stats st) >? 0); reflexivity.
Qed.

Lemma runBatches_progress_lines (w : World) (allowed : list string)
  (batches : list (list string)) (i : nat) (st : RunState) :
  (forall f, In f allowed -> outcomeClass w f <> Duplicate) ->
  (forall b, In b batches -> incl b allowed) ->
  ProgressLines (CONFIG w) st ->
  ProgressLines (CONFIG w) (runBatches (CONFIG w) w i batches st).
Proof.
  intros Hdup Hin Hst.
  apply (runBatches_invariant (CONFIG w) w (ProgressLines (CONFIG w)) allowed);
    try assumption.
  - intros f s Hf. apply processFile_progress_lines. now apply Hdup.
  - intros j b s. apply (ProgressLines_same _ s _ [Log (LBatch j (Z.of_nat (length b)))]);
      reflexivity.
  - intros j s.
    apply (ProgressLines_same _ s _
             [SaveProgress (progress (stamp (batchTime w j) s));
              WriteFile (progressFile (CONFIG w))
                (serialize (progress (stamp (batchTime w j) s)));
              Log (LBatchSaved j)]); try reflexivity.
    unfold checkpoint, saveProgress, emit, stamp. cbn [trace].
    now rewrite <- app_assoc.
Qed.

Lemma runBatches_progress_divide (w : World) (batches : list (list string))
  (i : nat) (st : RunState) :
  ProgressLinesDivide (CONFIG w) st ->
  ProgressLinesDivide (CONFIG w) (runBatches (CONFIG w) w i batches st).
Proof.
  intros Hst.
  apply (runBatches_invariant (CONFIG w) w (ProgressLinesDivide (CONFIG w))
           (concat batches)); try assumption.
  - intros f s _. apply processFile_progress_divide.
  - intros j b s.
    apply (ProgressLinesDivide_same _ s _ [Log (LBatch j (Z.of_nat (length b)))]);
      reflexivity.
  - intros j s.
    apply (ProgressLinesDivide_same _ s _
             [SaveProgress (progress (stamp (batchTime w j) s));
              WriteFile (progressFile (CONFIG w))
                (serialize (progress (stamp (batchTime w j) s)));
              Log (LBatchSaved j)]); try reflexivity.
    unfold checkpoint, saveProgress, emit, stamp. cbn [trace].
    now rewrite <- app_assoc.
  - intros b Hb x Hx. apply in_concat. eauto.
Qed.

(** X12.  A progress line is printed only after an upload that brings the
    completed count to a multiple of LOG_INTERVAL, and it shows that count
    against the number of candidates; with an interval of 0 or one that is
    not a number there is none.  When no remaining file turns out to be a
    duplicate, the progress lines are exactly one for every multiple of
    the interval up to the completed count, in order. *)
Theorem progress_lines_at_multiples (fuel : nat) (w : World)
  (p0 : MigrationProgress) (entries : list string) (fin : Final) :
  ReachesEnumeration w p0 entries ->
  main fuel w = Some fin ->
  (forall c t,
      In (Log (LProgress c t)) (finalTrace fin) ->
      remIsZero c (logInterval (CONFIG w)) = true
      /\ 1 <= c <= completed (finalStats fin)
      /\ t = Z.of_nat (length (pieceFilesOf entries)))
  /\ (falsyNum (logInterval (CONFIG w)) = true ->
      progressLinesOf (finalTrace fin) = [])
  /\ ((forall f, In f (remainingOf p0 (pieceFilesOf entries)) ->
                 outcomeClass w f <> Duplicate) ->
      progressLinesOf (finalTrace fin)
      = map (fun k => (Z.of_nat k, Z.of_nat (length (pieceFilesOf entries))))
          (filter (fun k => remIsZero (Z.of_nat k) (logInterval (CONFIG w)))
             (seq 1 (Z.to_nat (completed (finalStats fin)))))).
Proof.
  intros Hre Hm. rewrite (main_reaches fuel w p0 entries Hre) in Hm.
  destruct (startState_stats w p0 entries) as (Ht0 & Hc0 & _).
  pose proof (startState_progress_lines w p0 entries) as Hl0.
  set (st0 := startState w p0 entries) in *.
  assert (Hfalsy : forall c, falsyNum (logInterval (CONFIG w)) = true ->
                             remIsZero c (logInterval (CONFIG w)) = false).
  { intros c. unfold falsyNum, remIsZero.
    destruct (logInterval (CONFIG w)) as [| d]; [reflexivity |].
    now intros ->. }
  assert (Hgoal : forall st,
            finalTrace fin = trace st -> finalStats fin = stats st ->
            total (stats st) = Z.of_nat (length (pieceFilesOf entries)) ->
            ProgressLinesDivide (CONFIG w) st ->
            ((forall f, In f (remainingOf p0 (pieceFilesOf entries)) ->
                        outcomeClass w f <> Duplicate) ->
             ProgressLines (CONFIG w) st) ->
            (forall c t,
                In (Log (LProgress c t)) (finalTrace fin) ->
                remIsZero c (logInterval (CONFIG w)) = true
                /\ 1 <= c <= completed (finalStats fin)
                /\ t = Z.of_nat (length (pieceFilesOf entries)))
            /\ (falsyNum (logInterval (CONFIG w)) = true ->
                progressLinesOf (finalTrace fin) = [])
            /\ ((forall f, In f (remainingOf p0 (pieceFilesOf entries)) ->
                           outcomeClass w f <> Duplicate) ->
                progressLinesOf (finalTrace fin)
                = map (fun k => (Z.of_nat k,
                                 Z.of_nat (length (pieceFilesOf entries))))
                    (filter (fun k => remIsZero (Z.of_nat k)
                                        (logInterval (CONFIG w)))
                       (seq 1 (Z.to_nat (completed (finalStats fin))))))).
  { intros st Htr Hst Htot [_ Hdiv] Hexact. rewrite Htr, Hst.
    split; [| split].
    - intros c t Hin. destruct (Hdiv c t Hin) as (A & B & C).
      repeat split; try assumption; try lia; congruence.
    - intros Hf. destruct (progressLinesOf (trace st)) as [| [c t] rest] eqn:E;
        [reflexivity |].
      assert (Hin : In (Log (LProgress c t)) (trace st)).
      { apply In_progressLinesOf. rewrite E. now left. }
      destruct (Hdiv c t Hin) as (A & _). rewrite (Hfalsy c Hf) in A.
      discriminate.
    - intros Hnd. destruct (Hexact Hnd) as [_ H]. now rewrite H, Htot. }
  assert (Hd0 : ProgressLinesDivide (CONFIG w) st0).
  { split; [lia |]. intros c t Hin. apply In_progressLinesOf in Hin.
    rewrite Hl0 in Hin. contradiction. }
  assert (He0 : ProgressLines (CONFIG w) st0).
  { split; [lia |]. rewrite Hl0, Hc0. reflexivity. }
  destruct (migrate_cases fuel w p0 entries fin Hm)
    as [-> | [-> | (batches & Hcut & ->)]].
  - apply (Hgoal {| progress := p0; stats := stats st0;
                    trace := trace st0 ++ [Log LAllAlreadyMigrated];
                    files := disk w |}); try reflexivity; try assumption.
    + now apply (ProgressLinesDivide_same _ st0 _ [Log LAllAlreadyMigrated]).
    + intros _. now apply (ProgressLines_same _ st0 _ [Log LAllAlreadyMigrated]).
  - apply (Hgoal {| progress := p0; stats := stats st0;
                    trace := trace st0 ++ [Log (LFatal (exnMessage LimitError))];
                    files := disk w |}); try reflexivity; try assumption.
    + now apply (ProgressLinesDivide_same _ st0 _
                   [Log (LFatal (exnMessage LimitError))]).
    + intros _. now apply (ProgressLines_same _ st0 _
                             [Log (LFatal (exnMessage LimitError))]).
  - set (stN := runBatches (CONFIG w) w 0 batches st0).
    destruct (report_effect (CONFIG w) stN) as (Htr & Hst & _).
    destruct (runBatches_accounted (CONFIG w) w batches 0 st0) as (A1 & _).
    fold stN in A1.
    apply (Hgoal (report (CONFIG w) stN)); try reflexivity.
    + rewrite Hst. congruence.
    + apply (ProgressLinesDivide_same _ stN _ (reportTail (CONFIG w) stN));
        try assumption.
      * apply reportTail_progress_lines.
      * now apply runBatches_progress_divide.
    + intros Hnd.
      apply (ProgressLines_same _ stN _ (reportTail (CONFIG w) stN));
        try assumption.
      * apply reportTail_progress_lines.
      * apply (runBatches_progress_lines w
                 (remainingOf p0 (pieceFilesOf entries))); try assumption.
        intros b Hb. exact (mkBatches_incl _ _ _ _ _ Hcut b Hb).
Qed.

(** ** A signal in the middle of a batch *)





(** ** The numbers of the report *)

Lemma filter_members_length (names pieces : list string) :
  NoDup names -> NoDup pieces -> incl names pieces ->
  length (filter (Set_has names) pieces) = length names.
Proof.
  intros Hn Hp Hincl. apply Permutation_length, NoDup_Permutation.
  - now apply NoDup_filter.
  - assumption.
  - intros x. rewrite filter_In, Set_has_true_iff. split; [tauto |].
    intros Hx. split; [now apply Hincl | assumption].
Qed.

(** X14.  When the loaded record is consistent with the directory (its
    count is the number of its names, and every name is a piece of the
    directory), the numbers of the final report add up: the total is the
    files skipped as already migrated plus those newly migrated plus those
    failed, and the count of the record is the skipped plus the newly
    migrated. *)
Theorem report_numbers_add_up (fuel : nat) (w : World)
  (p0 : MigrationProgress) (entries : list string) (b : Z) (fin : Final) :
  ReachesEnumeration w p0 entries ->
  NoDup entries ->
  migratedCount p0 = Z.of_nat (length (migratedFiles p0)) ->
  incl (migratedFiles p0) (pieceFilesOf entries) ->
  batchSize (CONFIG w) = Num b -> 0 < b ->
  main fuel w = Some fin ->
  status fin = Exited 0 ->
  exists p,
    finalProgress fin = Some p
    /\ total (finalStats fin)
       = skipped (finalStats fin) + completed (finalStats fin)
         + failed (finalStats fin)
    /\ migratedCount p = skipped (finalStats fin) + completed (finalStats fin)
    /\ (remainingOf p0 (pieceFilesOf entries) <> [] ->
        In (Log (LReport (total (finalStats fin)) (skipped (finalStats fin))
                   (completed (finalStats fin)) (failed (finalStats fin))
                   (migratedCount p)))
           (finalTrace fin)).
Proof.
  intros Hre Hnd Hcount Hincl Hsize Hb Hm Hs.
  pose proof Hre as (_ & _ & Hload & _).
  pose proof (loadProgress_NoDup _ _ _ _ Hload) as Hnd0.
  assert (Hpieces : NoDup (pieceFilesOf entries))
    by (unfold pieceFilesOf; now apply NoDup_filter).
  pose proof (filter_length (Set_has (migratedFiles p0)) (pieceFilesOf entries))
    as Hsplit.
  rewrite (filter_members_length _ _ Hnd0 Hpieces Hincl) in Hsplit.
  fold (remainingOf p0 (pieceFilesOf entries)) in Hsplit.
  assert (Hskip : skipped (stats (startState w p0 entries)) = migratedCount p0).
  { unfold startState, resumeStats. cbv zeta. cbn [stats withTotal skipped].
    destruct (Z.gtb_spec (migratedCount p0) 0); cbn [skipped stats0]; lia. }
  destruct (startState_stats w p0 entries) as (Ht0 & Hc0 & Hf0 & _ & Hm0 & _).
  pose proof (filter_length (isMigrated w) (remainingOf p0 (pieceFilesOf entries)))
    as Hsum.
  destruct (main_exit0_cases fuel w p0 entries fin Hre Hm Hs)
    as [(Hrem & ->) | (batches & Hrem & Hcut & ->)].
  - exists p0. cbn [finish finalProgress finalStats finalTrace stats progress].
    rewrite Hrem in *. cbn [length] in Hsplit.
    repeat split; try lia. contradiction.
  - rewrite Hsize in Hcut.
    pose proof (mkBatches_concat_pos b _ Hb fuel 0 batches (Z.le_refl 0) Hcut)
      as Hcat.
    cbn [Z.to_nat skipn] in Hcat.
    set (stN := runBatches (CONFIG w) w 0 batches (startState w p0 entries)).
    destruct (runBatches_accounted (CONFIG w) w batches 0 (startState w p0 entries))
      as (A1 & A2 & A3 & A4 & A5 & _).
    fold stN in A1, A2, A3, A4, A5. rewrite Hcat in A3, A4, A5.
    destruct (report_effect (CONFIG w) stN) as (Htr & Hst & Hp).
    exists (progress stN). cbn [finish finalProgress finalStats finalTrace].
    rewrite Hst, Hp, Htr.
    repeat split; try lia.
    intros _. apply in_or_app. right. unfold reportTail.
    apply in_or_app. left. now left.
Qed.

(** ** The plain migration script *)

Lemma checkpoint_saves (cfg : Config) (w : World) (i : nat) (st : RunState) :
  savesOf (trace (checkpoint cfg w i st))
  = savesOf (trace st) ++ [progress (stamp (batchTime w i) st)].
Proof.
  unfold checkpoint, saveProgress, emit. cbn [trace progress].
  rewrite !savesOf_app. cbn [savesOf stamp trace]. now rewrite app_nil_r.
Qed.

Lemma startBatch_saves (i : nat) (b : list string) (st : RunState) :
  savesOf (trace (startBatch i b st)) = savesOf (trace st).
Proof.
  unfold startBatch, emit. cbn [trace]. rewrite savesOf_app.
  cbn [savesOf]. apply app_nil_r.
Qed.

Lemma basic_processFile_progress (cfg : Config) (w : World)
  (p0 : MigrationProgress) (f : string) (done : list string) (st : RunState) :
  ~ In f (migratedFiles p0) -> ~ In f done ->
  Basic.ProgressAt w p0 done (progress st) ->
  Basic.ProgressAt w p0 (done ++ [f]) (progress (Basic.processFile cfg w f st)).
Proof.
  intros H0 Hd [Hf Hc].
  assert (Hnew : ~ In f (migratedFiles (progress st))).
  { rewrite Hf, in_app_iff, filter_In. tauto. }
  unfold Basic.ProgressAt. rewrite !filter_app, !length_app. cbn [filter].
  unfold Basic.uploaded at 2 4. unfold Basic.processFile, Basic.onError.
  destruct (attempt w f) as [m | m | cid];
    cbn [progress markMigrated migratedFiles migratedCount emit length];
    rewrite ?(Set_add_new _ _ Hnew), ?Hf, ?Hc, ?app_nil_r, <- ?app_assoc;
    split; try reflexivity; simpl; lia.
Qed.

Lemma basic_processFile_trace (cfg : Config) (w : World) (f : string)
  (st : RunState) :
  exists delta,
    trace (Basic.processFile cfg w f st) = trace st ++ delta
    /\ savesOf delta = []
    /\ files (Basic.processFile cfg w f st) = files st.
Proof.
  unfold Basic.processFile, Basic.onError.
  destruct (attempt w f) as [m | m | cid]; cbn [trace files emit].
  - eexists. repeat split.
  - rewrite <- app_assoc. eexists. repeat split.
  - destruct (remIsZero _ _); [rewrite <- app_assoc |]; eexists; repeat split.
Qed.

Lemma basic_processBatch_progress (cfg : Config) (w : World)
  (p0 : MigrationProgress) (batch : list string) :
  forall done st,
    NoDup (done ++ batch) ->
    (forall f, In f batch -> ~ In f (migratedFiles p0)) ->
    Basic.ProgressAt w p0 done (progress st) ->
    Basic.ProgressAt w p0 (done ++ batch)
      (progress (Basic.processBatch cfg w batch st))
    /\ savesOf (trace (Basic.processBatch cfg w batch st)) = savesOf (trace st)
    /\ files (Basic.processBatch cfg w batch st) = files st.
Proof.
  unfold Basic.processBatch.
  induction batch as [| f batch IH]; intros done st Hnd H0 Hp.
  - rewrite app_nil_r. auto.
  - cbn [fold_left].
    replace (done ++ f :: batch) with ((done ++ [f]) ++ batch) in *
      by (now rewrite <- app_assoc).
    destruct (IH (done ++ [f]) (Basic.processFile cfg w f st)) as (I1 & I2 & I3).
    + assumption.
    + intros g Hg. apply H0. now right.
    + apply basic_processFile_progress; [apply H0; now left | | assumption].
      apply NoDup_app_remove_r in Hnd. apply NoDup_remove_2 in Hnd.
      now rewrite app_nil_r in Hnd.
    + destruct (basic_processFile_trace cfg w f st) as (delta & Ht & Hs & Hfl).
      rewrite I2, I3, Ht, savesOf_app, Hs, app_nil_r. auto.
Qed.

Lemma basic_runBatches_progress (cfg : Config) (w : World)
  (p0 : MigrationProgress) (batches : list (list string)) :
  forall i done st,
    NoDup (done ++ concat batches) ->
    (forall f, In f (concat batches) -> ~ In f (migratedFiles p0)) ->
    Basic.ProgressAt w p0 done (progress st) ->
    (forall p, In p (savesOf (trace st)) -> exists d, Basic.ProgressAt w p0 d p) ->
    Basic.ProgressAt w p0 (done ++ concat batches)
      (progress (Basic.runBatches cfg w i batches st))
    /\ (forall p, In p (savesOf (trace (Basic.runBatches cfg w i batches st))) ->
                  exists d, Basic.ProgressAt w p0 d p).
Proof.
  induction batches as [| b batches IH]; intros i done st Hnd H0 Hp Hs.
  - cbn [concat Basic.runBatches]. rewrite app_nil_r. auto.
  - cbn [Basic.runBatches concat] in *. rewrite app_assoc in *.
    destruct (basic_processBatch_progress cfg w p0 b done (startBatch i b st))
      as (P1 & P2 & _).
    + now apply NoDup_app_remove_r in Hnd.
    + intros f Hf. apply H0. apply in_or_app. now left.
    + exact Hp.
    + apply IH.
      * assumption.
      * intros f Hf. apply H0. apply in_or_app. now right.
      * exact P1.
      * intros p. rewrite checkpoint_saves, P2, startBatch_saves.
        intros H. apply in_app_or in H. destruct H as [H | [<- | []]];
          [now apply Hs |].
        exists (done ++ b). destruct P1 as [Q1 Q2]. split; assumption.
Qed.

Lemma basic_main_loaded (fuel : nat) (w : World) (p0 : MigrationProgress)
  (entries : list string) (fin : Final) :
  loadProgress (Basic.CONFIG w) (disk w) (loadTime w) = Loaded p0 ->
  readdir w = Some entries ->
  Basic.main fuel w = Some fin ->
  (status fin = Exited 1 /\ finalTrace fin = [Log (LFatal (exnMessage
      match thrown fin with Some e => e | None => SdkError end))])
  \/ Basic.migrate fuel w p0 entries = Some fin.
Proof.
  intros Hl Hr. unfold Basic.main. cbv zeta. rewrite Hl, Hr.
  destruct (falsyStr _); [intros H; injection H as <-; now left |].
  destruct (falsyNum _); [intros H; injection H as <-; now left |].
  destruct (synapseCreate w); cbn [negb];
    [| intros H; injection H as <-; now left].
  destruct (createContext w); cbn [negb];
    [| intros H; injection H as <-; now left].
  now right.
Qed.

Lemma basic_migrate_cases (fuel : nat) (w : World) (p0 : MigrationProgress)
  (entries : list string) (fin : Final) :
  Basic.migrate fuel w p0 entries = Some fin ->
  (remainingOf p0 (pieceFilesOf entries) = []
   /\ fin = finish {| progress := p0;
                      stats := stats (Basic.startState w p0 entries);
                      trace := trace (Basic.startState w p0 entries)
                               ++ [Log LAllAlreadyMigrated];
                      files := disk w |})
  \/ fin = fatal LimitError (trace (Basic.startState w p0 entries)) (disk w)
             (stats (Basic.startState w p0 entries))
             (Some (progress (Basic.startState w p0 entries)))
  \/ exists batches,
       mkBatches fuel (batchSize (Basic.CONFIG w))
         (remainingOf p0 (pieceFilesOf entries)) (Num 0) = Some batches
       /\ fin = finish (report (Basic.CONFIG w)
                          (Basic.runBatches (Basic.CONFIG w) w 0 batches
                             (Basic.startState w p0 entries))).
Proof.
  unfold Basic.migrate. cbv zeta.
  destruct (remainingOf p0 (pieceFilesOf entries)) as [| f rest] eqn:R;
    cbn [length Nat.eqb].
  - intros H. injection H as <-. left. split; reflexivity.
  - destruct (pLimitOk w); cbn [negb].
    + destruct (mkBatches fuel (batchSize (Basic.CONFIG w)) (f :: rest) (Num 0))
        as [batches |]; intros H; [| discriminate].
      injection H as <-. right. right. exists batches. split; reflexivity.
    + intros H. injection H as <-. right. now left.
Qed.

Lemma basic_startState_saves (w : World) (p0 : MigrationProgress)
  (entries : list string) :
  savesOf (trace (Basic.startState w p0 entries)) = [].
Proof. reflexivity. Qed.

(** X15.  In the plain migration script the count of the record is the
    number of its names at every save, as long as the loaded record had it
    so and the names of the directory are all different: its task adds a
    name only together with the count. *)
Theorem basic_count_is_number_of_names (fuel : nat) (w : World)
  (p0 : MigrationProgress) (entries : list string) (fin : Final) :
  loadProgress (Basic.CONFIG w) (disk w) (loadTime w) = Loaded p0 ->
  readdir w = Some entries ->
  NoDup entries ->
  migratedCount p0 = Z.of_nat (length (migratedFiles p0)) ->
  Basic.main fuel w = Some fin ->
  forall p, In (SaveProgress p) (finalTrace fin) ->
            migratedCount p = Z.of_nat (length (migratedFiles p)).
Proof.
  intros Hl Hr Hnd H0 Hm p Hin.
  assert (Hat : forall d, Basic.ProgressAt w p0 d p ->
                          migratedCount p = Z.of_nat (length (migratedFiles p))).
  { intros d [Hf Hc]. rewrite Hf, Hc, H0, length_app. lia. }
  apply In_savesOf in Hin.
  destruct (basic_main_loaded fuel w p0 entries fin Hl Hr Hm) as [[_ Ht] | Hmig].
  { rewrite Ht in Hin. contradiction. }
  destruct (basic_migrate_cases fuel w p0 entries fin Hmig)
    as [(_ & ->) | [-> | (batches & Hcut & ->)]].
  - cbn [finish finalTrace trace] in Hin.
    rewrite savesOf_app, basic_startState_saves in Hin. contradiction.
  - cbn [fatal finalTrace] in Hin.
    rewrite savesOf_app, basic_startState_saves in Hin. contradiction.
  - set (remaining := remainingOf p0 (pieceFilesOf entries)) in *.
    assert (Hnr : NoDup remaining).
    { unfold remaining, remainingOf, pieceFilesOf. now repeat apply NoDup_filter. }
    assert (Hpre : exists rest, remaining = concat batches ++ rest).
    { destruct (mkBatches_concat _ _ _ _ Hcut) as [-> | [_ ->]].
      - exists []. now rewrite app_nil_r.
      - now exists remaining. }
    destruct Hpre as [rest Hrest].
    set (st0 := Basic.startState w p0 entries) in *.
    destruct (basic_runBatches_progress (Basic.CONFIG w) w p0 batches 0 [] st0)
      as [Hp1 Hs1].
    + cbn [app]. rewrite Hrest in Hnr. now apply NoDup_app_remove_r in Hnr.
    + intros f Hf.
      assert (Hfr : In f remaining) by (rewrite Hrest; apply in_or_app; now left).
      now apply In_remainingOf in Hfr.
    + unfold st0. split; simpl; [now rewrite app_nil_r | lia].
    + intros q Hq. contradiction Hq.
    + destruct (report_effect (Basic.CONFIG w)
                  (Basic.runBatches (Basic.CONFIG w) w 0 batches st0))
        as (Ht & _ & _).
      cbn [finish finalTrace] in Hin. rewrite Ht, savesOf_app in Hin.
      apply in_app_or in Hin. destruct Hin as [Hin | Hin].
      * destruct (Hs1 p Hin) as [d Hd]. now apply (Hat d).
      * unfold reportTail in Hin. rewrite !savesOf_app in Hin.
        destruct (failed _ >? 0); cbn [savesOf app In] in Hin;
          destruct Hin as [<- | []]; exact (Hat _ Hp1).
Qed.

(** X16.  The plain migration script retries whatever did not upload: a
    later run over the disk that a run has left takes up every remaining
    file whose task threw, whatever the message, also when it says that
    the piece is a duplicate or that it is too large. *)
Theorem basic_rerun_retries_every_failure (fuel : nat) (w : World)
  (p0 : MigrationProgress) (entries : list string) (b : Z) (fin : Final)
  (t : string) :
  loadProgress (Basic.CONFIG w) (disk w) (loadTime w) = Loaded p0 ->
  readdir w = Some entries ->
  NoDup entries ->
  batchSize (Basic.CONFIG w) = Num b -> 0 < b ->
  Basic.main fuel w = Some fin ->
  status fin = Exited 0 ->
  exists p1,
    loadProgress (Basic.CONFIG w) (finalDisk fin) t = Loaded p1
    /\ remainingOf p1 (pieceFilesOf entries)
       = filter (fun f => negb (Basic.uploaded w f))
           (remainingOf p0 (pieceFilesOf entries))
    /\ (forall f msg,
          In f (remainingOf p0 (pieceFilesOf entries)) ->
          attempt w f = UploadFails msg ->
          In f (remainingOf p1 (pieceFilesOf entries))).
Proof.
  intros Hl Hr Hnd Hsize Hb Hm Hs.
  assert (Hgoal : forall p1,
            loadProgress (Basic.CONFIG w) (finalDisk fin) t = Loaded p1 ->
            remainingOf p1 (pieceFilesOf entries)
            = filter (fun f => negb (Basic.uploaded w f))
                (remainingOf p0 (pieceFilesOf entries)) ->
            exists p1,
              loadProgress (Basic.CONFIG w) (finalDisk fin) t = Loaded p1
              /\ remainingOf p1 (pieceFilesOf entries)
                 = filter (fun f => negb (Basic.uploaded w f))
                     (remainingOf p0 (pieceFilesOf entries))
              /\ (forall f msg,
                    In f (remainingOf p0 (pieceFilesOf entries)) ->
                    attempt w f = UploadFails msg ->
                    In f (remainingOf p1 (pieceFilesOf entries)))).
  { intros p1 H1 H2. exists p1. split; [assumption |]. split; [assumption |].
    intros f msg Hf Ha. rewrite H2. apply filter_In. split; [assumption |].
    unfold Basic.uploaded. now rewrite Ha. }
  destruct (basic_main_loaded fuel w p0 entries fin Hl Hr Hm) as [[H1 _] | Hmig];
    [congruence |].
  destruct (basic_migrate_cases fuel w p0 entries fin Hmig)
    as [(Hrem & ->) | [-> | (batches & Hcut & ->)]].
  - cbn [finish finalDisk files].
    destruct (loadProgress_at _ _ _ t _ Hl) as (p1 & Hl1 & Hf1 & _).
    apply (Hgoal p1 Hl1). unfold remainingOf in *. now rewrite Hf1, Hrem.
  - discriminate Hs.
  - set (remaining := remainingOf p0 (pieceFilesOf entries)) in *.
    set (st0 := Basic.startState w p0 entries) in *.
    set (stN := Basic.runBatches (Basic.CONFIG w) w 0 batches st0) in *.
    rewrite Hsize in Hcut.
    pose proof (mkBatches_concat_pos b _ Hb fuel 0 batches (Z.le_refl 0) Hcut)
      as Hcat.
    cbn [Z.to_nat skipn] in Hcat.
    assert (Hnr : NoDup remaining).
    { unfold remaining, remainingOf, pieceFilesOf. now repeat apply NoDup_filter. }
    assert (Hout : forall f, In f remaining -> ~ In f (migratedFiles p0)).
    { intros f Hf. now apply In_remainingOf in Hf. }
    destruct (basic_runBatches_progress (Basic.CONFIG w) w p0 batches 0 [] st0)
      as [[Hfiles _] _].
    + cbn [app]. now rewrite Hcat.
    + rewrite Hcat. exact Hout.
    + unfold st0. split; simpl; [now rewrite app_nil_r | lia].
    + intros q Hq. contradiction Hq.
    + cbn [app] in Hfiles. fold stN in Hfiles. rewrite Hcat in Hfiles.
      cbn [finish finalDisk].
      apply (Hgoal (progress stN)).
      * apply report_loads_back. rewrite Hfiles.
        apply NoDup_app.
        -- exact (loadProgress_NoDup _ _ _ _ Hl).
        -- now apply NoDup_filter.
        -- intros x Hx Hx'. apply filter_In in Hx'. destruct Hx' as [Hx' _].
           exact (Hout x Hx' Hx).
      * now apply remainingOf_after.
Qed.

(** ** The deposit script *)

(** X17.  The deposit script sends at most one deposit, and only the
    amount of the command line, when the wallet holds at least that much;
    it exits with code 0 only when the deposit was sent and confirmed, and
    without an amount it prints the usage and exits with code 1 before
    anything else. *)
Theorem deposit_sent_once_within_balance (w : Deposit.World) :
  (forall a, In a (Deposit.depositsOf (fst (Deposit.main w))) ->
     exists amount have,
       Deposit.amountArg w = Some amount
       /\ Deposit.parseUnits w amount = Some a
       /\ Deposit.walletBalance w = Some have
       /\ a <= have)
  /\ (length (Deposit.depositsOf (fst (Deposit.main w))) <= 1)%nat
  /\ (snd (Deposit.main w) = 0 ->
      exists a hash,
        Deposit.depositsOf (fst (Deposit.main w)) = [a]
        /\ Deposit.deposit w a = Some hash
        /\ Deposit.confirmed w = true)
  /\ (falsyStr (Deposit.amountArg w) = true ->
      Deposit.main w = ([Deposit.Usage], 1)).
Proof.
  unfold Deposit.main, Deposit.rejected.
  destruct (Deposit.amountArg w) as [[| c r] |] eqn:A;
    try (cbn; repeat split; try lia; try discriminate; contradiction).
  cbv zeta.
  destruct (falsyStr (Deposit.env w "PRIVATE_KEY"));
    [cbn; repeat split; try lia; try discriminate; contradiction |].
  destruct (Deposit.synapseCreate w); cbn [negb];
    [| cbn; repeat split; try lia; try discriminate; contradiction].
  destruct (Deposit.getAddress w) as [address |];
    [| cbn; repeat split; try lia; try discriminate; contradiction].
  destruct (Deposit.parseUnits w (String c r)) as [amountWei |] eqn:P;
    [| cbn; repeat split; try lia; try discriminate; contradiction].
  destruct (Deposit.walletBalance w) as [have |] eqn:B;
    [| cbn; repeat split; try lia; try discriminate; contradiction].
  destruct (Z.ltb_spec have amountWei) as [Hlt | Hge];
    [cbn; repeat split; try lia; try discriminate; contradiction |].
  assert (Hsent : forall a, amountWei = a \/ False ->
            exists amount have0,
              Some (String c r) = Some amount
              /\ Deposit.parseUnits w amount = Some a
              /\ Some have = Some have0 /\ a <= have0).
  { intros a [<- | []]. exists (String c r), have. auto. }
  destruct (Deposit.balance w 0) as [current |];
    [| cbn; repeat split; try lia; try discriminate; contradiction].
  destruct (Deposit.deposit w amountWei) as [hash |] eqn:D;
    [| cbn; repeat split; try lia; try discriminate; exact Hsent].
  destruct (Deposit.confirmed w); cbn [negb];
    [| cbn; repeat split; try lia; try discriminate; exact Hsent].
  destruct (Deposit.balance w 1) as [newDeposit |];
    [| cbn; repeat split; try lia; try discriminate; exact Hsent].
  cbn. repeat split; try lia; try discriminate; try exact Hsent.
  intros _. exists amountWei, hash. auto.
Qed.

(** ** The test of a single piece *)

(** X18.  The test of a single piece exits with code 1 only when a step up
    to the upload fails; once the upload has resolved it exits with code 0
    whatever the comparison gives.  It reports success exactly when both
    CIDs have a legacy form and the two forms are the same text, and
    failure when both have one and they differ. *)
Theorem test_exit_code_ignores_the_comparison (w : TestPiece.World) :
  (snd (TestPiece.main w) = 0
   <-> testPieceReady w /\ exists cid, TestPiece.upload w = TestPiece.Resolves cid)
  /\ (forall v,
        In (TestPiece.Verdict v) (fst (TestPiece.main w))
        <-> testPieceReady w
            /\ exists cid original response,
                 TestPiece.upload w = TestPiece.Resolves cid
                 /\ TestPiece.asLegacyPieceCID w TestPiece.expectedCid
                    = Some original
                 /\ TestPiece.asLegacyPieceCID w cid = Some response
                 /\ v = String.eqb original response).
Proof.
  unfold testPieceReady, TestPiece.main.
  assert (Hno : forall (tr : list TestPiece.Event) (R : Prop),
            tr = [TestPiece.Fatal] -> ~ R ->
            (snd (tr, 1) = 0 <-> R /\ exists cid,
                TestPiece.upload w = TestPiece.Resolves cid)
            /\ (forall v,
                  In (TestPiece.Verdict v) (fst (tr, 1))
                  <-> R /\ exists cid original response,
                        TestPiece.upload w = TestPiece.Resolves cid
                        /\ TestPiece.asLegacyPieceCID w TestPiece.expectedCid
                           = Some original
                        /\ TestPiece.asLegacyPieceCID w cid = Some response
                        /\ v = String.eqb original response)).
  { intros tr R -> HR. cbn [fst snd In]. split; [| intros v]; split;
      try discriminate; try tauto.
    intros [H | []]. discriminate H. }
  destruct (falsyStr (TestPiece.env w "PRIVATE_KEY")).
  { apply Hno; [reflexivity |]. intros (H & _). discriminate H. }
  destruct (falsyNum (parseInt (orDefault (TestPiece.env w "PROVIDER_ID") "0"))).
  { apply Hno; [reflexivity |]. intros (_ & H & _). discriminate H. }
  destruct (TestPiece.readTestFile w); cbn [negb].
  2:{ apply Hno; [reflexivity |]. intros (_ & _ & H & _). discriminate H. }
  destruct (TestPiece.synapseCreate w); cbn [negb].
  2:{ apply Hno; [reflexivity |]. intros (_ & _ & _ & H & _). discriminate H. }
  destruct (TestPiece.createContext w); cbn [negb].
  2:{ apply Hno; [reflexivity |]. intros (_ & _ & _ & _ & H). discriminate H. }
  clear Hno.
  cbv zeta.
  destruct (TestPiece.upload w) as [cid | isError msg].
  - destruct (TestPiece.asLegacyPieceCID w TestPiece.expectedCid) as [o |] eqn:O;
      destruct (TestPiece.asLegacyPieceCID w cid) as [r |] eqn:R;
      cbn [fst snd app In]; (split; [| intros v]); split;
      try (intros _; split; [auto 10 | eexists; reflexivity]);
      try reflexivity.
    + intros [H | [H | [H | [H | []]]]]; try discriminate H.
      injection H as <-. split; [auto 10 |].
      exists cid, o, r. rewrite R. auto.
    + intros (_ & cid' & o' & r' & Hc & Ho & Hr & ->).
      injection Hc as <-. injection Ho as <-. rewrite R in Hr.
      injection Hr as <-. auto.
    + intros [H | [H | []]]; discriminate H.
    + intros (_ & cid' & o' & r' & Hc & Ho & Hr & _).
      injection Hc as <-. rewrite R in Hr. discriminate Hr.
    + intros [H | [H | []]]; discriminate H.
    + intros (_ & cid' & o' & r' & _ & Ho & _). discriminate Ho.
    + intros [H | [H | []]]; discriminate H.
    + intros (_ & cid' & o' & r' & _ & Ho & _). discriminate Ho.
  - cbn [fst snd]. split; [| intros v]; split.
    + discriminate.
    + intros (_ & cid & H). discriminate H.
    + destruct (isError && includes "InsufficientFunds" msg); cbn [app In];
        intros H; decompose [or] H; try discriminate; contradiction.
    + intros (_ & cid & o & r & H & _). discriminate H.
Qed.

(** ** The listing of a dataset *)

Lemma slice_first (l : list string) (n : Z) :
  0 <= n -> slice l (Num 0) (Num n) = firstn (Z.to_nat n) l.
Proof.
  intros Hn. unfold slice, relIndex. cbn [toInteger].
  destruct (Z.ltb_spec n 0) as [? | _]; [lia |].
  cbn [Z.ltb Z.compare].
  replace (Z.min 0 (Z.of_nat (length l))) with 0 by lia.
  cbn [Z.to_nat skipn]. rewrite Z.sub_0_r.
  destruct (Z.le_gt_cases n (Z.of_nat (length l))) as [Hle | Hgt].
  - now rewrite Z.min_l by lia.
  - rewrite Z.min_r by lia. rewrite Nat2Z.id.
    rewrite !firstn_all2; [reflexivity | lia | lia].
Qed.

Lemma piecesOf_listed (i : Z) (ids : list string) :
  CheckDataset.piecesOf (CheckDataset.listed i ids) = ids.
Proof.
  revert i. induction ids as [| id ids IH]; intros i; [reflexivity |].
  cbn [CheckDataset.listed CheckDataset.piecesOf]. now rewrite IH.
Qed.

Lemma piecesOf_app (a b : list CheckDataset.Event) :
  CheckDataset.piecesOf (a ++ b)
  = CheckDataset.piecesOf a ++ CheckDataset.piecesOf b.
Proof.
  induction a as [| e a IH]; [reflexivity |].
  destruct e; cbn [app CheckDataset.piecesOf]; now rewrite IH.
Qed.

Lemma In_listed (ids : list string) :
  forall i k id,
    nth_error ids k = Some id ->
    In (CheckDataset.Piece (i + Z.of_nat k + 1) id) (CheckDataset.listed i ids).
Proof.
  induction ids as [| x ids IH]; intros i k id Hk; [now destruct k |].
  destruct k as [| k]; cbn [nth_error] in Hk.
  - injection Hk as <-. left. f_equal. lia.
  - right. replace (i + Z.of_nat (S k) + 1) with ((i + 1) + Z.of_nat k + 1) by lia.
    now apply IH.
Qed.

(** X19.  The listing of a dataset prints the first ten piece ids, in
    order and numbered from 1, and when there are more than ten it says
    how many it left out, so that the ids listed and the number left out
    make the number of pieces.  Whatever happens, the process ends with
    code 0: an error is printed and nothing else. *)
Theorem dataset_listing_shows_first_ten (w : CheckDataset.World) :
  snd (CheckDataset.main w) = 0
  /\ forall ids,
       falsyStr (CheckDataset.env w "PRIVATE_KEY") = false ->
       CheckDataset.synapseCreate w = true ->
       CheckDataset.readContract w = Some ids ->
       CheckDataset.piecesOf (fst (CheckDataset.main w)) = firstn 10 ids
       /\ (forall k id, (k < 10)%nat -> nth_error ids k = Some id ->
             In (CheckDataset.Piece (Z.of_nat k + 1) id)
                (fst (CheckDataset.main w)))
       /\ (forall m, In (CheckDataset.More m) (fst (CheckDataset.main w)) ->
             0 < m
             /\ Z.of_nat (length (CheckDataset.piecesOf
                                    (fst (CheckDataset.main w)))) + m
                = Z.of_nat (length ids))
       /\ ((length ids <= 10)%nat ->
           CheckDataset.piecesOf (fst (CheckDataset.main w)) = ids
           /\ forall m, ~ In (CheckDataset.More m) (fst (CheckDataset.main w)))
       /\ ((10 < length ids)%nat ->
           In (CheckDataset.More (Z.of_nat (length ids) - 10))
              (fst (CheckDataset.main w))).
Proof.
  unfold CheckDataset.main. split.
  - destruct (falsyStr _); [reflexivity |].
    destruct (CheckDataset.synapseCreate w); [| reflexivity].
    now destruct (CheckDataset.readContract w).
  - intros ids -> -> ->. cbn [negb]. cbv zeta. cbn [fst].
    rewrite (slice_first ids 10) by lia.
    change (Z.to_nat 10) with 10%nat.
    assert (Hp : CheckDataset.piecesOf
                   ([CheckDataset.Pieces (Z.of_nat (length ids))]
                    ++ CheckDataset.listed 0 (firstn 10 ids)
                    ++ (if Z.of_nat (length ids) >? 10
                        then [CheckDataset.More (Z.of_nat (length ids) - 10)]
                        else []))
                 = firstn 10 ids).
    { rewrite !piecesOf_app, piecesOf_listed.
      destruct (Z.of_nat (length ids) >? 10); cbn; now rewrite app_nil_r. }
    rewrite Hp.
    assert (Hmore : forall m,
              In (CheckDataset.More m)
                ([CheckDataset.Pieces (Z.of_nat (length ids))]
                 ++ CheckDataset.listed 0 (firstn 10 ids)
                 ++ (if Z.of_nat (length ids) >? 10
                     then [CheckDataset.More (Z.of_nat (length ids) - 10)]
                     else []))
              <-> (10 < length ids)%nat /\ m = Z.of_nat (length ids) - 10).
    { intros m. rewrite !in_app_iff.
      assert (Hl : forall i l, ~ In (CheckDataset.More m) (CheckDataset.listed i l)).
      { intros i l. revert i. induction l as [| x l IH]; intros i H;
          [contradiction H |].
        destruct H as [H | H]; [discriminate H | exact (IH _ H)]. }
      destruct (Z.gtb_spec (Z.of_nat (length ids)) 10) as [Hgt | Hle];
        cbn [In]; split.
      - intros [[H | []] | [H | [H | []]]]; try discriminate H.
        + now apply Hl in H.
        + injection H as <-. split; [lia | reflexivity].
      - intros [_ ->]. right. right. now left.
      - intros [[H | []] | [H | []]]; [discriminate H | now apply Hl in H].
      - intros [H _]. lia. }
    split; [reflexivity |]. split; [| split; [| split]].
    + intros k id Hk Hn. apply in_or_app. right. apply in_or_app. left.
      apply (In_listed (firstn 10 ids) 0 k id).
      rewrite nth_error_firstn.
      destruct (Nat.ltb_spec k 10) as [_ | ?]; [assumption | lia].
    + intros m Hm. apply Hmore in Hm. destruct Hm as [Hgt ->].
      rewrite length_firstn. lia.
    + intros Hle. split; [now apply firstn_all2 |].
      intros m Hm. apply Hmore in Hm. lia.
    + intros Hgt. apply Hmore. split; [assumption | reflexivity].
Qed.

(** ** The checkpoints, batch by batch *)

Lemma processBatch_saves (cfg : Config) (w : World) (batch : list string) :
  forall st,
    savesOf (trace (processBatch cfg w batch st)) = savesOf (trace st).
Proof.
  unfold processBatch. induction batch as [| f batch IH]; intros st;
    [reflexivity |].
  cbn [fold_left]. rewrite IH.
  destruct (processFile_delta cfg w f st) as [delta D].
  rewrite (td_trace _ _ _ _ _ D), savesOf_app, (td_saves _ _ _ _ _ D).
  apply app_nil_r.
Qed.

Lemma runBatches_checkpoints (cfg : Config) (w : World) (p0 : MigrationProgress)
  (batches : list (list string)) :
  forall i done st,
    NoDup (done ++ concat batches) ->
    (forall f, In f (concat batches) -> ~ In f (migratedFiles p0)) ->
    ProgressAt w p0 done (progress st) ->
    exists ps,
      savesOf (trace (runBatches cfg w i batches st)) = savesOf (trace st) ++ ps
      /\ length ps = length batches
      /\ forall k p,
           nth_error ps k = Some p ->
           ProgressAt w p0 (done ++ concat (firstn (S k) batches)) p
           /\ lastUpdated p = batchTime w (i + k).
Proof.
  induction batches as [| b batches IH]; intros i done st Hnd H0 Hp.
  - exists []. cbn [runBatches]. rewrite app_nil_r.
    split; [reflexivity |]. split; [reflexivity |].
    intros [| k] p H; discriminate H.
  - cbn [runBatches concat] in *. rewrite app_assoc in Hnd.
    set (st1 := processBatch cfg w b (startBatch i b st)).
    assert (Hp1 : ProgressAt w p0 (done ++ b) (progress st1)).
    { apply processBatch_progress.
      - now apply NoDup_app_remove_r in Hnd.
      - intros f Hf. apply H0. apply in_or_app. now left.
      - exact Hp. }
    destruct (IH (S i) (done ++ b) (checkpoint cfg w i st1)) as (ps & Hs & Hl & Hk).
    + assumption.
    + intros f Hf. apply H0. apply in_or_app. now right.
    + destruct Hp1 as [Q1 Q2]. split; assumption.
    + exists (progress (stamp (batchTime w i) st1) :: ps).
      rewrite Hs, checkpoint_saves. unfold st1 at 1.
      rewrite processBatch_saves, startBatch_saves, <- app_assoc.
      split; [reflexivity |]. split; [cbn [length]; now rewrite Hl |].
      intros [| k] p Hn; cbn [nth_error] in Hn.
      * injection Hn as <-. cbn [firstn concat]. rewrite app_nil_r, Nat.add_0_r.
        split; [| reflexivity]. destruct Hp1 as [Q1 Q2]. split; assumption.
      * destruct (Hk k p Hn) as [Hat Ht].
        cbn [firstn concat]. rewrite app_assoc.
        split; [exact Hat |]. rewrite Ht. f_equal. lia.
Qed.

(** X20.  With a positive batch size a run saves the record once after
    every batch and once more at its end: the save after batch k holds the
    names, in the order in which the tasks have settled, and the count of
    all the files handled in the batches up to k, stamped with the time of
    that batch, so that what a stop of the process can lose is the work of
    the batch in hand. *)
Theorem checkpoint_after_every_batch (fuel : nat) (w : World)
  (p0 : MigrationProgress) (entries : list string) (b : Z) (fin : Final) :
  ReachesEnumeration w p0 entries ->
  NoDup entries ->
  remainingOf p0 (pieceFilesOf entries) <> [] ->
  batchSize (CONFIG w) = Num b -> 0 < b ->
  main fuel w = Some fin ->
  status fin = Exited 0 ->
  exists batches,
    mkBatches fuel (Num b) (remainingOf p0 (pieceFilesOf entries)) (Num 0)
    = Some batches
    /\ length (savesOf (finalTrace fin)) = S (length batches)
    /\ (forall k p,
          (k < length batches)%nat ->
          nth_error (savesOf (finalTrace fin)) k = Some p ->
          RecordAt w p0 (concat (firstn (S k) batches)) p
          /\ lastUpdated p = batchTime w k)
    /\ (forall p,
          nth_error (savesOf (finalTrace fin)) (length batches) = Some p ->
          finalProgress fin = Some p
          /\ RecordAt w p0 (remainingOf p0 (pieceFilesOf entries)) p).
Proof.
  intros Hre Hnd Hrem Hsize Hb Hm Hs.
  destruct (main_exit0_cases fuel w p0 entries fin Hre Hm Hs)
    as [(Hnone & _) | (batches & _ & Hcut & ->)]; [contradiction |].
  rewrite Hsize in Hcut. exists batches. split; [exact Hcut |].
  pose proof (mkBatches_concat_pos b _ Hb fuel 0 batches (Z.le_refl 0) Hcut)
    as Hcat.
  cbn [Z.to_nat skipn] in Hcat.
  set (remaining := remainingOf p0 (pieceFilesOf entries)) in *.
  set (st0 := startState w p0 entries) in *.
  assert (Hnr : NoDup remaining).
  { unfold remaining, remainingOf, pieceFilesOf. now repeat apply NoDup_filter. }
  assert (Hout : forall f, In f remaining -> ~ In f (migratedFiles p0)).
  { intros f Hf. now apply In_remainingOf in Hf. }
  destruct (runBatches_checkpoints (CONFIG w) w p0 batches 0 [] st0)
    as (ps & Hsv & Hl & Hk).
  { cbn [app]. now rewrite Hcat. }
  { now rewrite Hcat. }
  { unfold st0. split; simpl; [now rewrite app_nil_r | lia]. }
  set (stN := runBatches (CONFIG w) w 0 batches st0) in *.
  destruct (report_effect (CONFIG w) stN) as (Ht & _ & Hp).
  assert (Hsaves : savesOf (finalTrace (finish (report (CONFIG w) stN)))
                   = ps ++ [progress stN]).
  { cbn [finish finalTrace]. rewrite Ht, savesOf_app, Hsv.
    unfold reportTail. rewrite !savesOf_app.
    replace (savesOf (trace st0)) with (@nil MigrationProgress) by reflexivity.
    destruct (failed (stats stN) >? 0); reflexivity. }
  rewrite Hsaves. split; [rewrite length_app, Hl; cbn [length]; lia |].
  split.
  - intros k p Hlt Hn. rewrite nth_error_app1 in Hn by lia.
    destruct (Hk k p Hn) as [Hat Htime].
    split; [now apply ProgressAt_RecordAt | assumption].
  - intros p Hn. rewrite nth_error_app2 in Hn by lia.
    rewrite Hl, Nat.sub_diag in Hn. cbn [nth_error] in Hn. injection Hn as <-.
    cbn [finish finalProgress]. rewrite Hp. split; [reflexivity |].
    unfold remaining. apply ProgressAt_RecordAt.
    exact (runBatches_final_progress fuel w p0 entries b batches Hnd Hb Hcut).
Qed.

(** ** The order in which the tasks settle, over a run

    [runBatches] takes the tasks of each batch in the order of the batch.
    Any other order in which they settle is the same loop over batches
    that are permutations of these. *)

Lemma Permutation_concat (bs bs' : list (list string)) :
  Forall2 (@Permutation string) bs bs' -> Permutation (concat bs) (concat bs').
Proof.
  induction 1 as [| b b' bs bs' Hb _ IH]; cbn [concat].
  - constructor.
  - now apply Permutation_app.
Qed.

Lemma Forall2_firstn {A B : Type} (R : A -> B -> Prop) (n : nat)
  (l : list A) (l' : list B) :
  Forall2 R l l' -> Forall2 R (firstn n l) (firstn n l').
Proof.
  intros H. revert n. induction H as [| x y l l' Hxy _ IH]; intros [| n];
    cbn [firstn]; constructor; auto.
Qed.

Lemma RecordAt_Permutation (w : World) (p0 p : MigrationProgress)
  (done done' : list string) :
  Permutation done done' -> RecordAt w p0 done p -> RecordAt w p0 done' p.
Proof.
  intros Hp [Hn Hc]. split.
  - eapply perm_trans; [exact Hn |].
    apply Permutation_app_head. now apply Permutation_filter.
  - rewrite Hc.
    now rewrite (Permutation_length (Permutation_filter (isMigrated w) _ _ Hp)).
Qed.

Lemma runBatches_names (cfg : Config) (w : World) (p0 : MigrationProgress)
  (batches : list (list string)) :
  forall i done st,
    NoDup (done ++ concat batches) ->
    (forall f, In f (concat batches) -> ~ In f (migratedFiles p0)) ->
    ProgressAt w p0 done (progress st) ->
    ProgressAt w p0 (done ++ concat batches)
      (progress (runBatches cfg w i batches st)).
Proof.
  induction batches as [| b batches IH]; intros i done st Hnd H0 Hp.
  - cbn [runBatches concat]. now rewrite app_nil_r.
  - cbn [runBatches concat] in *. rewrite app_assoc in *.
    apply IH; [assumption | |].
    + intros f Hf. apply H0. apply in_or_app. now right.
    + assert (Hb : ProgressAt w p0 (done ++ b)
                     (progress (processBatch cfg w b (startBatch i b st)))).
      { apply processBatch_progress.
        - now apply NoDup_app_remove_r in Hnd.
        - intros f Hf. apply H0. apply in_or_app. now left.
        - exact Hp. }
      destruct Hb as [Q1 Q2]. split; assumption.
Qed.

(** The loop over the same batches, the tasks of each batch settling in
    one order in a first run and in another order in a second: the runs
    end with the same counters and the same count, with the same names and
    error records for the same files up to their order, after the same
    uploads up to their order, and each has saved after every batch a
    record of the files of the batches so far. *)
Lemma runBatches_any_order (cfg : Config) (w : World)
  (batches batches' : list (list string)) (i : nat) (st : RunState) :
  Forall2 (@Permutation string) batches batches' ->
  NoDup (concat batches) ->
  (forall f, In f (concat batches) -> ~ In f (migratedFiles (progress st))) ->
  total (stats (runBatches cfg w i batches st))
  = total (stats (runBatches cfg w i batches' st))
  /\ completed (stats (runBatches cfg w i batches st))
     = completed (stats (runBatches cfg w i batches' st))
  /\ failed (stats (runBatches cfg w i batches st))
     = failed (stats (runBatches cfg w i batches' st))
  /\ migratedCount (progress (runBatches cfg w i batches st))
     = migratedCount (progress (runBatches cfg w i batches' st))
  /\ Permutation (migratedFiles (progress (runBatches cfg w i batches st)))
       (migratedFiles (progress (runBatches cfg w i batches' st)))
  /\ Permutation (map file (errors (stats (runBatches cfg w i batches st))))
       (map file (errors (stats (runBatches cfg w i batches' st))))
  /\ Permutation (uploadsOf (trace (runBatches cfg w i batches st)))
       (uploadsOf (trace (runBatches cfg w i batches' st)))
  /\ exists ps',
       savesOf (trace (runBatches cfg w i batches' st))
       = savesOf (trace st) ++ ps'
       /\ length ps' = length batches
       /\ forall k p,
            nth_error ps' k = Some p ->
            RecordAt w (progress st) (concat (firstn (S k) batches)) p
            /\ lastUpdated p = batchTime w (i + k).
Proof.
  intros Hall Hnd Hout.
  pose proof (Permutation_concat _ _ Hall) as Hperm.
  destruct (runBatches_accounted cfg w batches i st)
    as (A1 & _ & A3 & A4 & A5 & _ & es & A7 & A8 & _).
  destruct (runBatches_accounted cfg w batches' i st)
    as (B1 & _ & B3 & B4 & B5 & _ & es' & B7 & B8 & _).
  pose proof (Permutation_length (Permutation_filter (isMigrated w) _ _ Hperm))
    as Hm.
  pose proof (Permutation_filter (fun f => negb (isMigrated w f)) _ _ Hperm)
    as Hn.
  assert (H0 : ProgressAt w (progress st) [] (progress st)).
  { split; simpl; [now rewrite app_nil_r | lia]. }
  assert (Hnd' : NoDup (concat batches')) by exact (Permutation_NoDup Hperm Hnd).
  assert (Hout' : forall f, In f (concat batches') ->
                            ~ In f (migratedFiles (progress st))).
  { intros f Hf. apply Hout.
    exact (Permutation_in f (Permutation_sym Hperm) Hf). }
  destruct (runBatches_names cfg w (progress st) batches i [] st Hnd Hout H0)
    as [N1 _].
  destruct (runBatches_names cfg w (progress st) batches' i [] st Hnd' Hout' H0)
    as [N2 _].
  cbn [app] in N1, N2.
  rewrite A1, A3, A4, A5, A7, B1, B3, B4, B5, B7, !map_app, A8, B8,
    !runBatches_uploads, Hm, (Permutation_length Hn), N1, N2.
  repeat (split; [reflexivity |]).
  split; [apply Permutation_app_head; now apply Permutation_filter |].
  split; [now apply Permutation_app_head |].
  split; [apply Permutation_app_head; unfold attempted;
          now apply Permutation_filter |].
  destruct (runBatches_checkpoints cfg w (progress st) batches' i [] st
              Hnd' Hout' H0) as (ps' & Hs & Hl & Hk).
  exists ps'. split; [exact Hs |].
  split; [rewrite Hl; symmetry; exact (Forall2_length Hall) |].
  intros k p Hp. destruct (Hk k p Hp) as [Hat Ht]. cbn [app] in Hat.
  split; [| exact Ht].
  apply (RecordAt_Permutation w (progress st) p
           (concat (firstn (S k) batches'))).
  - apply Permutation_sym, Permutation_concat. now apply Forall2_firstn.
  - now apply ProgressAt_RecordAt.
Qed.

(** ** The two migration scripts side by side *)

Lemma basic_main_reaches (fuel : nat) (v : World) (p0 : MigrationProgress)
  (entries : list string) :
  BasicReaches v p0 entries ->
  Basic.main fuel v = Basic.migrate fuel v p0 entries.
Proof.
  intros (HK & HP & HS & HC & HL & HR). unfold Basic.main. cbv zeta.
  now rewrite HK, HP, HS, HC, HL, HR.
Qed.

Lemma BasicAccounted_refl (v : World) (st : RunState) : BasicAccounted v [] st st.
Proof.
  unfold BasicAccounted. cbn [filter length]. repeat split; try lia.
  exists []. rewrite app_nil_r. split; reflexivity.
Qed.

Lemma BasicAccounted_trans (v : World) (l1 l2 : list string)
  (s1 s2 s3 : RunState) :
  BasicAccounted v l1 s1 s2 -> BasicAccounted v l2 s2 s3 ->
  BasicAccounted v (l1 ++ l2) s1 s3.
Proof.
  intros (A1 & A2 & A3 & A4 & A5 & es1 & A6 & A7)
         (B1 & B2 & B3 & B4 & B5 & es2 & B6 & B7).
  unfold BasicAccounted. rewrite !filter_app, !length_app.
  repeat split; try lia; try congruence.
  exists (es1 ++ es2). rewrite B6, A6, app_assoc, map_app, A7, B7.
  split; reflexivity.
Qed.

Lemma basic_processFile_accounted (cfg : Config) (v : World) (f : string)
  (st : RunState) :
  BasicAccounted v [f] st (Basic.processFile cfg v f st).
Proof.
  unfold BasicAccounted, Basic.uploaded, Basic.processFile, Basic.onError.
  cbn [filter].
  destruct (attempt v f) as [m | m | cid];
    cbn [stats progress emit countCompleted countFailed markMigrated
         total skipped completed failed errors totalFiles negb length];
    (repeat split; try lia);
    try (exists []; rewrite app_nil_r; split; reflexivity);
    (eexists; split; reflexivity).
Qed.

Lemma basic_processBatch_accounted (cfg : Config) (v : World)
  (batch : list string) :
  forall st, BasicAccounted v batch st (Basic.processBatch cfg v batch st).
Proof.
  unfold Basic.processBatch. induction batch as [| f batch IH]; intros st.
  - apply BasicAccounted_refl.
  - cbn [fold_left]. change (f :: batch) with ([f] ++ batch).
    eapply BasicAccounted_trans; [apply basic_processFile_accounted | apply IH].
Qed.

Lemma basic_runBatches_accounted (cfg : Config) (v : World)
  (batches : list (list string)) :
  forall i st,
    BasicAccounted v (concat batches) st (Basic.runBatches cfg v i batches st).
Proof.
  induction batches as [| b batches IH]; intros i st.
  - apply BasicAccounted_refl.
  - cbn [Basic.runBatches concat].
    eapply BasicAccounted_trans; [| apply IH].
    destruct (basic_processBatch_accounted cfg v b (startBatch i b st))
      as (A1 & A2 & A3 & A4 & A5 & es & A6 & A7).
    unfold BasicAccounted, checkpoint, saveProgress, stamp, emit.
    cbn [stats progress totalFiles].
    repeat split; try assumption. exists es. split; assumption.
Qed.

(** X21.  The two migration scripts, each in a world of its own, over the
    same loaded record and the same directory: as long as the main script
    meets no error that it sets apart (a duplicate, a piece over the size
    limit) and the same uploads succeed for both, the two end alike, one
    exactly when the other: the same exit, the same counters, error records
    for the same files, and records with the same count and the same names.
    The order of the names and of the error records is that in which the
    tasks of each run have settled. *)
Theorem scripts_agree_without_special_errors (fuel : nat) (w v : World)
  (p0 : MigrationProgress) (entries : list string) :
  ReachesEnumeration w p0 entries ->
  BasicReaches v p0 entries ->
  NoDup entries ->
  pLimitOk v = pLimitOk w ->
  batchSize (Basic.CONFIG v) = batchSize (CONFIG w) ->
  SameUploads w v (remainingOf p0 (pieceFilesOf entries)) ->
  match main fuel w, Basic.main fuel v with
  | Some fin, Some fin' => SameCounts fin fin'
  | None, None => True
  | _, _ => False
  end.
Proof.
  intros Hre Hre' Hnd Hlim Hsize Hsame.
  rewrite (main_reaches fuel w p0 entries Hre),
    (basic_main_reaches fuel v p0 entries Hre').
  unfold migrate, Basic.migrate. cbv zeta. rewrite Hlim, Hsize.
  set (remaining := remainingOf p0 (pieceFilesOf entries)) in *.
  destruct (length remaining =? 0)%nat.
  { unfold SameCounts. cbn [finish status finalStats finalProgress stats progress].
    repeat split; try reflexivity; apply Permutation_refl. }
  destruct (pLimitOk w); cbn [negb].
  2: { unfold SameCounts. cbn [fatal status finalStats finalProgress].
       repeat split; try reflexivity; apply Permutation_refl. }
  destruct (mkBatches fuel (batchSize (CONFIG w)) remaining (Num 0))
    as [batches |] eqn:Hcut; [| exact I].
  assert (Hnr : NoDup remaining).
  { unfold remaining, remainingOf, pieceFilesOf. now repeat apply NoDup_filter. }
  assert (Hpre : exists rest, remaining = concat batches ++ rest).
  { destruct (mkBatches_concat _ _ _ _ Hcut) as [-> | [_ ->]].
    - exists []. now rewrite app_nil_r.
    - now exists remaining. }
  destruct Hpre as [rest Hrest].
  assert (Hin : forall f, In f (concat batches) -> In f remaining).
  { intros f Hf. rewrite Hrest. apply in_or_app. now left. }
  assert (Hout : forall f, In f (concat batches) -> ~ In f (migratedFiles p0)).
  { intros f Hf. apply Hin in Hf. now apply In_remainingOf in Hf. }
  assert (Hndc : NoDup (concat batches)).
  { rewrite Hrest in Hnr. now apply NoDup_app_remove_r in Hnr. }
  set (st0 := startState w p0 entries).
  set (st0' := Basic.startState v p0 entries).
  set (stN := runBatches (CONFIG w) w 0 batches st0).
  set (stN' := Basic.runBatches (Basic.CONFIG v) v 0 batches st0').
  (* the main script *)
  destruct (runBatches_accounted (CONFIG w) w batches 0 st0)
    as (A1 & A2 & A3 & A4 & _ & A6 & es & A7 & A8 & _).
  destruct (runBatches_progress (CONFIG w) w p0 (concat batches) batches 0 []
              st0 eq_refl Hndc Hout) as [[Hnames Hcount] _].
  { unfold st0. split; simpl; [now rewrite app_nil_r | lia]. }
  { intros q Hq. apply In_savesOf in Hq. contradiction Hq. }
  (* the plain script *)
  destruct (basic_runBatches_accounted (Basic.CONFIG v) v batches 0 st0')
    as (B1 & B2 & B3 & B4 & B6 & es' & B7 & B8).
  destruct (basic_runBatches_progress (Basic.CONFIG v) v p0 batches 0 [] st0')
    as [[Hnames' Hcount'] _]; try assumption.
  { unfold st0'. split; simpl; [now rewrite app_nil_r | lia]. }
  { intros q Hq. contradiction Hq. }
  cbn [app] in Hnames', Hcount'.
  fold stN in A1, A2, A3, A4, A6, A7, Hnames, Hcount.
  fold stN' in B1, B2, B3, B4, B6, B7, Hnames', Hcount'.
  (* the same files complete *)
  assert (Hup : filter (Basic.uploaded v) (concat batches)
                = filter (isMigrated w) (concat batches)).
  { apply filter_ext_in. intros f Hf. now destruct (Hsame f (Hin f Hf)). }
  assert (Hnot : filter (fun f => negb (Basic.uploaded v f)) (concat batches)
                 = filter (fun f => negb (isMigrated w f)) (concat batches)).
  { apply filter_ext_in. intros f Hf. destruct (Hsame f (Hin f Hf)) as [_ E].
    now rewrite E. }
  assert (Hhan : filter (isHandled w) (concat batches)
                 = filter (isMigrated w) (concat batches)).
  { apply filter_ext_in. intros f Hf. destruct (Hsame f (Hin f Hf)) as [C _].
    unfold isHandled, isMigrated. destruct C as [-> | ->]; reflexivity. }
  destruct (report_effect (CONFIG w) stN) as (_ & Hst & Hp).
  destruct (report_effect (Basic.CONFIG v) stN') as (_ & Hst' & Hp').
  unfold SameCounts.
  cbn [finish status finalStats finalProgress].
  rewrite Hst, Hst', Hp, Hp'.
  rewrite A1, A2, A3, A4, A6, A7, B1, B2, B3, B4, B6, B7, map_app, map_app,
    A8, B8, Hnames, Hnames', Hcount, Hcount', Hup, Hnot, Hhan.
  repeat split; apply Permutation_refl.
Qed.


(** * Witnesses and counterexamples *)



Lemma uploads_only_of_remaining_witness :
  exists fin,
    main 5 wResume = Some fin
    /\ In "s-t00-1" (pieceFilesOf ["s-t00-1"; "s-t00-2"; "s-t00-3"])
    /\ In "s-t00-1" (migratedFiles pDone)
    /\ ~ In (Upload "s-t00-1") (finalTrace fin)
    /\ (forall f, In (Upload f) (finalTrace fin) ->
                  ~ In f (migratedFiles pDone))
    /\ Permutation (uploadsOf (finalTrace fin)) ["s-t00-2"; "s-t00-3"].
Proof.
  assert (Hre : ReachesEnumeration wResume pDone
                  ["s-t00-1"; "s-t00-2"; "s-t00-3"])
    by (repeat split).
  destruct (main 5 wResume) as [fin |] eqn:E.
  - exists fin.
    destruct (uploads_only_of_remaining 5 wResume pDone
                ["s-t00-1"; "s-t00-2"; "s-t00-3"] fin Hre E)
      as (_ & _ & Hup & Hall).
    assert (Hs : status fin = Exited 0)
      by (vm_compute in E; injection E as <-; reflexivity).
    split; [reflexivity |].
    split; [now left |].
    split; [now left |].
    split; [intros H; destruct (Hup _ H) as [_ Hn]; apply Hn; now left |].
    split; [intros f Hf; now apply Hup |].
    exact (Hall 2 eq_refl eq_refl Hs).
  - vm_compute in E. discriminate E.
Defined.

(** C5, as stated, fails: the only file of the run is a permanent skip,
    no file ends as a transient failure, and the error log is written. *)
Lemma error_log_written_without_transient_failure :
  remainingOf (zeroProgress "T0") (pieceFilesOf ["s-t00-9"]) = ["s-t00-9"]
  /\ outcomeClass wOversized "s-t00-9" = PermanentSkip
  /\ option_map (fun fin => (wroteErrorLog (finalTrace fin),
                             existsb isTransientLine (finalTrace fin),
                             failed (finalStats fin)))
       (main 3 wOversized)
     = Some (true, false, 1).
Proof. repeat split; vm_compute; reflexivity. Qed.

Lemma error_log_witness :
  exists fin,
    main 5 wMixed = Some fin
    /\ outcomeClass wMixed "s-t00-3" = TransientFailure
    /\ 0 < failed (finalStats fin)
    /\ (exists data, In (WriteFile errorLogPath data) (finalTrace fin))
    /\ (exists m, In (Log (LFailed "s-t00-3" m)) (finalTrace fin))
    /\ (exists r, In r (errors (finalStats fin)) /\ file r = "s-t00-3").
Proof.
  assert (Hre : ReachesEnumeration wMixed (zeroProgress "T0")
                  ["s-t00-1"; "notes.txt"; "s-t00-2"; "s-t00-3"; "s-t00-4"])
    by (repeat split).
  destruct (main 5 wMixed) as [fin |] eqn:E.
  - exists fin. split; [reflexivity |].
    destruct (error_log_written_iff_failed 5 wMixed fin E)
      as (Hw & _ & _ & _ & _ & Hall).
    assert (Hs : status fin = Exited 0)
      by (vm_compute in E; injection E as <-; reflexivity).
    destruct (Hall (zeroProgress "T0")
                ["s-t00-1"; "notes.txt"; "s-t00-2"; "s-t00-3"; "s-t00-4"] 2
                Hre eq_refl Hs) as [Hiff Hfiles].
    assert (Hin : In "s-t00-3"
                    (remainingOf (zeroProgress "T0")
                       (pieceFilesOf ["s-t00-1"; "notes.txt"; "s-t00-2";
                                      "s-t00-3"; "s-t00-4"])))
      by (right; right; now left).
    assert (Hc : outcomeClass wMixed "s-t00-3" = TransientFailure)
      by reflexivity.
    assert (Hwr : exists data, In (WriteFile errorLogPath data) (finalTrace fin)).
    { apply Hiff. exists "s-t00-3". split; [exact Hin | now right]. }
    destruct (Hfiles _ Hin) as (_ & Hline & Hrec).
    split; [exact Hc |]. split; [now apply Hw |]. split; [exact Hwr |].
    split; [now apply Hline | apply Hrec; now right].
  - vm_compute in E. discriminate E.
Defined.

(** C6, as stated, fails: the configuration is there, there is no progress
    file, the source directory can be listed, and the process still exits
    with code 1, because Synapse.create rejects. *)
Lemma fatal_outside_the_three_conditions :
  falsyStr (privateKey (CONFIG wSdkDown)) = false
  /\ falsyNum (providerId (CONFIG wSdkDown)) = false
  /\ disk wSdkDown (progressFile (CONFIG wSdkDown)) = None
  /\ readdir wSdkDown = Some ["s-t00-1"]
  /\ option_map (fun fin => (status fin, thrown fin)) (main 3 wSdkDown)
     = Some (Exited 1, Some SdkError).
Proof. repeat split; vm_compute; reflexivity. Qed.

Lemma item_failures_witness :
  exists fuel fin,
    main fuel (withAttempt (fun _ => UploadFails "socket hang up") wAllFail)
    = Some fin
    /\ status fin = Exited 0 /\ thrown fin = None.
Proof.
  apply (proj1 (item_failures_do_not_decide_exit wAllFail)).
  - exists (zeroProgress "T0"), ["s-t00-1"; "s-t00-2"; "s-t00-3"].
    split; [repeat split | right; reflexivity].
  - vm_compute. reflexivity.
Defined.

Lemma load_zero_or_fatal_witness :
  loadProgress (CONFIG wMixed) (disk wMixed) (loadTime wMixed)
  = Loaded (zeroProgress "T0")
  /\ exists fin e,
       main 3 wCorrupt = Some fin
       /\ status fin = Exited 1
       /\ thrown fin = Some e
       /\ e = JsonSyntaxError
       /\ finalDisk fin = disk wCorrupt.
Proof.
  split.
  - apply (proj1 (load_zero_or_fatal wMixed)). reflexivity.
  - destruct (proj2 (load_zero_or_fatal wCorrupt) "{ "%string 3%nat eq_refl eq_refl)
      as (_ & fin & e & H1 & H2 & H3 & H4 & H5 & _).
    exists fin, e. repeat split; try assumption.
    apply H4; reflexivity.
Defined.

(** C8, as stated, fails: nothing remains, and the run prints no final
    report; it ends on the line that all files are already migrated. *)
Lemma no_report_when_nothing_remains :
  loadProgress (CONFIG wDone) (disk wDone) (loadTime wDone) = Loaded pDone
  /\ remainingOf pDone (pieceFilesOf ["s-t00-1"]) = []
  /\ option_map (fun fin => (finalTrace fin, existsb isReportLine (finalTrace fin)))
       (main 3 wDone)
     = Some ([Log (LFoundProgress 1); Readdir "/filecoin-storage/piece";
              Log (LScan 1 1 0); Log LAllAlreadyMigrated],
             false).
Proof. repeat split; vm_compute; reflexivity. Qed.

Lemma nothing_remaining_witness :
  exists fin,
    main 3 wDone = Some fin
    /\ status fin = Exited 0
    /\ uploadsOf (finalTrace fin) = []
    /\ existsb isReportLine (finalTrace fin) = false
    /\ skipped (finalStats fin) = 1.
Proof.
  assert (Hre : ReachesEnumeration wDone pDone ["s-t00-1"])
    by (repeat split; vm_compute; reflexivity).
  destruct (nothing_remaining_returns_early wDone pDone ["s-t00-1"] 3
              Hre eq_refl)
    as (fin & H1 & H2 & _ & H4 & _ & H6 & _ & _ & _ & _ & _ & H12).
  exists fin. repeat split; try assumption.
  apply H12. simpl. lia.
Defined.

Lemma provider_id_witness :
  (exists fin msg,
     main 3 wProviderAbc = Some fin
     /\ status fin = Exited 1
     /\ finalTrace fin = [Log (LFatal msg)])
  /\ main 3 wProviderZero = main 3 (setEnv "PROVIDER_ID" None wProviderZero).
Proof.
  split.
  - destruct (provider_id_zero_or_nan_is_missing wProviderAbc "abc" 3
                eq_refl (or_intror eq_refl))
      as (_ & fin & msg & H1 & H2 & _ & H4 & _).
    exists fin, msg. repeat split; assumption.
  - apply (provider_id_zero_or_nan_is_missing wProviderZero "0" 3
             eq_refl (or_introl eq_refl)).
Defined.

(** C3, as stated, fails: the process stops 60 bytes into the save of a new
    record over the file of an old one; what is left is the start of the
    new text, and loading it gives neither record but a syntax error. *)
Lemma interrupted_save_leaves_neither_version :
  loadProgress (CONFIG wDone) diskDone "T1" = Loaded pDone
  /\ loadProgress (CONFIG wDone) (files (saveProgress (CONFIG wDone) stSaving)) "T1"
     = Loaded pNew
  /\ saveProgressInterrupted (CONFIG wDone) (Written 60) pNew diskDone
       "migration-progress.json"
     = Some (takeStr 60 (serialize pNew))
  /\ String.length (serialize pNew) = 143%nat
  /\ loadProgress (CONFIG wDone)
       (saveProgressInterrupted (CONFIG wDone) (Written 60) pNew diskDone) "T1"
     = LoadThrows JsonSyntaxError.
Proof. repeat split; vm_compute; reflexivity. Qed.

Lemma save_rewrites_in_place_witness :
  loadProgress (CONFIG wDone) (files (saveProgress (CONFIG wDone) stSaving)) "T1"
  = Loaded pNew
  /\ loadProgress (CONFIG wDone)
       (saveProgressInterrupted (CONFIG wDone) (Written 0) pNew diskDone) "T1"
     = LoadThrows JsonSyntaxError.
Proof.
  assert (Hnd : NoDup (migratedFiles (progress stSaving))).
  { simpl. repeat constructor; simpl; intuition discriminate. }
  destruct (save_rewrites_in_place (CONFIG wDone) stSaving "T1" Hnd)
    as (_ & H2 & _ & _ & _ & H6).
  split; [exact H2 | exact H6].
Defined.



(** ** Further properties at sample worlds *)

Lemma saved_progress_loads_back_witness :
  loadProgress (CONFIG wMixed) (files (saveProgress (CONFIG wMixed) stSaving)) "T1"
  = Loaded pNew.
Proof.
  apply (saved_progress_loads_back (CONFIG wMixed) stSaving "T1").
  repeat constructor; simpl; intuition discriminate.
Defined.

Lemma final_record_is_on_disk_witness :
  exists fin p,
    main 5 wMixed = Some fin
    /\ finalProgress fin = Some p
    /\ loadProgress (CONFIG wMixed) (finalDisk fin) (loadTime wMixed) = Loaded p.
Proof.
  destruct (main 5 wMixed) as [fin |] eqn:E.
  - assert (Hs : status fin = Exited 0)
      by (vm_compute in E; injection E as <-; reflexivity).
    destruct (final_record_is_on_disk 5 wMixed fin E Hs) as (p & H1 & _ & H3).
    exists fin, p. auto.
  - vm_compute in E. discriminate E.
Defined.

Lemma rerun_witness :
  exists fin p1,
    main 5 wMixed = Some fin
    /\ ReachesEnumeration (nextRun (finalDisk fin) "T1" wMixed) p1
         ["s-t00-1"; "notes.txt"; "s-t00-2"; "s-t00-3"; "s-t00-4"]
    /\ remainingOf p1
         (pieceFilesOf ["s-t00-1"; "notes.txt"; "s-t00-2"; "s-t00-3"; "s-t00-4"])
       = ["s-t00-3"].
Proof.
  assert (Hre : ReachesEnumeration wMixed (zeroProgress "T0")
                  ["s-t00-1"; "notes.txt"; "s-t00-2"; "s-t00-3"; "s-t00-4"])
    by (repeat split).
  assert (Hnd : NoDup ["s-t00-1"; "notes.txt"; "s-t00-2"; "s-t00-3"; "s-t00-4"])
    by (repeat constructor; simpl; intuition discriminate).
  destruct (main 5 wMixed) as [fin |] eqn:E.
  - assert (Hs : status fin = Exited 0)
      by (vm_compute in E; injection E as <-; reflexivity).
    destruct (rerun_retries_only_transient_failures 5 wMixed (zeroProgress "T0")
                ["s-t00-1"; "notes.txt"; "s-t00-2"; "s-t00-3"; "s-t00-4"] 2 fin
                "T1" Hre Hnd eq_refl eq_refl E Hs) as (p1 & H1 & H2 & _).
    exists fin, p1. split; [reflexivity |]. split; [exact H1 |].
    rewrite H2. reflexivity.
  - vm_compute in E. discriminate E.
Defined.

Lemma batches_cut_witness :
  exists batches,
    mkBatches 4 (Num 2) ["s-t00-1"; "s-t00-2"; "s-t00-3"] (Num 0) = Some batches
    /\ concat batches = ["s-t00-1"; "s-t00-2"; "s-t00-3"]
    /\ Z.of_nat (length batches) = 2.
Proof.
  exists [["s-t00-1"; "s-t00-2"]; ["s-t00-3"]]. split; [reflexivity |].
  destruct (batches_cut_remaining_in_order 4 2
              ["s-t00-1"; "s-t00-2"; "s-t00-3"]
              [["s-t00-1"; "s-t00-2"]; ["s-t00-3"]] eq_refl eq_refl)
    as (H1 & H2 & _).
  split; [exact H1 | exact H2].
Defined.

Lemma nonpositive_batch_size_witness : main 9 wBatchZero = None.
Proof.
  apply (nonpositive_batch_size_never_ends 9 wBatchZero (zeroProgress "T0")
           ["s-t00-1"] 0).
  - repeat split.
  - discriminate.
  - reflexivity.
  - reflexivity.
  - lia.
Defined.

Lemma non_numeric_batch_size_witness :
  exists fin p,
    main 2 wBatchWord = Some fin
    /\ status fin = Exited 0
    /\ uploadsOf (finalTrace fin) = []
    /\ In (Log (LBatch 0 0)) (finalTrace fin)
    /\ completed (finalStats fin) = 0
    /\ failed (finalStats fin) = 0
    /\ finalProgress fin = Some p
    /\ migratedFiles p = migratedFiles (zeroProgress "T0")
    /\ migratedCount p = migratedCount (zeroProgress "T0")
    /\ savesOf (finalTrace fin) = [p; p].
Proof.
  apply (non_numeric_batch_size_uploads_nothing 0 wBatchWord (zeroProgress "T0")
           ["s-t00-1"]).
  - repeat split.
  - discriminate.
  - reflexivity.
  - reflexivity.
Defined.

Lemma run_counts_witness :
  exists fin,
    main 5 wMixed = Some fin
    /\ completed (finalStats fin) = 2
    /\ failed (finalStats fin) = 2
    /\ total (finalStats fin) = 4.
Proof.
  assert (Hre : ReachesEnumeration wMixed (zeroProgress "T0")
                  ["s-t00-1"; "notes.txt"; "s-t00-2"; "s-t00-3"; "s-t00-4"])
    by (repeat split).
  destruct (main 5 wMixed) as [fin |] eqn:E.
  - assert (Hs : status fin = Exited 0)
      by (vm_compute in E; injection E as <-; reflexivity).
    destruct (run_counts_every_remaining_file 5 wMixed (zeroProgress "T0")
                ["s-t00-1"; "notes.txt"; "s-t00-2"; "s-t00-3"; "s-t00-4"] 2 fin
                Hre eq_refl eq_refl E Hs) as (H1 & H2 & H3 & _).
    exists fin. split; [reflexivity |].
    rewrite H1, H2, H3. repeat split.
  - vm_compute in E. discriminate E.
Defined.

Lemma error_records_witness :
  exists fin,
    main 5 wMixed = Some fin
    /\ Permutation (map file (errors (finalStats fin)))
         ["s-t00-2"; "s-t00-3"].
Proof.
  assert (Hre : ReachesEnumeration wMixed (zeroProgress "T0")
                  ["s-t00-1"; "notes.txt"; "s-t00-2"; "s-t00-3"; "s-t00-4"])
    by (repeat split).
  destruct (main 5 wMixed) as [fin |] eqn:E.
  - assert (Hs : status fin = Exited 0)
      by (vm_compute in E; injection E as <-; reflexivity).
    destruct (error_records_follow_the_files 5 wMixed (zeroProgress "T0")
                ["s-t00-1"; "notes.txt"; "s-t00-2"; "s-t00-3"; "s-t00-4"] 2 fin
                Hre eq_refl eq_refl E Hs) as (H1 & _).
    exists fin. split; [reflexivity | exact H1].
  - vm_compute in E. discriminate E.
Defined.

Lemma fresh_run_witness :
  exists fuel fin p,
    main fuel wThree = Some fin
    /\ status fin = Exited 0
    /\ finalProgress fin = Some p
    /\ Permutation (migratedFiles p) ["s-t00-1"; "s-t00-2"; "s-t00-3"]
    /\ migratedCount p = 3
    /\ totalFiles p = 3
    /\ completed (finalStats fin) = 3
    /\ failed (finalStats fin) = 0
    /\ In (Log (LVerdict AllMigrated)) (finalTrace fin).
Proof.
  apply (fresh_run_migrates_everything wThree
           ["s-t00-1"; "s-t00-2"; "s-t00-3"] 2).
  - repeat split.
  - repeat constructor; simpl; intuition discriminate.
  - discriminate.
  - reflexivity.
  - reflexivity.
  - reflexivity.
  - intros f _. reflexivity.
Defined.

Lemma numeric_settings_witness : providerId (CONFIG wProviderSuffix) = Num 7.
Proof.
  apply (proj1 (numeric_settings_read_decimal wProviderSuffix 7 " nodes"
                  ltac:(lia) eq_refl)).
  reflexivity.
Defined.

Lemma rpc_endpoint_witness :
  rpcUrl (CONFIG wLocal) = "http://10.0.0.5:1234/rpc/v1"
  /\ rpcStatus wLocal = UsingLocalNode "10.0.0.5"
  /\ concurrency (CONFIG wLocal) = Num 20.
Proof.
  destruct (rpc_endpoint_follows_probe wLocal "1" "0.0.0.5" eq_refl)
    as (H1 & H2 & _).
  destruct (H1 eq_refl) as [Hu Hs].
  split; [exact Hu |]. split; [exact (Hs eq_refl) | exact (H2 eq_refl)].
Defined.

Lemma progress_lines_witness :
  exists fin,
    main 5 wLogTwo = Some fin
    /\ progressLinesOf (finalTrace fin) = [(2, 3)].
Proof.
  assert (Hre : ReachesEnumeration wLogTwo (zeroProgress "T0")
                  ["s-t00-1"; "s-t00-2"; "s-t00-3"])
    by (repeat split).
  destruct (main 5 wLogTwo) as [fin |] eqn:E.
  - destruct (progress_lines_at_multiples 5 wLogTwo (zeroProgress "T0")
                ["s-t00-1"; "s-t00-2"; "s-t00-3"] fin Hre E) as (_ & _ & H).
    exists fin. split; [reflexivity |]. rewrite H.
    + vm_compute in E. injection E as <-. reflexivity.
    + intros f _. vm_compute. discriminate.
  - vm_compute in E. discriminate E.
Defined.


Lemma report_numbers_witness :
  exists fin,
    main 5 wResume = Some fin
    /\ total (finalStats fin) = 3
    /\ skipped (finalStats fin) = 1
    /\ total (finalStats fin)
       = skipped (finalStats fin) + completed (finalStats fin)
         + failed (finalStats fin).
Proof.
  assert (Hre : ReachesEnumeration wResume pDone ["s-t00-1"; "s-t00-2"; "s-t00-3"]).
  { repeat split. }
  destruct (main 5 wResume) as [fin |] eqn:E.
  - assert (Hs : status fin = Exited 0 /\ total (finalStats fin) = 3
                 /\ skipped (finalStats fin) = 1)
      by (vm_compute in E; injection E as <-; repeat split).
    destruct Hs as (Hs & Ht & Hk).
    destruct (report_numbers_add_up 5 wResume pDone
                ["s-t00-1"; "s-t00-2"; "s-t00-3"] 2 fin Hre) as (p & _ & H & _);
      try assumption; try reflexivity.
    + repeat constructor; simpl; intuition discriminate.
    + intros f [<- | []]. now left.
    + exists fin. auto.
  - vm_compute in E. discriminate E.
Defined.

Lemma basic_count_witness :
  exists fin,
    Basic.main 5 wMixed = Some fin
    /\ savesOf (finalTrace fin) <> []
    /\ forall p, In (SaveProgress p) (finalTrace fin) ->
                 migratedCount p = Z.of_nat (length (migratedFiles p)).
Proof.
  destruct (Basic.main 5 wMixed) as [fin |] eqn:E.
  - exists fin. split; [reflexivity |]. split.
    + vm_compute in E. injection E as <-. discriminate.
    + apply (basic_count_is_number_of_names 5 wMixed (zeroProgress "T0")
               ["s-t00-1"; "notes.txt"; "s-t00-2"; "s-t00-3"; "s-t00-4"]);
        try reflexivity; try assumption.
      repeat constructor; simpl; intuition discriminate.
  - vm_compute in E. discriminate E.
Defined.

Lemma basic_rerun_witness :
  exists fin p1,
    Basic.main 5 wMixed = Some fin
    /\ loadProgress (Basic.CONFIG wMixed) (finalDisk fin) "T1" = Loaded p1
    /\ remainingOf p1
         (pieceFilesOf ["s-t00-1"; "notes.txt"; "s-t00-2"; "s-t00-3"; "s-t00-4"])
       = ["s-t00-2"; "s-t00-3"; "s-t00-4"].
Proof.
  assert (Hnd : NoDup ["s-t00-1"; "notes.txt"; "s-t00-2"; "s-t00-3"; "s-t00-4"])
    by (repeat constructor; simpl; intuition discriminate).
  destruct (Basic.main 5 wMixed) as [fin |] eqn:E.
  - assert (Hs : status fin = Exited 0)
      by (vm_compute in E; injection E as <-; reflexivity).
    destruct (basic_rerun_retries_every_failure 5 wMixed (zeroProgress "T0")
                ["s-t00-1"; "notes.txt"; "s-t00-2"; "s-t00-3"; "s-t00-4"] 2 fin
                "T1" eq_refl eq_refl Hnd eq_refl eq_refl E Hs)
      as (p1 & H1 & H2 & _).
    exists fin, p1. split; [reflexivity |]. split; [exact H1 |].
    rewrite H2. reflexivity.
  - vm_compute in E. discriminate E.
Defined.

Lemma any_order_witness :
  completed (stats (processBatch (CONFIG wMixed) wMixed ["s-t00-1"; "s-t00-2"]
                      (startState wMixed (zeroProgress "T0") [])))
  = completed (stats (processBatch (CONFIG wMixed) wMixed ["s-t00-2"; "s-t00-1"]
                        (startState wMixed (zeroProgress "T0") [])))
  /\ Permutation
       (migratedFiles (progress (processBatch (CONFIG wMixed) wMixed
                                   ["s-t00-1"; "s-t00-2"]
                                   (startState wMixed (zeroProgress "T0") []))))
       (migratedFiles (progress (processBatch (CONFIG wMixed) wMixed
                                   ["s-t00-2"; "s-t00-1"]
                                   (startState wMixed (zeroProgress "T0") [])))).
Proof.
  destruct (processBatch_any_order (CONFIG wMixed) wMixed
              ["s-t00-1"; "s-t00-2"] ["s-t00-2"; "s-t00-1"]
              (startState wMixed (zeroProgress "T0") []))
    as (H1 & _ & _ & H4).
  - apply perm_swap.
  - repeat constructor; simpl; intuition discriminate.
  - intros f _ [].
  - split; [exact H1 | exact H4].
Defined.

Lemma checkpoint_after_every_batch_witness :
  exists fin,
    main 5 wMixed = Some fin
    /\ length (savesOf (finalTrace fin)) = 3%nat
    /\ forall p,
         nth_error (savesOf (finalTrace fin)) 0 = Some p ->
         Permutation (migratedFiles p) ["s-t00-1"; "s-t00-2"]
         /\ migratedCount p = 1
         /\ lastUpdated p = batchTime wMixed 0.
Proof.
  assert (Hre : ReachesEnumeration wMixed (zeroProgress "T0")
                  ["s-t00-1"; "notes.txt"; "s-t00-2"; "s-t00-3"; "s-t00-4"])
    by (repeat split).
  assert (Hnd : NoDup ["s-t00-1"; "notes.txt"; "s-t00-2"; "s-t00-3"; "s-t00-4"])
    by (repeat constructor; simpl; intuition discriminate).
  destruct (main 5 wMixed) as [fin |] eqn:E.
  - assert (Hs : status fin = Exited 0)
      by (vm_compute in E; injection E as <-; reflexivity).
    destruct (checkpoint_after_every_batch 5 wMixed (zeroProgress "T0")
                ["s-t00-1"; "notes.txt"; "s-t00-2"; "s-t00-3"; "s-t00-4"] 2 fin
                Hre Hnd ltac:(discriminate) eq_refl eq_refl E Hs)
      as (batches & Hcut & Hlen & Hk & _).
    assert (Hb : batches = [["s-t00-1"; "s-t00-2"]; ["s-t00-3"; "s-t00-4"]])
      by (vm_compute in Hcut; now injection Hcut as <-).
    subst batches.
    exists fin. split; [reflexivity |]. split; [exact Hlen |].
    intros p Hp.
    destruct (Hk 0%nat p ltac:(cbn [length]; lia) Hp) as [[Hn Hc] Ht].
    split; [exact Hn |]. split; [exact Hc | exact Ht].
  - vm_compute in E. discriminate E.
Defined.

Lemma scripts_agree_witness :
  exists fin fin',
    main 5 wOneFails = Some fin
    /\ Basic.main 5 wOneUnread = Some fin'
    /\ SameCounts fin fin'
    /\ completed (finalStats fin) = 2
    /\ failed (finalStats fin') = 1.
Proof.
  assert (Hre : ReachesEnumeration wOneFails (zeroProgress "T0")
                  ["s-t00-1"; "s-t00-2"; "s-t00-3"])
    by (repeat split).
  assert (Hre' : BasicReaches wOneUnread (zeroProgress "T0")
                   ["s-t00-1"; "s-t00-2"; "s-t00-3"])
    by (repeat split).
  assert (Hnd : NoDup ["s-t00-1"; "s-t00-2"; "s-t00-3"])
    by (repeat constructor; simpl; intuition discriminate).
  assert (Hsame : SameUploads wOneFails wOneUnread
                    (remainingOf (zeroProgress "T0")
                       (pieceFilesOf ["s-t00-1"; "s-t00-2"; "s-t00-3"]))).
  { intros f [<- | [<- | [<- | []]]];
      (split; [first [left; reflexivity | right; reflexivity] | reflexivity]). }
  pose proof (scripts_agree_without_special_errors 5 wOneFails wOneUnread
                (zeroProgress "T0") ["s-t00-1"; "s-t00-2"; "s-t00-3"]
                Hre Hre' Hnd eq_refl eq_refl Hsame) as H.
  destruct (main 5 wOneFails) as [fin |] eqn:E;
    destruct (Basic.main 5 wOneUnread) as [fin' |] eqn:E';
    try contradiction.
  - exists fin, fin'. split; [reflexivity |]. split; [reflexivity |].
    split; [exact H |]. split.
    + vm_compute in E. injection E as <-. reflexivity.
    + vm_compute in E'. injection E' as <-. reflexivity.
  - vm_compute in E. discriminate E.
Defined.

Lemma rerun_after_clean_run_witness :
  exists fin fin',
    main 5 wThree = Some fin
    /\ main 3 (nextRun (finalDisk fin) "T1" wThree) = Some fin'
    /\ status fin' = Exited 0
    /\ uploadsOf (finalTrace fin') = []
    /\ writesOf (finalTrace fin') = [].
Proof.
  assert (Hre : ReachesEnumeration wThree (zeroProgress "T0")
                  ["s-t00-1"; "s-t00-2"; "s-t00-3"])
    by (repeat split).
  assert (Hnd : NoDup ["s-t00-1"; "s-t00-2"; "s-t00-3"])
    by (repeat constructor; simpl; intuition discriminate).
  destruct (main 5 wThree) as [fin |] eqn:E.
  - assert (Hs : status fin = Exited 0)
      by (vm_compute in E; injection E as <-; reflexivity).
    destruct (rerun_after_clean_run_does_nothing 5 3 wThree (zeroProgress "T0")
                ["s-t00-1"; "s-t00-2"; "s-t00-3"] 2 fin "T1"
                Hre Hnd eq_refl eq_refl E Hs)
      as (fin' & H1 & H2 & H3 & H4 & _).
    + intros f _. vm_compute. discriminate.
    + exists fin, fin'. auto.
  - vm_compute in E. discriminate E.
Defined.

Lemma no_file_uploaded_twice_witness :
  exists fin,
    main 5 wMixed = Some fin /\ NoDup (uploadsOf (finalTrace fin)).
Proof.
  destruct (main 5 wMixed) as [fin |] eqn:E.
  - exists fin. split; [reflexivity |].
    apply (no_file_uploaded_twice 5 wMixed fin); [| exact E].
    intros entries H. injection H as <-.
    repeat constructor; simpl; intuition discriminate.
  - vm_compute in E. discriminate E.
Defined.
